(** * The toolkit's templates, git-log parser, logger and command discovery

    A shallow embedding of [tools/template.ts], [tools/git.ts],
    [tools/logger.ts] (and its earlier revision), [tools/try-catch.ts],
    [tools/filesystem.ts], [tools/callsites.ts], the emoji and
    versioning modules and the two revisions of the [run] entry point,
    followed by the properties proved about them.

    ECMAScript strings are sequences of UTF-16 code units; they are
    modelled as lists of numbers so that the white space and line
    terminator classes used by [trim] and by the regular expression
    [/{.+?}/g] are the ones of the language. *)

From Stdlib Require Import List NArith ZArith Bool Ascii String Lia PeanoNat.
From Stdlib Require Import Floats.PrimFloat.
Import ListNotations.

Set Implicit Arguments.

(** ** ECMAScript strings and the String.prototype methods the toolkit calls *)
Module JS.

Definition code_unit := N.
Definition jsstring := list code_unit.

(** Literals: an ASCII text as code units. *)
Fixpoint str (s : string) : jsstring :=
  match s with
  | EmptyString => []
  | String a r => N_of_ascii a :: str r
  end.

Fixpoint eqb (a b : jsstring) : bool :=
  match a, b with
  | [], [] => true
  | x :: a', y :: b' => N.eqb x y && eqb a' b'
  | _, _ => false
  end.

Definition lbrace : code_unit := 123%N.
Definition rbrace : code_unit := 125%N.
Definition dollar : code_unit := 36%N.
Definition ampersand : code_unit := 38%N.
Definition backtick : code_unit := 96%N.
Definition apostrophe : code_unit := 39%N.
Definition dquote : code_unit := 34%N.

(** ["\n"] *)
Definition newline : jsstring := [10%N].

(** LineTerminator: LF, CR, LS, PS. *)
Definition isLineTerminator (c : code_unit) : bool :=
  (c =? 10)%N || (c =? 13)%N || (c =? 8232)%N || (c =? 8233)%N.

(** WhiteSpace: TAB, VT, FF, ZWNBSP and the space separators. *)
Definition isWhiteSpace (c : code_unit) : bool :=
  (c =? 9)%N || (c =? 11)%N || (c =? 12)%N || (c =? 32)%N || (c =? 160)%N
  || (c =? 5760)%N || ((8192 <=? c)%N && (c <=? 8202)%N)
  || (c =? 8239)%N || (c =? 8287)%N || (c =? 12288)%N || (c =? 65279)%N.

Definition isTrimmable (c : code_unit) : bool :=
  isWhiteSpace c || isLineTerminator c.

Fixpoint trimStart (s : jsstring) : jsstring :=
  match s with
  | [] => []
  | c :: r => if isTrimmable c then trimStart r else s
  end.

Definition trimEnd (s : jsstring) : jsstring := rev (trimStart (rev s)).

(** [String.prototype.trim] *)
Definition trim (s : jsstring) : jsstring := trimEnd (trimStart s).

(** [String.prototype.startsWith] at position 0 *)
Fixpoint startsWith (pat s : jsstring) : bool :=
  match pat, s with
  | [], _ => true
  | p :: pat', c :: s' => N.eqb p c && startsWith pat' s'
  | _ :: _, [] => false
  end.

(** [String.prototype.includes] *)
Fixpoint includes (pat s : jsstring) : bool :=
  startsWith pat s ||
  match s with
  | [] => false
  | _ :: r => includes pat r
  end.

(** GetSubstitution for a string pattern (no captures): [$$], [$&],
    [$`] and [$'] are expanded, every other [$] sequence is literal. *)
Fixpoint GetSubstitution (matched before after template : jsstring) : jsstring :=
  match template with
  | [] => []
  | c :: rest =>
      if (c =? dollar)%N then
        match rest with
        | [] => [c]
        | d :: rest' =>
            if (d =? dollar)%N then dollar :: GetSubstitution matched before after rest'
            else if (d =? ampersand)%N then matched ++ GetSubstitution matched before after rest'
            else if (d =? backtick)%N then before ++ GetSubstitution matched before after rest'
            else if (d =? apostrophe)%N then after ++ GetSubstitution matched before after rest'
            else c :: GetSubstitution matched before after rest
        end
      else c :: GetSubstitution matched before after rest
  end.

(** The scan of [replaceAll] for a non-empty search string: [before] is
    the text already passed, [skip] the number of code units of the
    current match still to be stepped over. *)
Fixpoint replaceAll_from (pat repl before : jsstring) (skip : nat) (s : jsstring)
  : jsstring :=
  match s with
  | [] => []
  | c :: r =>
      match skip with
      | S k => replaceAll_from pat repl (before ++ [c]) k r
      | O =>
          if startsWith pat s
          then GetSubstitution pat before (skipn (List.length pat) s) repl
               ++ replaceAll_from pat repl (before ++ [c]) (List.length pat - 1) r
          else c :: replaceAll_from pat repl (before ++ [c]) 0 r
      end
  end.

(** An empty search string matches before every code unit and at the end. *)
Fixpoint replaceAll_empty (repl before s : jsstring) : jsstring :=
  GetSubstitution [] before s repl ++
  match s with
  | [] => []
  | c :: r => c :: replaceAll_empty repl (before ++ [c]) r
  end.

(** [String.prototype.replaceAll] with a string pattern and a string
    replacement. *)
Definition replaceAll (pat repl s : jsstring) : jsstring :=
  match pat with
  | [] => replaceAll_empty repl [] s
  | _ :: _ => replaceAll_from pat repl [] 0 s
  end.

Fixpoint replace_from (pat repl before s : jsstring) : jsstring :=
  if startsWith pat s
  then GetSubstitution pat before (skipn (List.length pat) s) repl ++ skipn (List.length pat) s
  else match s with
       | [] => []
       | c :: r => c :: replace_from pat repl (before ++ [c]) r
       end.

(** [String.prototype.replace] with a string pattern: first occurrence only. *)
Definition replace (pat repl s : jsstring) : jsstring := replace_from pat repl [] s.

Fixpoint split_from (sep cur : jsstring) (skip : nat) (s : jsstring) : list jsstring :=
  match s with
  | [] => [rev cur]
  | c :: r =>
      match skip with
      | S k => split_from sep cur k r
      | O =>
          if startsWith sep s
          then rev cur :: split_from sep [] (List.length sep - 1) r
          else split_from sep (c :: cur) 0 r
      end
  end.

(** [String.prototype.split] with a string separator and no limit. *)
Definition split (sep s : jsstring) : list jsstring :=
  match sep with
  | [] => map (fun c => [c]) s
  | _ :: _ => split_from sep [] 0 s
  end.

Fixpoint lastIndexOf_from (pat s : jsstring) (i best : Z) : Z :=
  match s with
  | [] => if startsWith pat [] then i else best
  | _ :: r => lastIndexOf_from pat r (i + 1) (if startsWith pat s then i else best)
  end.

(** [String.prototype.lastIndexOf]: [-1] when there is no occurrence. *)
Definition lastIndexOf (pat s : jsstring) : Z := lastIndexOf_from pat s 0 (-1).

Fixpoint indexOf_from (pat s : jsstring) (i : Z) : Z :=
  if startsWith pat s then i
  else match s with
       | [] => (-1)%Z
       | _ :: r => indexOf_from pat r (i + 1)
       end.

(** [String.prototype.indexOf] *)
Definition indexOf (pat s : jsstring) : Z := indexOf_from pat s 0.

(** [String.prototype.substring] with one argument: a negative start
    counts as 0. *)
Definition substring (start : Z) (s : jsstring) : jsstring :=
  skipn (Z.to_nat (Z.max 0 start)) s.

(** [String.prototype.repeat]; [None] is the RangeError of a negative
    count, and of a result longer than [max_length], the longest
    string the engine builds. *)
Definition repeat (max_length : N) (s : jsstring) (count : Z) : option jsstring :=
  if (count <? 0)%Z then None
  else if (Z.of_N max_length <? Z.of_nat (List.length s) * count)%Z then None
  else Some (List.concat (List.repeat s (Z.to_nat count))).

(** [Array.prototype.join] on strings *)
Fixpoint join (sep : jsstring) (l : list jsstring) : jsstring :=
  match l with
  | [] => []
  | [x] => x
  | x :: rest => x ++ sep ++ join sep rest
  end.

(** [Boolean(s)] on a string: only the empty string is falsy. *)
Definition truthy_string (s : jsstring) : bool :=
  match s with
  | [] => false
  | _ :: _ => true
  end.

(** *** The regular expression [/{.+?}/] *)

(** The lazy [.+?}] after its first code unit: extend over code units
    that are not line terminators until the first closing brace. *)
Fixpoint lazy_until_rbrace (s : jsstring) : option jsstring :=
  match s with
  | [] => None
  | c :: r =>
      if (c =? rbrace)%N then Some [c]
      else if isLineTerminator c then None
      else option_map (cons c) (lazy_until_rbrace r)
  end.

(** A match of [/{.+?}/] anchored at the head of [s]: the matched text. *)
Definition match_placeholder (s : jsstring) : option jsstring :=
  match s with
  | c0 :: c1 :: r =>
      if (c0 =? lbrace)%N && negb (isLineTerminator c1)
      then option_map (fun m => c0 :: c1 :: m) (lazy_until_rbrace r)
      else None
  | _ => None
  end.

(** The successive matches of the global expression, [lastIndex]
    advancing past each match. *)
Fixpoint matchAll_from (skip : nat) (s : jsstring) : list jsstring :=
  match s with
  | [] => []
  | c :: r =>
      match skip with
      | S k => matchAll_from k r
      | O =>
          match match_placeholder s with
          | Some m => m :: matchAll_from (List.length m - 1) r
          | None => matchAll_from 0 r
          end
      end
  end.

(** [Array.from(s.matchAll(/{.+?}/g)).map(v => v[0])] *)
Definition matchAll (s : jsstring) : list jsstring := matchAll_from 0 s.

(** [s.replace(/{(.+?)\}/g, f)] where the callback [f] reads only the
    matched text. *)
Fixpoint replace_matches_from (f : jsstring -> jsstring) (skip : nat) (s : jsstring)
  : jsstring :=
  match s with
  | [] => []
  | c :: r =>
      match skip with
      | S k => replace_matches_from f k r
      | O =>
          match match_placeholder s with
          | Some m => f m ++ replace_matches_from f (List.length m - 1) r
          | None => c :: replace_matches_from f 0 r
          end
      end
  end.

Definition replace_matches (f : jsstring -> jsstring) (s : jsstring) : jsstring :=
  replace_matches_from f 0 s.

(** *** Plain objects with string keys

    An object is the list of its own enumerable properties in the order
    the language enumerates them: array-index keys first, in ascending
    numeric order, then the other keys in insertion order. *)

Definition isDigit (c : code_unit) : bool := (48 <=? c)%N && (c <=? 57)%N.

Fixpoint digits_value (acc : N) (s : jsstring) : option N :=
  match s with
  | [] => Some acc
  | c :: r => if isDigit c then digits_value (acc * 10 + (c - 48))%N r else None
  end.

(** The canonical numeric strings below [2^32 - 1]. *)
Definition array_index (k : jsstring) : option N :=
  match k with
  | [] => None
  | c :: r =>
      if (c =? 48)%N then match r with [] => Some 0%N | _ :: _ => None end
      else match digits_value 0 k with
           | Some n => if (n <? 4294967295)%N then Some n else None
           | None => None
           end
  end.

Definition object (V : Type) := list (jsstring * V).

Section Objects.
Variable V : Type.

Fixpoint get (o : object V) (k : jsstring) : option V :=
  match o with
  | [] => None
  | (k', v) :: rest => if eqb k k' then Some v else get rest k
  end.

Definition hasOwn (o : object V) (k : jsstring) : bool :=
  existsb (fun kv => eqb k (fst kv)) o.

Definition keys (o : object V) : list jsstring := map fst o.

Fixpoint overwrite (k : jsstring) (v : V) (o : object V) : object V :=
  match o with
  | [] => []
  | (k', v') :: rest =>
      if eqb k k' then (k', v) :: rest else (k', v') :: overwrite k v rest
  end.

(** A new array-index key goes before the first key that is not an
    array index or is a larger one. *)
Fixpoint insert_index (n : N) (k : jsstring) (v : V) (o : object V) : object V :=
  match o with
  | [] => [(k, v)]
  | (k', v') :: rest =>
      match array_index k' with
      | Some n' =>
          if (n <? n')%N then (k, v) :: o else (k', v') :: insert_index n k v rest
      | None => (k, v) :: o
      end
  end.

(** [o[k] = v] *)
Definition set (k : jsstring) (v : V) (o : object V) : object V :=
  if hasOwn o k then overwrite k v o
  else match array_index k with
       | Some n => insert_index n k v o
       | None => o ++ [(k, v)]
       end.

(** An object literal: its properties defined one after the other. *)
Definition literal (entries : list (jsstring * V)) : object V :=
  fold_left (fun o kv => set (fst kv) (snd kv) o) entries [].
End Objects.

(** The property names every plain object inherits from
    [Object.prototype] (none of them enumerable); the host removes the
    [__proto__] accessor. *)
Definition Object_prototype_names : list jsstring :=
  map str
    [ "constructor"%string; "hasOwnProperty"%string; "isPrototypeOf"%string;
      "propertyIsEnumerable"%string; "toLocaleString"%string; "toString"%string;
      "valueOf"%string; "__defineGetter__"%string; "__defineSetter__"%string;
      "__lookupGetter__"%string; "__lookupSetter__"%string ].

(** [k in o] for a plain object: own or inherited. *)
Definition has_property (V : Type) (k : jsstring) (o : object V) : bool :=
  hasOwn o k || existsb (eqb k) Object_prototype_names.

(** *** Vocabulary of the statements *)

(** [occurs q s]: [q] is a substring of [s]. *)
Definition occurs (q s : jsstring) : Prop :=
  exists pre post, s = pre ++ q ++ post.

(** [s] contains a text the expression [/{.+?}/] matches: an opening
    brace, at least one code unit, none of them a line terminator, and
    a closing brace. *)
Definition has_placeholder (s : jsstring) : Prop :=
  exists pre body post,
    s = pre ++ lbrace :: body ++ rbrace :: post /\ body <> [] /\
    Forall (fun c => isLineTerminator c = false) body.





(** [m] is such a text: what the expression can match. *)
Definition placeholder_text (m : jsstring) : Prop :=
  exists body,
    m = lbrace :: body ++ [rbrace] /\ body <> [] /\
    Forall (fun c => isLineTerminator c = false) body.

(** A name without braces. *)
Definition brace_free (k : jsstring) : bool :=
  forallb (fun c => negb (c =? lbrace)%N && negb (c =? rbrace)%N) k.

(** Completion of a call: a value or a thrown exception. *)
Inductive completion (A E : Type) : Type :=
| Normal (a : A)
| Throw (e : E).
Arguments Normal {A E} a.
Arguments Throw {A E} e.

(** [array.map(f)] for a callback that may throw: the first exception
    ends the traversal. *)
Fixpoint map_throw (A B E : Type) (f : A -> completion B E) (l : list A)
  : completion (list B) E :=
  match l with
  | [] => Normal []
  | x :: rest =>
      match f x with
      | Throw e => Throw e
      | Normal y =>
          match map_throw f rest with
          | Throw e => Throw e
          | Normal ys => Normal (y :: ys)
          end
      end
  end.

End JS.

(** ** tools/template.ts *)
Module Template.
Import JS.

(** [Template.Replacements]: placeholder name to replacement.  A value
    is given as the string [replaceAll] receives for it (the code reads
    [rep[key] as string]; a number or boolean stands for its string
    image). *)
Definition Replacements := object jsstring.

(** A [Template] is a [String] carrying its default replacements. *)
Record t : Type := mk {
  value : jsstring;
  replacements : Replacements
}.

(** [new Template(value, defaults)]: [defaults || {}] *)
Definition new (v : jsstring) (defaults : option Replacements) : t :=
  mk v (match defaults with Some d => d | None => [] end).

(** The entries [deepMerge] reads: it passes over the key
    [__proto__]. *)
Definition mergeable (record : Replacements) : Replacements :=
  filter (fun kv => negb (eqb (fst kv) (str "__proto__"))) record.

(** [deepMerge] of the standard collections on flat records: the keys
    of the first record, then the new keys of the second, each with
    the value of the second record when it has the key. *)
Definition deepMerge (record other : Replacements) : Replacements :=
  fold_left (fun o kv => set (fst kv) (snd kv) o)
            (mergeable other) (mergeable record).

(** [`{${key}}`] *)
Definition placeholder (key : jsstring) : jsstring := lbrace :: key ++ [rbrace].

(** The [for (const key in rep)] loop of [#render]. *)
Definition substitute (rep : Replacements) (endValue : jsstring) : jsstring :=
  fold_left (fun acc kv => replaceAll (placeholder (fst kv)) (snd kv) acc) rep endValue.

(** [#render(replacements, useDefaults = true)] *)
Definition render_ (tpl : t) (reps : Replacements) (useDefaults : bool) : jsstring :=
  let rep := if useDefaults then deepMerge (replacements tpl) reps else reps in
  trim (substitute rep (value tpl)).

(** The [cause] of the error thrown by [#validate]. *)
Record Cause : Type := mkCause {
  template : jsstring;
  result : jsstring;
  missingReplacements : list jsstring
}.

Record Error : Type := mkError {
  message : jsstring;
  cause : Cause
}.

Definition unreplaced_message : jsstring :=
  str "Some placeholders haven't been replaced yet".

(** [#validate(value)] *)
Definition validate (tpl : t) (v : jsstring) : completion unit Error :=
  let placeholders := matchAll v in
  if negb (Nat.eqb (List.length placeholders) 0)
  then Throw (mkError unreplaced_message (mkCause (value tpl) v placeholders))
  else Normal tt.

(** [render(replacements)] *)
Definition render (tpl : t) (reps : Replacements) : completion jsstring Error :=
  let result := render_ tpl reps true in
  match validate tpl result with
  | Throw e => Throw e
  | Normal _ => Normal result
  end.

(** [filterKeys] of the standard collections. *)
Definition filterKeys (record : Replacements) (predicate : jsstring -> bool)
  : Replacements :=
  filter (fun kv => predicate (fst kv)) record.

(** [partialRender(replacements)] *)
Definition partialRender (tpl : t) (reps : Replacements) : t :=
  let nt := render_ tpl reps false in
  let defaults :=
    filterKeys (replacements tpl) (fun k => negb (has_property k reps)) in
  new nt (Some defaults).

End Template.

(** ** tools/git.ts *)
Module Git.
Import JS.

(** What [JSON.parse] returns. *)
#[warnings="-register-all"]
Inductive json : Type :=
| JNull
| JBool (b : bool)
| JNumber (n : float)
| JString (s : jsstring)
| JArray (items : list json)
| JObject (fields : object json).

(** A value of type [unknown] as the schema sees it: [None] is
    [undefined], the value of a field the parsed object lacks. *)
Definition value := option json.

(** [data[key]] *)
Definition field (j : json) (k : jsstring) : value :=
  match j with
  | JObject o => get o k
  | _ => None
  end.

(** A [Date]: its time value, the milliseconds since the epoch as a
    whole number, or NaN when the date is invalid. *)
Record Date : Type := mkDate {
  time_value : float
}.

(** [2^52]: every number of this magnitude or more is a whole number,
    and adding it to a smaller magnitude rounds that to a whole
    number. *)
Definition two52 : float := 4503599627370496%float.

(** The number rounded towards zero; NaN and the infinities are
    returned as they are. *)
Definition truncate (x : float) : float :=
  let a := abs x in
  if (a <? two52)%float
  then let r := (a + two52 - two52)%float in
       let t := if (a <? r)%float then (r - 1)%float else r in
       if (x <? 0)%float then (- t)%float else t
  else x.

(** TimeClip: a time value is a whole number of at most 8.64e15
    milliseconds, or NaN. *)
Definition TimeClip (time : float) : float :=
  if is_nan time || is_infinity time then nan
  else if (8640000000000000 <? abs time)%float then nan
  else (truncate time + 0)%float.

Record Author : Type := mkAuthor {
  name : jsstring;
  email : jsstring
}.

(** [Commit] *)
Record Commit : Type := mkCommit {
  hash : jsstring;
  id : jsstring;
  timestamp : Date;
  author : Author;
  subject : jsstring;
  ref : jsstring
}.

Inductive Error : Type :=
| SyntaxError   (* thrown by [JSON.parse] *)
| ZodError       (* thrown by [CommitSchema.parse] *)
| ProcessError.  (* raised by the [git] subprocess *)

(** A quoted JSON string token. *)
Definition quoted (s : string) : jsstring := dquote :: str s ++ [dquote].

(** [`{"hash"`], the text [#parseLogOutput] splits at. *)
Definition delimiter : jsstring := lbrace :: quoted "hash".

(** [JSON.stringify(commitFormat)] *)
Definition commitFormat : jsstring :=
  lbrace :: quoted "hash" ++ str ":" ++ quoted "%H" ++ str ","
  ++ quoted "id" ++ str ":" ++ quoted "%h" ++ str ","
  ++ quoted "timestamp" ++ str ":" ++ quoted "%ad" ++ str ","
  ++ quoted "author" ++ str ":{" ++ quoted "name" ++ str ":" ++ quoted "%an"
  ++ str "," ++ quoted "email" ++ str ":" ++ quoted "%ae" ++ str "},"
  ++ quoted "subject" ++ str ":" ++ quoted "%s" ++ str ","
  ++ quoted "ref" ++ str ":" ++ quoted "%D" ++ str "}".

(** The expression [/([A-Z][a-z]+)/] anchored at the head of [s]: an
    upper-case letter and the longest run of lower-case letters after
    it, at least one. *)
Definition isUpper (c : code_unit) : bool := (65 <=? c)%N && (c <=? 90)%N.
Definition isLower (c : code_unit) : bool := (97 <=? c)%N && (c <=? 122)%N.

Fixpoint lower_run (s : jsstring) : jsstring :=
  match s with
  | c :: r => if isLower c then c :: lower_run r else []
  | [] => []
  end.

Definition match_capital (s : jsstring) : option jsstring :=
  match s with
  | c :: r =>
      if isUpper c
      then match lower_run r with
           | [] => None
           | run => Some (c :: run)
           end
      else None
  | [] => None
  end.

(** [name.split(/([A-Z][a-z]+)/)]: the pieces between the matches and,
    after each piece, the captured match. *)
Fixpoint split_capitals_from (cur : jsstring) (skip : nat) (s : jsstring)
  : list jsstring :=
  match s with
  | [] => [rev cur]
  | c :: r =>
      match skip with
      | S k => split_capitals_from cur k r
      | O =>
          match match_capital s with
          | Some m => rev cur :: m :: split_capitals_from [] (List.length m - 1) r
          | None => split_capitals_from (c :: cur) 0 r
          end
      end
  end.

Definition split_capitals (s : jsstring) : list jsstring :=
  split_capitals_from [] 0 s.

(** [output.split(`{"hash"`).filter(Boolean).map((v) => `{"hash"${v}`)] *)
Definition rawCommits (output : jsstring) : list jsstring :=
  map (fun v => delimiter ++ v) (filter truthy_string (split delimiter output)).

Section Host.
(** The engine and the libraries the module calls. *)
Variable StringToNumber : jsstring -> float.    (* [Number(s)] on a string *)
Variable ToPrimitive : json -> jsstring.        (* an array or object as a string *)
Variable Date_parse : jsstring -> float.        (* [Date.parse]: NaN for no date *)
Variable JSON_parse : jsstring -> completion json Error.
Variable emojiCharToCode : jsstring -> jsstring.
Variable toLowerCase : jsstring -> jsstring.      (* [String.prototype.toLowerCase] *)

(** [Number(date)] *)
Definition Number (v : value) : float :=
  match v with
  | None => nan
  | Some JNull => zero
  | Some (JBool true) => one
  | Some (JBool false) => zero
  | Some (JNumber n) => n
  | Some (JString s) => StringToNumber s
  | Some (JArray items) => StringToNumber (ToPrimitive (JArray items))
  | Some (JObject fields) => StringToNumber (ToPrimitive (JObject fields))
  end.

(** [new Date(value)]: a string is parsed, any other primitive is
    converted to a number, and an array or object is first converted
    to a primitive, which is a string; the result is clipped. *)
Definition new_Date (v : value) : Date :=
  mkDate
    (TimeClip
       match v with
       | Some (JString s) => Date_parse s
       | Some (JArray items) => Date_parse (ToPrimitive (JArray items))
       | Some (JObject fields) => Date_parse (ToPrimitive (JObject fields))
       | Some (JNumber n) => n
       | Some (JBool true) => one
       | Some (JBool false) => zero
       | Some JNull => zero
       | None => nan
       end).

(** [parseDate(date)] *)
Definition parseDate (date : value) : Date :=
  let asNumber := Number date in
  if negb (is_nan asNumber)
  then new_Date (Some (JNumber (asNumber * 1000)%float))
  else new_Date date.

(** [z.string().trim()] *)
Definition TrimmedStringSchema (v : value) : completion jsstring Error :=
  match v with
  | Some (JString s) => Normal (trim s)
  | _ => Throw ZodError
  end.

(** [z.preprocess(parseDate, z.date())]: the preprocessed value is a
    [Date]; it is accepted when its time value, [getTime()], is not
    NaN. *)
Definition TimestampSchema (v : value) : completion Date Error :=
  let d := parseDate v in
  if is_nan (time_value d) then Throw ZodError else Normal d.

(** [z.object({ name, email })] *)
Definition AuthorSchema (v : value) : completion Author Error :=
  match v with
  | Some (JObject o) =>
      match TrimmedStringSchema (get o (str "name")),
            TrimmedStringSchema (get o (str "email")) with
      | Normal n, Normal e => Normal (mkAuthor n e)
      | _, _ => Throw ZodError
      end
  | _ => Throw ZodError
  end.

(** [parseSubject(commit)] *)
Definition parseSubject (commit : Commit) : Commit :=
  mkCommit (hash commit) (id commit) (timestamp commit) (author commit)
           (emojiCharToCode (subject commit)) (ref commit).

(** [CommitSchema.parse(data)] *)
Definition CommitSchema_parse (data : json) : completion Commit Error :=
  match data with
  | JObject o =>
      match TrimmedStringSchema (get o (str "hash")),
            TrimmedStringSchema (get o (str "id")),
            TimestampSchema (get o (str "timestamp")),
            AuthorSchema (get o (str "author")),
            TrimmedStringSchema (get o (str "subject")),
            TrimmedStringSchema (get o (str "ref")) with
      | Normal h, Normal i, Normal t, Normal a, Normal s, Normal r =>
          Normal (parseSubject (mkCommit h i t a s r))
      | _, _, _, _, _, _ => Throw ZodError
      end
  | _ => Throw ZodError
  end.

(** [(c) => CommitSchema.parse(JSON.parse(c))] *)
Definition parseCommit (c : jsstring) : completion Commit Error :=
  match JSON_parse c with
  | Throw e => Throw e
  | Normal data => CommitSchema_parse data
  end.

(** [#parseLogOutput(output)] *)
Definition parseLogOutput (output : jsstring) : completion (list Commit) Error :=
  map_throw parseCommit (rawCommits output).

(** [parseFlag(name, value, takesValue)] *)
Definition parseFlag (name : jsstring) (v : option jsstring) (takesValue : bool)
  : list jsstring :=
  let flagName :=
    str "--"
    ++ join (str "-")
         (filter truthy_string (map toLowerCase (split_capitals name))) in
  match v with
  | Some (c :: r) =>
      if negb takesValue then [flagName; c :: r]
      else [flagName ++ str "=" ++ (c :: r)]
  | _ => [flagName]
  end.

(** [parseFlags(flags, takesValue)]: a flag whose value is not a
    string ([None] here) stands alone. *)
Definition parseFlags (flags : object (option jsstring)) (takesValue : bool)
  : list jsstring :=
  List.concat (map (fun kv => parseFlag (fst kv) (snd kv) takesValue) flags).

(** [log(flags, revisionRange)]; [git] is the subprocess call
    [this({ args })]. *)
Definition log (git : list jsstring -> completion jsstring Error)
           (flags : object (option jsstring)) (revisionRange : option jsstring)
  : completion (list Commit) Error :=
  let ranges :=
    match revisionRange with
    | Some r => if truthy_string r
                then filter truthy_string (split (str " ") r) else []
    | None => []
    end in
  let args := parseFlags flags true ++ ranges
              ++ [str "--pretty=format:" ++ commitFormat] in
  match git (str "log" :: args) with
  | Throw e => Throw e
  | Normal output => parseLogOutput output
  end.
End Host.

End Git.

(** ** tools/logger.ts: configuration and values shared by both revisions *)
Module LoggerConfig.
Import JS.

Module SeverityName.
Inductive t : Type := Silent | Debug | Informational | Warning | Error.

Definition text (s : t) : jsstring :=
  match s with
  | Silent => str "SILENT"
  | Debug => str "DEBUG"
  | Informational => str "INFORMATIONAL"
  | Warning => str "WARNING"
  | Error => str "ERROR"
  end.
End SeverityName.

(** [SeverityLevel[name]] *)
Definition SeverityLevel (s : SeverityName.t) : N :=
  match s with
  | SeverityName.Silent => 0
  | SeverityName.Debug => 1
  | SeverityName.Informational => 2
  | SeverityName.Warning => 3
  | SeverityName.Error => 4
  end%N.

(** [SeverityNameByLevel[level]]; [None] is [undefined]. *)
Definition SeverityNameByLevel (level : N) : option SeverityName.t :=
  match level with
  | 0 => Some SeverityName.Silent
  | 1 => Some SeverityName.Debug
  | 2 => Some SeverityName.Informational
  | 3 => Some SeverityName.Warning
  | 4 => Some SeverityName.Error
  | _ => None
  end%N.

Module LevelName.
Inductive t : Type := Error | Warn | Info | Http | Debug.

Definition text (l : t) : jsstring :=
  match l with
  | Error => str "ERROR"
  | Warn => str "WARN"
  | Info => str "INFO"
  | Http => str "HTTP"
  | Debug => str "DEBUG"
  end.
End LevelName.

Inductive Mode : Type := Pretty | Json.

Record InspectOptions : Type := mkInspectOptions { colors : bool }.

(** [LoggerConfig.Settings], the output of the settings schema.  The
    [transports] are functions called for their effect; a call is
    recorded under the severity name that selects the transport. *)
Record Settings : Type := mkSettings {
  severity : SeverityName.t;
  application : jsstring;
  environment : jsstring;
  module_ : option jsstring;
  id : option jsstring;
  version : option jsstring;
  padding : Z;
  mode : Mode;
  prettyTemplate : jsstring;
  prettyErrorTemplate : jsstring;
  prettyHttpTemplate : jsstring;
  inspectOptions : InspectOptions
}.

(** One call [transport(formatted)] of [settings.transports[name]]. *)
Definition TransportCall : Type := (SeverityName.t * jsstring)%type.

Inductive Exception : Type :=
| TypeError     (* a property of [undefined] is read, or it is called *)
| RangeError    (* [repeat] with a negative count or an overlong result *)
| HostError.    (* raised by a library the logger calls *)

(** [ExpandedCallSite] (tools/callsites.ts), without the [this] and
    [function] references. *)
Record ExpandedCallSite : Type := mkCallSite {
  typeName : option jsstring;
  functionName : option jsstring;
  methodName : option jsstring;
  fileName : option jsstring;
  lineNumber : option float;
  columnNumber : option float;
  evalOrigin : option jsstring;
  isToplevel : bool;
  isEval : bool;
  isNative : bool;
  isConstructor : bool
}.

(** [LogObject.Error], with what [instanceof Error] answers.  The
    engine records the call sites of an error at its construction and
    formats them the first time [error.stack] is read, keeping the
    result: [stack] is the text a plain read gives, [stack_formatted]
    tells whether such a read took place before the logger receives
    the error, and [recorded_callsites] are the call sites. *)
Record ErrorLike : Type := mkErrorLike {
  instanceof_Error : bool;
  code : option jsstring;
  error_id : option jsstring;
  error_message : option jsstring;
  name : option jsstring;
  stack : option jsstring;
  stack_formatted : bool;
  title : option jsstring;
  recorded_callsites : list ExpandedCallSite
}.

(** A value of type [unknown] passed to a log call. *)
Inductive unknown : Type :=
| U_undefined
| U_null
| U_boolean (b : bool)
| U_number (n : float)
| U_string (s : jsstring)
| U_object (e : ErrorLike).

Definition truthy_number (n : float) : bool := negb (is_zero n || is_nan n).

Definition truthy (u : unknown) : bool :=
  match u with
  | U_undefined | U_null => false
  | U_boolean b => b
  | U_number n => truthy_number n
  | U_string s => truthy_string s
  | U_object _ => true
  end.

Definition no_properties : ErrorLike :=
  mkErrorLike false None None None None None false None [].

(** [error as LogObject.Error]: the properties read off any value. *)
Definition as_Error (u : unknown) : ErrorLike :=
  match u with
  | U_object e => e
  | _ => no_properties
  end.

(** [error instanceof Error] *)
Definition is_Error (u : unknown) : bool :=
  match u with
  | U_object e => instanceof_Error e
  | _ => false
  end.

(** [LogObject.Request] *)
Record Request : Type := mkRequest {
  httpVersion : option jsstring;
  request_id : option jsstring;
  method : option jsstring;
  request_get : jsstring -> option jsstring;
  originalUrl : option jsstring
}.

(** [LogObject.Response] *)
Record Response : Type := mkResponse {
  duration : option float;
  response_get : jsstring -> option jsstring;
  statusCode : option float
}.

(** [LogOptions] *)
Record LogOptions : Type := mkLogOptions {
  opt_message : jsstring;
  opt_args : option (list unknown);
  opt_error : unknown;
  opt_request : option Request;
  opt_response : option Response
}.

(** What the process provides when a record is built. *)
Record Host : Type := mkHost {
  now : jsstring;                       (* the formatted [new Date()] *)
  Deno_args : list jsstring;
  Deno_cwd : jsstring;
  (** the stack of the [new Error()] a default parameter creates: as
      call sites in [callsites]; as text in [getLastFileStack] and in
      the two calls [getStackTrace()] of the earlier [setErrorFields],
      the one for [error.message] and the one for [error.stack_trace],
      each with frames of its own *)
  new_Error_callsites : list ExpandedCallSite;
  new_Error_stack : jsstring;
  new_Error_stack_message : jsstring;
  new_Error_stack_trace : jsstring;
  StringToNumber : jsstring -> float    (* [Number(s)] on a string *)
}.

(** What [error.stack] yields, and the field [error.stack_trace]
    holds: call sites or a text. *)
Inductive StackTrace : Type :=
| Sites (cs : list ExpandedCallSite)
| Text (s : jsstring).

(** The fields of a [LogObject], grouped by the setter that writes
    them; the field ["a.b.c"] of the class is the field [a_b_c] here. *)
Record BaseFields : Type := mkBase {
  message : jsstring;
  data : option (list unknown);
  labels : option (object jsstring);
  tags : option (list jsstring)
}.

Record LogFields : Type := mkLog {
  log_level : option LevelName.t;       (* [None]: the initial empty string *)
  log_logger : jsstring;
  log_origin_file_column : option float;
  log_origin_file_line : option float;
  log_origin_file_name : jsstring;
  log_origin_file_path : jsstring
}.

Record ErrorFields : Type := mkError {
  error_code : option jsstring;
  error_id_ : option jsstring;
  error_message_ : option jsstring;
  error_stack_trace : option StackTrace;
  error_type : option jsstring
}.

Record ServiceFields : Type := mkService {
  service_name : option jsstring;
  service_version : option jsstring;
  service_environment : option jsstring;
  service_id : option jsstring
}.

Record HttpFields : Type := mkHttp {
  event_duration : option float;
  http_version : option jsstring;
  http_request_id : option jsstring;
  http_request_method : option jsstring;
  http_request_mime_type : option jsstring;
  http_request_referrer : option jsstring;
  http_request_url_original : option jsstring;
  http_response_mime_type : option jsstring;
  http_response_status_code : option float
}.

Record LogObject : Type := mkLogObject {
  priv_error : unknown;                 (* [#error] *)
  priv_request : option Request;        (* [#request] *)
  priv_response : option Response;      (* [#response] *)
  timestamp : jsstring;                 (* ["@timestamp"] *)
  base_fields : BaseFields;
  log_fields : LogFields;
  error_fields : ErrorFields;
  service_fields : ServiceFields;
  process_args : list jsstring;
  http_fields : HttpFields
}.

(** The field initialisers of the class. *)
Definition initial (h : Host) : LogObject :=
  mkLogObject U_undefined None None (now h)
    (mkBase [] None None None)
    (mkLog None (str "unknown") (Some zero) (Some zero) [] [])
    (mkError None None None None None)
    (mkService None None None None)
    (Deno_args h)
    (mkHttp None None None None None None None None None).

(** The setters both revisions share. *)
Definition setBaseFields (msg : jsstring) (d : option (list unknown))
           (l : option (object jsstring)) (t : option (list jsstring))
           (o : LogObject) : LogObject :=
  mkLogObject (priv_error o) (priv_request o) (priv_response o) (timestamp o)
    (mkBase msg d l t) (log_fields o) (error_fields o) (service_fields o) (process_args o) (http_fields o).

Definition setRequestFields (request : Request) (o : LogObject) : LogObject :=
  let h := http_fields o in
  mkLogObject (priv_error o) (priv_request o) (priv_response o) (timestamp o)
    (base_fields o) (log_fields o) (error_fields o) (service_fields o) (process_args o)
    (mkHttp (event_duration h)
            (httpVersion request)
            (request_id request)
            (method request)
            (request_get request (str "content-type"))
            (request_get request (str "referrer"))
            (originalUrl request)
            (http_response_mime_type h)
            (http_response_status_code h)).

(** [0.1] *)
Definition one_tenth : float := 0x1.999999999999ap-4%float.

Definition setResponseFields (response : Response) (o : LogObject) : LogObject :=
  let h := http_fields o in
  mkLogObject (priv_error o) (priv_request o) (priv_response o) (timestamp o)
    (base_fields o) (log_fields o) (error_fields o) (service_fields o) (process_args o)
    (mkHttp (Some (match duration response with
                   | Some d => if truthy_number d then d else one_tenth
                   | None => one_tenth
                   end))
            (http_version h)
            (http_request_id h)
            (http_request_method h)
            (http_request_mime_type h)
            (http_request_referrer h)
            (http_request_url_original h)
            (response_get response (str "content-type"))
            (statusCode response)).

Definition setServiceFields (env : jsstring) (name version id : option jsstring)
           (o : LogObject) : LogObject :=
  mkLogObject (priv_error o) (priv_request o) (priv_response o) (timestamp o)
    (base_fields o) (log_fields o) (error_fields o)
    (mkService name version (Some env) id)
    (process_args o) (http_fields o).

(** [isSilentMode(severity)] *)
Definition isSilentMode (settings : Settings) (sev : N) : bool :=
  match severity settings with
  | SeverityName.Silent => true
  | _ => (sev <? SeverityLevel (severity settings))%N
  end.

(** The logger name computed at the head of [log]. *)
Definition loggerName (settings : Settings) : jsstring :=
  match module_ settings with
  | Some m => if truthy_string m then application settings ++ str ":" ++ m
              else application settings
  | None => application settings
  end.

End LoggerConfig.

(** ** tools/logger.ts, the current revision *)
Module Logger.
Import JS LoggerConfig.

(** [callsites(error = new Error())] of tools/callsites.ts:
    [error.stack], read while [Error.prepareStackTrace] maps the call
    sites.  An error created on the spot gives its call sites; so does
    a given error whose stack was not formatted before, and one that
    was gives the text kept since then ([None] when it has no
    [stack]). *)
Definition callsites (h : Host) (err : option ErrorLike) : option StackTrace :=
  match err with
  | Some e =>
      if stack_formatted e then option_map Text (stack e)
      else Some (Sites (recorded_callsites e))
  | None => Some (Sites (new_Error_callsites h))
  end.

(** [setErrorFields(error)] *)
Definition setErrorFields (h : Host) (err : unknown) (o : LogObject) : LogObject :=
  let e := as_Error err in
  mkLogObject (priv_error o) (priv_request o) (priv_response o) (timestamp o)
    (base_fields o) (log_fields o)
    (mkError (code e) (error_id e) (error_message e)
             (if is_Error err then callsites h (Some e)
              else error_stack_trace (error_fields o))
             (name e))
    (service_fields o) (process_args o) (http_fields o).

(** [setLogFields(level, logger)]: the origin is the last call site;
    reading a property of a missing call site or file name throws.
    The last element of a text is a code unit, which has no
    [fileName], and [undefined] has no [length]. *)
Definition setLogFields (h : Host) (level : LevelName.t) (logger : jsstring)
           (o : LogObject) : completion LogObject Exception :=
  match callsites h (if is_Error (priv_error o)
                     then Some (as_Error (priv_error o)) else None) with
  | Some (Sites cs) =>
      match List.last (map Some cs) None with
      | None => Throw TypeError
      | Some origin =>
          match fileName origin with
          | None => Throw TypeError
          | Some file =>
              Normal
                (mkLogObject (priv_error o) (priv_request o) (priv_response o)
                   (timestamp o) (base_fields o)
                   (mkLog (Some level) logger
                          (columnNumber origin) (lineNumber origin)
                          (substring (lastIndexOf (str "/") file + 1) file)
                          file)
                   (error_fields o) (service_fields o) (process_args o)
                   (http_fields o))
          end
      end
  | Some (Text _) => Throw TypeError
  | None => Throw TypeError
  end.

(** [new LogObject(error, request, response)] *)
Definition new_LogObject (h : Host) (err : unknown) (request : option Request)
           (response : option Response) : LogObject :=
  let o0 := initial h in
  let o1 := mkLogObject err request response (timestamp o0) (base_fields o0) (log_fields o0)
              (error_fields o0) (service_fields o0) (process_args o0) (http_fields o0) in
  let o2 := if truthy err then setErrorFields h err o1 else o1 in
  let o3 := match request with
            | Some r => setRequestFields r o2
            | None => o2
            end in
  match response with
  | Some r => setResponseFields r o3
  | None => o3
  end.

Section BaseLogger.
(** [format] is abstract in [BaseLogger]. *)
Variable format : LogObject -> completion jsstring Exception.
Variable h : Host.
Variable settings : Settings.

(** The record [log] builds before it looks at the severity. *)
Definition build (level : LevelName.t) (options : LogOptions)
  : completion LogObject Exception :=
  match setLogFields h level (loggerName settings)
          (setBaseFields (opt_message options) (opt_args options) None None
             (new_LogObject h (opt_error options) (opt_request options)
                (opt_response options))) with
  | Throw e => Throw e
  | Normal o =>
      Normal (setServiceFields (environment settings)
                (Some (application settings)) (version settings)
                (id settings) o)
  end.

(** [log(severity, level, options)]: the record returned and the
    transport calls made. *)
Definition log (sev : N) (level : LevelName.t) (options : LogOptions)
  : completion (LogObject * list TransportCall) Exception :=
  match build level options with
  | Throw e => Throw e
  | Normal logObject =>
      if isSilentMode settings sev then Normal (logObject, [])
      else
        match format logObject with
        | Throw e => Throw e
        | Normal formatted =>
            match SeverityNameByLevel sev with
            | None => Throw TypeError
            | Some transport => Normal (logObject, [(transport, formatted)])
            end
        end
  end.

Definition debug (msg : jsstring) (args : list unknown) :=
  log (SeverityLevel SeverityName.Debug) LevelName.Debug
      (mkLogOptions msg (Some args) U_undefined None None).

Definition info (msg : jsstring) (args : list unknown) :=
  log (SeverityLevel SeverityName.Informational) LevelName.Info
      (mkLogOptions msg (Some args) U_undefined None None).

Definition http (request : Request) (response : Response) :=
  log (SeverityLevel SeverityName.Informational) LevelName.Http
      (mkLogOptions [] None U_undefined (Some request) (Some response)).

Definition warn (msg : jsstring) (args : list unknown) :=
  log (SeverityLevel SeverityName.Warning) LevelName.Warn
      (mkLogOptions msg (Some args) U_undefined None None).

Definition error (msg : jsstring) (args : list unknown) :=
  log (SeverityLevel SeverityName.Error) LevelName.Error
      (mkLogOptions msg (Some args) (hd U_undefined args) None None).
End BaseLogger.

End Logger.

(** ** The earlier revision of the logger (src/unnamed/part_003) *)
Module LoggerEarlier.
Import JS LoggerConfig.

(** [isFileLine(line)] *)
Definition isFileLine (line : jsstring) : bool :=
  includes (str "file://") line && negb (includes (str "node_modules/") line).

(** [formatStackLine(line)] *)
Definition formatStackLine (h : Host) (line : jsstring) : jsstring :=
  let cwd := Deno_cwd h ++ str "/" in
  let endIndex := indexOf cwd line in
  replaceAll (str ")") [] (replace cwd [] (substring endIndex line)).

(** [formatStackTrace(stack)] *)
Definition formatStackTrace (h : Host) (stack : jsstring) : list jsstring :=
  map (formatStackLine h) (map trim (filter isFileLine (split newline stack))).

(** The argument of a function declared with [error = new Error()]:
    a given error, or the error the default creates at that call,
    kept as the text of its stack. *)
Inductive ErrorArgument : Type :=
| Given (e : ErrorLike)
| Default (fresh : jsstring).

(** [error.stack as string]; [None] when the given error has no
    [stack]. *)
Definition stack_of (error : ErrorArgument) : option jsstring :=
  match error with
  | Given e => stack e
  | Default fresh => Some fresh
  end.

(** [getStackTrace(error = new Error())] *)
Definition getStackTrace (h : Host) (error : ErrorArgument)
  : completion (list jsstring) Exception :=
  match stack_of error with
  | None => Throw TypeError
  | Some stack => Normal (formatStackTrace h stack)
  end.

Record StackDetails : Type := mkStackDetails {
  column : float;
  line : float;
  filename : jsstring;
  path : jsstring
}.

(** [Number(parts[i])]: a missing part is [undefined]. *)
Definition Number_of_part (h : Host) (part : option jsstring) : float :=
  match part with
  | Some s => StringToNumber h s
  | None => nan
  end.

(** [getStackDetails(stack)] *)
Definition getStackDetails (h : Host) (stack : jsstring) : StackDetails :=
  let parts := split (str ":") stack in
  let part0 := nth 0 parts [] in
  let fileParts := split (str "/") part0 in
  mkStackDetails (Number_of_part h (nth_error parts 2))
                 (Number_of_part h (nth_error parts 1))
                 (List.last fileParts [])
                 part0.

(** [getLastFileStack(error = new Error())] *)
Definition getLastFileStack (h : Host) (error : ErrorArgument)
  : completion StackDetails Exception :=
  match stack_of error with
  | None => Throw TypeError
  | Some stack =>
      let files := filter isFileLine (split newline stack) in
      match List.last (map Some files) None with
      | None => Throw TypeError
      | Some file => Normal (getStackDetails h (formatStackLine h (trim file)))
      end
  end.

(** [setErrorFields(error)] *)
Definition setErrorFields (h : Host) (err : unknown) (o : LogObject)
  : completion LogObject Exception :=
  let e := as_Error err in
  let f := error_fields o in
  if is_Error err then
    match getStackTrace h (Given e) with
    | Throw x => Throw x
    | Normal trace =>
        Normal
          (mkLogObject (priv_error o) (priv_request o) (priv_response o)
             (timestamp o) (base_fields o) (log_fields o)
             (mkError (error_code f) (name e) (error_message e)
                      (Some (Text (join (str ", ") trace))) (error_type f))
             (service_fields o) (process_args o) (http_fields o))
    end
  else
    match getStackTrace h (Default (new_Error_stack_message h)) with
    | Throw x => Throw x
    | Normal lines =>
        match getStackTrace h (Default (new_Error_stack_trace h)) with
        | Throw x => Throw x
        | Normal trace =>
            Normal
              (mkLogObject (priv_error o) (priv_request o) (priv_response o)
                 (timestamp o) (base_fields o) (log_fields o)
                 (mkError (code e) (error_id e)
                          (Some (join newline lines))
                          (Some (Text (join (str ", ") trace))) (error_type f))
                 (service_fields o) (process_args o) (http_fields o))
        end
    end.

(** [setLogFields(level, logger)] *)
Definition setLogFields (h : Host) (level : LevelName.t) (logger : jsstring)
           (o : LogObject) : completion LogObject Exception :=
  match getLastFileStack h (if is_Error (priv_error o)
                            then Given (as_Error (priv_error o))
                            else Default (new_Error_stack h)) with
  | Throw x => Throw x
  | Normal origin =>
      Normal
        (mkLogObject (priv_error o) (priv_request o) (priv_response o)
           (timestamp o) (base_fields o)
           (mkLog (Some level) logger (Some (column origin)) (Some (line origin))
                  (filename origin) (path origin))
           (error_fields o) (service_fields o) (process_args o) (http_fields o))
  end.

(** [new LogObject(error, request, response)] *)
Definition new_LogObject (h : Host) (err : unknown) (request : option Request)
           (response : option Response) : completion LogObject Exception :=
  let o0 := initial h in
  let o1 := mkLogObject err request response (timestamp o0) (base_fields o0)
              (log_fields o0) (error_fields o0) (service_fields o0)
              (process_args o0) (http_fields o0) in
  match (if truthy err then setErrorFields h err o1 else Normal o1) with
  | Throw x => Throw x
  | Normal o2 =>
      let o3 := match request with
                | Some r => setRequestFields r o2
                | None => o2
                end in
      Normal (match response with
              | Some r => setResponseFields r o3
              | None => o3
              end)
  end.

Section BaseLogger.
Variable format : LogObject -> completion jsstring Exception.
Variable h : Host.
Variable settings : Settings.

(** [log(severity, level, options)]: a suppressed call returns
    [new LogObject()] at once. *)
Definition log (sev : N) (level : LevelName.t) (options : LogOptions)
  : completion (LogObject * list TransportCall) Exception :=
  if isSilentMode settings sev then Normal (initial h, [])
  else
  match new_LogObject h (opt_error options) (opt_request options)
            (opt_response options) with
  | Throw x => Throw x
  | Normal o =>
        match setLogFields h level (loggerName settings)
                (setBaseFields (opt_message options) (opt_args options)
                   None None o) with
        | Throw x => Throw x
        | Normal o' =>
            let logObject :=
              setServiceFields (environment settings)
                (Some (application settings)) (version settings)
                (id settings) o' in
            match format logObject with
            | Throw x => Throw x
            | Normal formatted =>
                match SeverityNameByLevel sev with
                | None => Throw TypeError
                | Some transport => Normal (logObject, [(transport, formatted)])
                end
            end
        end
  end.

Definition debug (msg : jsstring) (args : list unknown) :=
  log (SeverityLevel SeverityName.Debug) LevelName.Debug
      (mkLogOptions msg (Some args) U_undefined None None).

Definition info (msg : jsstring) (args : list unknown) :=
  log (SeverityLevel SeverityName.Informational) LevelName.Info
      (mkLogOptions msg (Some args) U_undefined None None).

Definition http (request : Request) (response : Response) :=
  log (SeverityLevel SeverityName.Informational) LevelName.Http
      (mkLogOptions [] None U_undefined (Some request) (Some response)).

Definition warn (msg : jsstring) (args : list unknown) :=
  log (SeverityLevel SeverityName.Warning) LevelName.Warn
      (mkLogOptions msg (Some args) U_undefined None None).

Definition error (msg : jsstring) (args : list unknown) :=
  log (SeverityLevel SeverityName.Error) LevelName.Error
      (mkLogOptions msg (Some args) (hd U_undefined args) None None).
End BaseLogger.

End LoggerEarlier.

(** ** tools/logger.ts: the two formats *)
Module PrettyLogger.
Import JS LoggerConfig.

(** What reading a property of a record, [log[key]], yields.  An array,
    object or function is always truthy; it is kept as the string it
    converts to. *)
Inductive property : Type :=
| PUndefined
| PNull
| PString (s : jsstring)
| PNumber (n : float)
| PObject (image : jsstring).

(** The truth value [substitution ? ... : ...] tests. *)
Definition truthy_property (p : property) : bool :=
  match p with
  | PUndefined | PNull => false
  | PString s => truthy_string s
  | PNumber n => truthy_number n
  | PObject _ => true
  end.

(** The keys of [LoggerConfig.HttpStatusTheme]. *)
Module HttpStatus.
Inductive t : Type := Informational | Successful | Redirection | Error | Default.
End HttpStatus.

(** The engine and library functions the formats call;
    [max_string_length] is the length of the longest string the engine
    builds. *)
Record Libs : Type := mkLibs {
  max_string_length : N;
  Deno_inspect : unknown -> InspectOptions -> jsstring;
  yellow : jsstring -> jsstring;
  underline : jsstring -> jsstring;
  Theme : LevelName.t -> jsstring -> jsstring;
  HttpStatusTheme : HttpStatus.t -> jsstring -> jsstring;
  isErrorStatus : float -> bool;
  isSuccessfulStatus : float -> bool;
  isInformationalStatus : float -> bool;
  isRedirectStatus : float -> bool;
  Number_toString : float -> jsstring;
  ToString : unknown -> jsstring;
  function_source : jsstring -> jsstring;
  JSON_stringify : LogObject -> completion jsstring Exception
}.

Section Formats.
Variable libs : Libs.
Variable settings : Settings.

Definition of_string (v : option jsstring) : property :=
  match v with
  | Some s => PString s
  | None => PUndefined
  end.

(** A [number | null] field. *)
Definition of_nullable_number (v : option float) : property :=
  match v with
  | Some n => PNumber n
  | None => PNull
  end.

(** An optional number field. *)
Definition of_number (v : option float) : property :=
  match v with
  | Some n => PNumber n
  | None => PUndefined
  end.

(** [String(array)]: the elements joined by commas, [undefined] and
    [null] as empty strings. *)
Definition element_image (u : unknown) : jsstring :=
  match u with
  | U_undefined | U_null => []
  | _ => ToString libs u
  end.

Definition object_image : jsstring := str "[object Object]".

Definition of_stack_trace (v : option StackTrace) : property :=
  match v with
  | Some (Sites cs) => PObject (join (str ",") (map (fun _ => object_image) cs))
  | Some (Text s) => PString s
  | None => PUndefined
  end.

(** The own properties of a record, in the order of the class. *)
Definition own_properties (o : LogObject) : object property :=
  let b := base_fields o in
  let l := log_fields o in
  let e := error_fields o in
  let s := service_fields o in
  let h := http_fields o in
  [ (str "@timestamp", PString (timestamp o));
  (str "log.level", PString (match log_level l with
                             | Some lv => LevelName.text lv
                             | None => []
                             end));
  (str "message", PString (message b));
  (str "data", match data b with
               | Some d => PObject (join (str ",") (map element_image d))
               | None => PUndefined
               end);
  (str "labels", match labels b with
                 | Some _ => PObject object_image
                 | None => PUndefined
                 end);
  (str "tags", match tags b with
               | Some t => PObject (join (str ",") t)
               | None => PUndefined
               end);
  (str "log.logger", PString (log_logger l));
  (str "log.origin.file.column", of_nullable_number (log_origin_file_column l));
  (str "log.origin.file.line", of_nullable_number (log_origin_file_line l));
  (str "log.origin.file.name", PString (log_origin_file_name l));
  (str "log.origin.file.path", PString (log_origin_file_path l));
  (str "error.code", of_string (error_code e));
  (str "error.id", of_string (error_id_ e));
  (str "error.message", of_string (error_message_ e));
  (str "error.stack_trace", of_stack_trace (error_stack_trace e));
  (str "error.type", of_string (error_type e));
  (str "service.name", of_string (service_name s));
  (str "service.version", of_string (service_version s));
  (str "service.environment", of_string (service_environment s));
  (str "service.id", of_string (service_id s));
  (str "process.args", PObject (join (str ",") (process_args o)));
  (str "event.duration", of_number (event_duration h));
  (str "http.version", of_string (http_version h));
  (str "http.request.id", of_string (http_request_id h));
  (str "http.request.method", of_string (http_request_method h));
  (str "http.request.mime_type", of_string (http_request_mime_type h));
  (str "http.request.referrer", of_string (http_request_referrer h));
  (str "http.request.url.original", of_string (http_request_url_original h));
  (str "http.response.mime_type", of_string (http_response_mime_type h));
  (str "http.response.status_code", of_number (http_response_status_code h)) ].

(** The methods a record inherits from its class. *)
Definition LogObject_prototype_names : list jsstring :=
  map str
  [ "constructor"%string; "setBaseFields"%string; "setErrorFields"%string;
    "setLogFields"%string; "setRequestFields"%string;
    "setResponseFields"%string; "setServiceFields"%string ].

(** [substitutions[key]] on a record. *)
Definition lookup (o : LogObject) (key : jsstring) : property :=
  match get (own_properties o) key with
  | Some p => p
  | None =>
    if existsb (eqb key) (LogObject_prototype_names ++ Object_prototype_names)
    then PObject (function_source libs key)
    else PUndefined
  end.

(** The string a value becomes when [replace] inserts it. *)
Definition property_image (p : property) : jsstring :=
  match p with
  | PUndefined => str "undefined"
  | PNull => str "null"
  | PString s => s
  | PNumber n => Number_toString libs n
  | PObject image => image
  end.

(** [match.replace("{", "").replace("}", "")] *)
Definition key_of (m : jsstring) : jsstring :=
  replace (str "}") [] (replace (str "{") [] m).

(** The callback of [substitute]. *)
Definition substitution_for (substitutions : jsstring -> property) (m : jsstring)
  : jsstring :=
  let substitution := substitutions (key_of m) in
  if truthy_property substitution then property_image substitution else m.

(** [substitute(value, substitutions)], the same text in both revisions. *)
Definition substitute (value : jsstring) (substitutions : jsstring -> property)
  : jsstring :=
  replace_matches (substitution_for substitutions) value.

(** [inspect(data)] *)
Definition inspect (d : unknown) : jsstring :=
  Deno_inspect libs d (inspectOptions settings).

Definition bullet : jsstring := [32; 32; 8226; 32]%N.

(** A template literal hole holding an optional string or number. *)
Definition hole_string (v : option jsstring) : jsstring :=
  match v with
  | Some s => s
  | None => str "undefined"
  end.

Definition hole_number (v : option float) : jsstring :=
  match v with
  | Some n => Number_toString libs n
  | None => str "null"
  end.

(** [prettifyStack(cs)] of the current revision *)
Definition prettifyStack (cs : ExpandedCallSite) : jsstring :=
  let value := hole_string (fileName cs) ++ str ":" ++ hole_number (lineNumber cs)
             ++ str ":" ++ hole_number (columnNumber cs) in
  yellow libs (bullet ++ underline libs value).

(** [prettifyStack(value)] of the earlier revision *)
Definition prettifyStack_earlier (value : jsstring) : jsstring :=
  yellow libs (bullet ++ underline libs value).

(** The two replacements [applyTemplate] makes before it substitutes. *)
Definition prepare (args stack template : jsstring) : jsstring :=
  let template1 :=
  if truthy_string args
  then replaceAll (str "{data}") (newline ++ args) template else template in
  if truthy_string stack
  then replaceAll (str "{error.stack_trace}") (newline ++ stack) template1
  else template1.

Definition inspected (o : LogObject) : jsstring :=
  match data (base_fields o) with
  | Some d => join newline (map inspect d)
  | None => []
  end.

(** [applyTemplate(template, log)] of the current revision: the stack
    trace is an array of call sites; a text that is not empty has no
    [map] to call. *)
Definition applyTemplate (template : jsstring) (o : LogObject)
  : completion jsstring Exception :=
  let args := inspected o in
  match error_stack_trace (error_fields o) with
  | Some (Text s) =>
    if truthy_string s then Throw TypeError
    else Normal (substitute (prepare args [] template) (lookup o))
  | Some (Sites cs) =>
    Normal (substitute (prepare args (join newline (map prettifyStack cs)) template)
                       (lookup o))
  | None => Normal (substitute (prepare args [] template) (lookup o))
  end.

(** [applyTemplate(template, log)] of the earlier revision: the stack
    trace is a text, split at [", "]. *)
Definition applyTemplate_earlier (template : jsstring) (o : LogObject)
  : completion jsstring Exception :=
  let args := inspected o in
  match error_stack_trace (error_fields o) with
  | Some (Sites _) => Throw TypeError
  | Some (Text s) =>
    let stack :=
      if truthy_string s
      then join newline (map prettifyStack_earlier (split (str ", ") s))
      else [] in
    Normal (substitute (prepare args stack template) (lookup o))
  | None => Normal (substitute (prepare args [] template) (lookup o))
  end.

(** [getStatusColor(status)] *)
Definition getStatusColor (status : float) : jsstring -> jsstring :=
  if isErrorStatus libs status then HttpStatusTheme libs HttpStatus.Error
  else if isSuccessfulStatus libs status then HttpStatusTheme libs HttpStatus.Successful
  else if isInformationalStatus libs status
     then HttpStatusTheme libs HttpStatus.Informational
  else if isRedirectStatus libs status then HttpStatusTheme libs HttpStatus.Redirection
  else HttpStatusTheme libs HttpStatus.Default.

(** [getPrettyTemplate(level, status)]; a record whose level is still
    the empty string has no theme to call. *)
Definition getPrettyTemplate (level : option LevelName.t) (status : option float)
  : completion jsstring Exception :=
  let text := match level with Some l => LevelName.text l | None => [] end in
  match repeat (max_string_length libs) (str " ")
          (padding settings - Z.of_nat (List.length text)) with
  | None => Throw RangeError
  | Some spaces =>
    let template :=
      match level with
      | Some LevelName.Http => prettyHttpTemplate settings
      | Some LevelName.Error => prettyErrorTemplate settings
      | _ => prettyTemplate settings
      end in
    let template' :=
      match status with
      | Some st =>
          if truthy_number st
          then replaceAll (str "{http.response.status_code}")
                 (getStatusColor st (str "{http.response.status_code}")) template
          else template
      | None => template
      end in
    match level with
    | None => Throw TypeError
    | Some l =>
        Normal (replaceAll (str "{log.level}")
                  (Theme libs l (str "{log.level}" ++ spaces)) template')
    end
  end.

(** [PrettyLogger.format(logObject)] *)
Definition format (o : LogObject) : completion jsstring Exception :=
  match getPrettyTemplate (log_level (log_fields o))
        (http_response_status_code (http_fields o)) with
  | Throw x => Throw x
  | Normal template => applyTemplate template o
  end.

Definition format_earlier (o : LogObject) : completion jsstring Exception :=
  match getPrettyTemplate (log_level (log_fields o))
        (http_response_status_code (http_fields o)) with
  | Throw x => Throw x
  | Normal template => applyTemplate_earlier template o
  end.

(** [JsonLogger.format(logObject)] *)
Definition format_json (o : LogObject) : completion jsstring Exception :=
  JSON_stringify libs o.

(** The [Logger] class takes the methods of the class its mode names. *)
Definition Logger_format (o : LogObject) : completion jsstring Exception :=
  match mode settings with
  | Pretty => format o
  | Json => format_json o
  end.

Definition Logger_format_earlier (o : LogObject) : completion jsstring Exception :=
  match mode settings with
  | Pretty => format_earlier o
  | Json => format_json o
  end.
End Formats.

End PrettyLogger.

(** ** tools/try-catch.ts, tools/filesystem.ts, tools/command.ts and the
    [run] entry point in its two revisions *)
Module Command.
Import JS.

(** [keyof TypeMap] *)
Inductive TypeName : Type := TString | TNumber | TBoolean | TFile | TInteger | TVersion.

Definition TypeName_text (t : TypeName) : jsstring :=
  match t with
  | TString => str "string"
  | TNumber => str "number"
  | TBoolean => str "boolean"
  | TFile => str "file"
  | TInteger => str "integer"
  | TVersion => str "version"
  end.

(** [CommandOptions.Argument] *)
Record Argument : Type := mkArgument {
  arg_name : jsstring;
  arg_type : TypeName
}.

(** [FlagOptions]; a default value is kept as it prints. *)
Record FlagOptions : Type := mkFlagOptions {
  hidden : option bool;
  default : option jsstring;
  required : option bool;
  standalone : option bool;
  depends : option (list jsstring);
  collect : option bool
}.

(** [CommandOptions.Flag] *)
Record Flag : Type := mkFlag {
  flag_name : jsstring;
  abbreviation : option jsstring;
  flag_type : TypeName;
  flag_description : jsstring;
  options : option FlagOptions
}.

(** [CommandOptions]: the [action] is a function, named here by a tag. *)
Record CommandOptions : Type := mkCommandOptions {
  name : jsstring;
  description : jsstring;
  action : jsstring;
  arguments : option (list Argument);
  flags : option (object Flag)
}.

(** A value a module exports, as [isCommandOptions] and [toCliffy] read
    it: whether [typeof] says ["object"], whether it is [null], the
    names [in] finds on it, and its properties seen as command options.
    The view is that of an export of the type the test declares, a
    [CommandOptions]; an object of another shape that has the two
    names is outside it. *)
Inductive exported : Type :=
| NotAnObject
| Null
| Obj (names : list jsstring) (view : CommandOptions).

(** The calls made on a cliffy [Command] under construction. *)
Record Cliffy : Type := mkCliffy {
  cliffy_name : jsstring;
  cliffy_description : jsstring;
  option_calls : list (jsstring * jsstring * option FlagOptions);
  arguments_calls : list jsstring;
  action_call : jsstring
}.

(** [stringifyFlag(flag)] *)
Definition stringifyFlag (flag : Flag) : jsstring :=
  let long := str "--" ++ flag_name flag in
  let typed := long ++ str " <" ++ flag_name flag ++ str ":"
               ++ TypeName_text (flag_type flag) ++ str ">" in
  let abbreviated :=
    match abbreviation flag with
    | Some a => if truthy_string a then Some a else None
    | None => None
    end in
  match flag_type flag, abbreviated with
  | TBoolean, Some a => str "-" ++ a ++ str ", " ++ long
  | TBoolean, None => long
  | _, Some a => str "-" ++ a ++ str ", " ++ typed
  | _, None => typed
  end.

(** [isCommandOptions(value)] *)
Definition isCommandOptions (value : exported) : bool :=
  match value with
  | NotAnObject | Null => false
  | Obj names _ =>
      existsb (eqb (str "name")) names && existsb (eqb (str "description")) names
  end.

(** What reading a property of an exported value as command options
    gives; only objects pass [isCommandOptions]. *)
Definition empty_options : CommandOptions :=
  mkCommandOptions [] [] [] None None.

Definition as_options (value : exported) : CommandOptions :=
  match value with
  | Obj _ view => view
  | _ => empty_options
  end.

(** [toCliffy(options)] *)
Definition toCliffy (opts : CommandOptions) : Cliffy :=
  mkCliffy (name opts) (description opts)
    (match flags opts with
     | Some fl =>
         map (fun kv => (stringifyFlag (snd kv), flag_description (snd kv),
                         options (snd kv))) fl
     | None => []
     end)
    (match arguments opts with
     | Some args =>
         map (fun arg => str "<" ++ arg_name arg ++ str ":"
                         ++ TypeName_text (arg_type arg) ++ str ">") args
     | None => []
     end)
    (action opts).

(** [registerSubcommands(command, subcommands)]: the calls
    [command.command(subcommand.getName(), subcommand)]. *)
Definition registerSubcommands (subcommands : list Cliffy)
  : list (jsstring * Cliffy) :=
  map (fun subcommand => (cliffy_name subcommand, subcommand)) subcommands.

(** [tryCatch(fn, fallback)] *)
Definition tryCatch (A E : Type) (fn : unit -> completion A E) (fallback : A) : A :=
  match fn tt with
  | Normal v => v
  | Throw _ => fallback
  end.

(** The [WalkOptions] the toolkit sets; a pattern is kept as its source. *)
Record WalkOptions : Type := mkWalkOptions {
  includeDirs : bool;
  skip : list jsstring
}.

(** The file system, the module loader and the process. *)
Record Host : Type := mkHost {
  env_get : jsstring -> option jsstring;          (* [Deno.env.get] *)
  (** [walkSync(directory, options)] drained: the paths of the entries,
      or the error of a directory that cannot be read. *)
  walkSync : jsstring -> WalkOptions -> completion (list jsstring) unit;
  (** [toFileUrl(joinPaths(Deno.cwd(), entry.path)).href] *)
  getPath : jsstring -> jsstring;
  import_ : jsstring -> completion (list exported) unit;  (* [Object.values(await import(path))] *)
  import_meta_main : bool;
  Deno_args : list jsstring
}.

(** [getLocalPaths(directory, options = {})]:
    [walkSync(directory, { includeDirs: false, ...options })] *)
Definition getLocalPaths (h : Host) (directory : jsstring) (skip_patterns : list jsstring)
  : completion (list jsstring) unit :=
  match walkSync h directory (mkWalkOptions false skip_patterns) with
  | Throw e => Throw e
  | Normal entries => Normal (map (getPath h) entries)
  end.

(** [getAllModuleImports(path)] *)
Definition getAllModuleImports (h : Host) (path : jsstring)
  : completion (list exported) unit :=
  import_ h path.

(** How the evaluation of the entry module ends: an uncaught exception,
    or the root command with its subcommands registered and, when the
    module is the main one, [run.parse(Deno.args)] called. *)
Inductive outcome : Type :=
| Aborted
| Ready (registered : list (jsstring * Cliffy)) (parsed : option (list jsstring)).

(** [(await Promise.all(paths.map(getAllModuleImports))).flat()
      .filter(isCommandOptions).map(toCliffy)] *)
Definition discover (h : Host) (paths : list jsstring)
  : completion (list Cliffy) unit :=
  match map_throw (getAllModuleImports h) paths with
  | Throw e => Throw e
  | Normal modules =>
      Normal (map (fun v => toCliffy (as_options v))
                  (filter isCommandOptions (List.concat modules)))
  end.

Definition finish (h : Host) (subcommands : completion (list Cliffy) unit)
  : outcome :=
  match subcommands with
  | Throw _ => Aborted
  | Normal cmds =>
      Ready (registerSubcommands cmds)
            (if import_meta_main h then Some (Deno_args h) else None)
  end.

End Command.

(** The entry point that guards the directory listing
    (src/unnamed/part_000). *)
Module Run.
Import JS Command.

(** [z.string().min(1).default("./bin").catch("./bin")] on
    [TOOLKIT_BIN_DIR] *)
Definition BIN_DIR (h : Host) : jsstring :=
  match env_get h (str "TOOLKIT_BIN_DIR") with
  | Some (c :: r) => c :: r
  | _ => str "./bin"
  end.

(** [tryCatch(getLocalPaths.bind(null, env.BIN_DIR, { skip: [/^_/] }), [])] *)
Definition localPaths (h : Host) : list jsstring :=
  tryCatch (fun _ => getLocalPaths h (BIN_DIR h) [str "^_"]) [].

Definition defaultPaths : list jsstring :=
  map (fun p => str "https://cdn.jsdelivr.net/gh/toridoriv/my-dev-toolkit@main/bin/" ++ p)
      [str "init-deno.ts"].

Definition subcommands (h : Host) : completion (list Cliffy) unit :=
  discover h (localPaths h ++ defaultPaths).

Definition main (h : Host) : outcome := finish h (subcommands h).

End Run.

(** The entry point of src/bin/run.ts, which lists the directory
    unguarded. *)
Module RunEarlier.
Import JS Command.

(** [Deno.env.get("TOOLKIT_BIN_DIR") || "./bin"] *)
Definition BIN_DIR (h : Host) : jsstring :=
  match env_get h (str "TOOLKIT_BIN_DIR") with
  | Some (c :: r) => c :: r
  | _ => str "./bin"
  end.

Definition subcommands (h : Host) : completion (list Cliffy) unit :=
  match getLocalPaths h (BIN_DIR h) [] with
  | Throw e => Throw e
  | Normal paths => discover h paths
  end.

Definition main (h : Host) : outcome := finish h (subcommands h).

End RunEarlier.

(** ** Sample hosts, settings and inputs used by the examples *)
Module Samples.
Import JS LoggerConfig.

Definition site (file : string) (line col : float) : ExpandedCallSite :=
  mkCallSite None None None (Some (str file)) (Some line) (Some col) None
             true false false false.

(** [Number(s)] on the decimal numerals (exact below [2^53]) and on
    the empty string; other strings are not numbers here. *)
Definition digit (c : code_unit) : float :=
  match (c - 48)%N with
  | 0%N => 0 | 1%N => 1 | 2%N => 2 | 3%N => 3 | 4%N => 4
  | 5%N => 5 | 6%N => 6 | 7%N => 7 | 8%N => 8 | _ => 9
  end%float.

Definition numeral (s : jsstring) : float :=
  if forallb isDigit s
  then fold_left (fun acc c => (acc * 10 + digit c)%float) s 0%float
  else nan.

Definition stack_text : jsstring :=
  str "Error" ++ newline
  ++ str "    at setLogFields (file:///app/tools/logger.ts:264:16)" ++ newline
  ++ str "    at file:///app/main.ts:10:5".

Definition host : Host :=
  mkHost (str "2024-01-01 00:00:00.000") [] (str "/app")
         [ site "file:///app/tools/logger.ts" 264 16;
           site "file:///app/main.ts" 10 0 ]
         stack_text stack_text stack_text numeral.

(** A logger of application [run] that lets warnings and errors through. *)
Definition warning_settings : Settings :=
  mkSettings SeverityName.Warning (str "run") (str "production") None None
             (Some (str "0.1.0")) 6 Pretty
             (str "{@timestamp} {log.level} [{log.logger}] {log.origin.file.column} {message} {data}")
             (str "{@timestamp} {log.level} [{log.logger}] {message} {error.id}: {error.message} {error.stack_trace}")
             (str "{@timestamp} {log.level} [{log.logger}] {http.request.method} {http.response.status_code}")
             (mkInspectOptions true).

(** A pretty logger at Debug whose padding is narrower than its level
    names: [{ severity: "DEBUG", padding: 2, mode: "PRETTY", ... }]. *)
Definition narrow_settings : Settings :=
  mkSettings SeverityName.Debug (str "run") (str "production") None None None
             2 Pretty
             (str "{log.level} {message}") (str "{log.level} {message}")
             (str "{log.level} {message}") (mkInspectOptions true).


(** The same logger with its styles switched off and numbers shown as
    a fixed mark. *)
Definition plain_libs : PrettyLogger.Libs :=
  PrettyLogger.mkLibs 536870888
    (fun _ _ => str "<value>") (fun s => s) (fun s => s)
    (fun _ s => s) (fun _ s => s)
    (fun _ => false) (fun _ => false) (fun _ => false) (fun _ => false)
    (fun _ => str "<number>") (fun _ => str "<value>") (fun _ => str "<function>")
    (fun _ => Normal (str "{}")).


(** [const error = new Error("Oops!"); error.code = "1234";
    error.id = "abcd-efgh"] *)
Definition oops : ErrorLike :=
  mkErrorLike true (Some (str "1234")) (Some (str "abcd-efgh"))
              (Some (str "Oops!")) (Some (str "Error"))
              (Some (str "Error: Oops!" ++ newline
                     ++ str "    at file:///app/main.ts:3:15"))
              false None
              [site "file:///app/main.ts" 3 15].

(** The module [bin/init-deno.ts] exports one value, its default. *)
Definition init_deno : Command.exported :=
  Command.Obj [str "name"; str "description"; str "arguments"; str "action"]
    (Command.mkCommandOptions (str "init-deno") (str "Initiates a Deno project.")
       (str "action")
       (Some [Command.mkArgument (str "path") Command.TString]) None).

(** A process started where there is no scripts directory: listing
    any directory fails, the default module loads. *)
Definition no_bin_directory : Command.Host :=
  Command.mkHost (fun _ => None) (fun _ _ => Throw tt) (fun p => p)
                 (fun _ => Normal [init_deno]) true [str "--help"].

(** The output of [git log --date=unix] for two commits, and an engine
    that knows the two JSON texts in it. *)
Definition commit_json (h i t : string) : jsstring :=
  lbrace :: Git.quoted "hash" ++ str ":" ++ Git.quoted h ++ str ","
  ++ Git.quoted "id" ++ str ":" ++ Git.quoted i ++ str ","
  ++ Git.quoted "timestamp" ++ str ":" ++ Git.quoted t ++ str ","
  ++ Git.quoted "author" ++ str ":{" ++ Git.quoted "name" ++ str ":"
  ++ Git.quoted "Ada" ++ str "," ++ Git.quoted "email" ++ str ":"
  ++ Git.quoted "ada@example.org" ++ str "},"
  ++ Git.quoted "subject" ++ str ":" ++ Git.quoted "Fix parser" ++ str ","
  ++ Git.quoted "ref" ++ str ":" ++ [dquote; dquote] ++ str "}".

Definition commit_value (h i t : string) : Git.json :=
  Git.JObject
    [ (str "hash", Git.JString (str h)); (str "id", Git.JString (str i));
      (str "timestamp", Git.JString (str t));
      (str "author", Git.JObject [ (str "name", Git.JString (str "Ada"));
                                   (str "email", Git.JString (str "ada@example.org")) ]);
      (str "subject", Git.JString (str "Fix parser"));
      (str "ref", Git.JString []) ].

Definition two_commits : jsstring :=
  commit_json "1f3a" "1f" "1699000000" ++ newline
  ++ commit_json "9c2e" "9c" "1698990000".

Definition JSON_parse (text : jsstring) : completion Git.json Git.Error :=
  if eqb (trim text) (commit_json "1f3a" "1f" "1699000000")
  then Normal (commit_value "1f3a" "1f" "1699000000")
  else if eqb (trim text) (commit_json "9c2e" "9c" "1698990000")
  then Normal (commit_value "9c2e" "9c" "1698990000")
  else Throw Git.SyntaxError.

(** [Date.parse] on the one date text of the examples, midnight UTC
    of that day. *)
Definition Date_parse (s : jsstring) : float :=
  if eqb s (str "2023-11-03") then 1698969600000%float else nan.

End Samples.

(** ** tools/git.ts: the [Git] class, its constructor and its commands *)
Module GitCommands.
Import JS Git.

(** [options.cwd]: a [URL], kept by its [href], or a string. *)
Inductive Cwd : Type :=
| CwdURL (href : jsstring)
| CwdString (s : jsstring).

(** [const parameters = new Template("...options, ...{defaults}")] *)
Definition parameters : Template.t :=
  Template.new (str "...options, ...{defaults}") None.

Section Host.
(** [GitDefaultOptions] is the host's option record; the class reads
    its [cwd] and prints it with [JSON.stringify]. *)
Variable Options : Type.
Variable cwd_of : Options -> option Cwd.           (* [options.cwd] *)
Variable JSON_stringify : Options -> jsstring.
Variable Deno_cwd : jsstring.                      (* [Deno.cwd()] *)
(** [new Function("options", body)({ args })]: the call of the function
    the constructor builds from its body text. *)
Variable Function_call : jsstring -> list jsstring -> completion jsstring Error.
Variable toLowerCase : jsstring -> jsstring.

(** A [Git] instance: the function body it was built from, and [cwd]. *)
Record t : Type := mkGit {
  options : Options;
  body : jsstring;
  cwd : jsstring
}.

(** [new Git(options)] *)
Definition new (opts : Options) : completion t Template.Error :=
  match Template.render parameters
          (literal [(str "defaults", JSON_stringify opts)]) with
  | Throw e => Throw e
  | Normal params =>
      Normal
        (mkGit opts
           (str "return executeCommand('git', { " ++ params ++ str " });")
           (match cwd_of opts with
            | Some (CwdURL href) => href
            | Some (CwdString s) => if truthy_string s then s else Deno_cwd
            | None => Deno_cwd
            end))
  end.

(** [this({ args })] *)
Definition call (g : t) (args : list jsstring) : completion jsstring Error :=
  Function_call (body g) args.

(** [add(...paths)] *)
Definition add (g : t) (paths : list jsstring) : completion jsstring Error :=
  call g ([str "add"] ++ paths).

(** [commit(message, flags = {})] *)
Definition commit (g : t) (message : jsstring) (flags : object (option jsstring))
  : completion jsstring Error :=
  let args := filter truthy_string (parseFlags toLowerCase flags true) in
  call g ([str "commit"; str "-m"; message] ++ args).

(** [Boolean(v)] on a string or [undefined] *)
Definition truthy_optional (v : option jsstring) : bool :=
  match v with
  | Some s => truthy_string s
  | None => false
  end.

(** The strings of an array of strings and [undefined]s. *)
Fixpoint defined (l : list (option jsstring)) : list jsstring :=
  match l with
  | [] => []
  | Some s :: r => s :: defined r
  | None :: r => defined r
  end.

(** [config(name, value)] *)
Definition config (g : t) (name : jsstring) (v : option jsstring)
  : completion jsstring Error :=
  call g (defined (filter truthy_optional [Some (str "config"); Some name; v])).

(** [init(flags = {})] *)
Definition init (g : t) (flags : object (option jsstring))
  : completion jsstring Error :=
  call g (str "init" :: parseFlags toLowerCase flags false).
End Host.

End GitCommands.

(** ** The emoji module (src/unnamed/part_004, second part) *)
Module Emoji.
Import JS.

(** The class [\w]: letters, digits and the underscore. *)
Definition isWord (c : code_unit) : bool :=
  isDigit c || Git.isUpper c || Git.isLower c || (c =? 95)%N.

Definition colon : code_unit := 58%N.

(** The greedy [\w+]: the longest run of word characters. *)
Fixpoint word_run (s : jsstring) : jsstring :=
  match s with
  | c :: r => if isWord c then c :: word_run r else []
  | [] => []
  end.

(** A match of [/:\w+:/] anchored at the head of [s]: the matched text.
    No word character is a colon, so the run cannot be shortened to
    find one. *)
Definition match_code (s : jsstring) : option jsstring :=
  match s with
  | c :: r =>
      if (c =? colon)%N
      then match word_run r with
           | [] => None
           | run =>
               match skipn (List.length run) r with
               | d :: _ => if (d =? colon)%N then Some (c :: run ++ [d]) else None
               | [] => None
               end
           end
      else None
  | [] => None
  end.

(** [text.match(EMOJI_CODE_REGEX_GLOBAL) || []] *)
Fixpoint match_codes_from (skip : nat) (s : jsstring) : list jsstring :=
  match s with
  | [] => []
  | c :: r =>
      match skip with
      | S k => match_codes_from k r
      | O =>
          match match_code s with
          | Some m => m :: match_codes_from (List.length m - 1) r
          | None => match_codes_from 0 r
          end
      end
  end.

Definition match_codes (text : jsstring) : list jsstring := match_codes_from 0 text.

(** [isEmojiCode(text)]: [/^:\w+:$/.test(text)] *)
Definition isEmojiCode (text : jsstring) : bool :=
  match match_code text with
  | Some m => Nat.eqb (List.length m) (List.length text)
  | None => false
  end.

(** [String.prototype.substring] with two arguments: both are clamped
    to the string and exchanged when the first is the larger. *)
Definition substring2 (start finish : Z) (s : jsstring) : jsstring :=
  let len := Z.of_nat (List.length s) in
  let a := Z.min (Z.max 0 start) len in
  let b := Z.min (Z.max 0 finish) len in
  firstn (Z.to_nat (Z.max a b - Z.min a b)) (skipn (Z.to_nat (Z.min a b)) s).

(** [String.prototype.codePointAt] at the head of [s]: a surrogate pair
    is read as one code point, anything else as the code unit. *)
Definition isLeadSurrogate (c : code_unit) : bool := (55296 <=? c)%N && (c <=? 56319)%N.
Definition isTrailSurrogate (c : code_unit) : bool := (56320 <=? c)%N && (c <=? 57343)%N.

Definition codePointAt (s : jsstring) : option N :=
  match s with
  | [] => None
  | first :: r =>
      if isLeadSurrogate first
      then match r with
           | second :: _ =>
               if isTrailSurrogate second
               then Some ((first - 55296) * 1024 + (second - 56320) + 65536)%N
               else Some first
           | [] => Some first
           end
      else Some first
  end.

(** [Boolean(n)] on a code point *)
Definition truthy_code (n : N) : bool := negb (n =? 0)%N.

(** The loop of [getEmojiUnicode]: [skip] is 1 after the [i++] of the
    surrogate branch. *)
Fixpoint codePoints_from (skip : nat) (s : jsstring) : list N :=
  match s with
  | [] => []
  | _ :: r =>
      match skip with
      | S k => codePoints_from k r
      | O =>
          match codePointAt s with
          | None => 0%N :: codePoints_from 0 r      (* [undefined || 0] *)
          | Some currentCode =>
              if truthy_code currentCode && (55296 <=? currentCode)%N
                 && (currentCode <=? 57343)%N
              then
                match codePointAt r with
                | Some nextCode =>
                    if truthy_code nextCode && (56320 <=? nextCode)%N
                       && (nextCode <=? 57343)%N
                    then ((currentCode - 55296) * 1024 + (nextCode - 56320) + 65536)%N
                         :: codePoints_from 1 r
                    else codePoints_from 0 r
                | None => codePoints_from 0 r
                end
              else (if truthy_code currentCode then currentCode else 0%N)
                   :: codePoints_from 0 r
          end
      end
  end.

(** [code.toString(16)] *)
Definition hex_digit (d : N) : code_unit :=
  if (d <? 10)%N then (48 + d)%N else (87 + d)%N.

Fixpoint hex_from (fuel : nat) (n : N) (acc : jsstring) : jsstring :=
  match fuel with
  | O => acc
  | S f =>
      let acc' := hex_digit (n mod 16) :: acc in
      if (n / 16 =? 0)%N then acc' else hex_from f (n / 16) acc'
  end.

Definition toString16 (n : N) : jsstring := hex_from (S (N.to_nat (N.size n))) n [].

(** [getEmojiUnicode(emoji)] *)
Definition getEmojiUnicode (emoji : jsstring) : jsstring :=
  if Nat.ltb 1 (List.length (split (str " ") emoji)) then emoji
  else join (str "-") (map toString16 (codePoints_from 0 emoji)).

(** An entry of the [githubEmojis] table. *)
Record EmojiEntry : Type := mkEmojiEntry {
  unicode : jsstring;
  code : jsstring
}.

Section Host.
Variable githubEmojis : list EmojiEntry.
(** [get] of the github-emojis library; [None] is [undefined]. *)
Variable getEmoji : jsstring -> option jsstring.
(** [text.match(EMOJI_CHAR_REGEX_GLOBAL) || []], the expression of the
    emoji-regex library. *)
Variable match_emojis : jsstring -> list jsstring.

(** [findEmojiMetadata(unicode, value)] *)
Definition findEmojiMetadata (u : jsstring) (value : EmojiEntry) : bool :=
  eqb (unicode value) u.

(** [getEmojiMetadata(emoji)] *)
Definition getEmojiMetadata (emoji : jsstring) : option EmojiEntry :=
  let u := getEmojiUnicode emoji in
  match find (findEmojiMetadata u) githubEmojis with
  | Some metadata => Some metadata
  | None =>
      let baseUnicode := nth 0 (split (str "-") u) [] in
      find (findEmojiMetadata baseUnicode) githubEmojis
  end.

(** [isEmojiChar(text)] *)
Definition isEmojiChar (text : jsstring) : bool :=
  if eqb (getEmojiUnicode text) text then false
  else match getEmojiMetadata text with
       | None => false
       | Some _ => true
       end.

(** [emojiCharToCode(text)] *)
Definition emojiCharToCode (text : jsstring) : jsstring :=
  fold_left
    (fun convertedText emoji =>
       match getEmojiMetadata emoji with
       | Some metadata => replaceAll emoji (code metadata) convertedText
       | None => convertedText
       end)
    (match_emojis text) text.

(** [String(v)] on a string or [undefined] *)
Definition ToString (v : option jsstring) : jsstring :=
  match v with
  | Some s => s
  | None => str "undefined"
  end.

(** [emojiCodeToChar(text)] *)
Definition emojiCodeToChar (text : jsstring) : jsstring :=
  fold_left
    (fun convertedText c =>
       let name := substring2 1 (Z.of_nat (List.length c) - 1) c in
       replaceAll c (ToString (getEmoji name)) convertedText)
    (match_codes text) text.
End Host.

End Emoji.

(** ** The versioning module (src/unnamed/part_005, first part) *)
Module Versioning.
Import JS.

(** The release types [increment] is called with. *)
Inductive Release : Type :=
| patch | prepatch | minor | preminor | major | premajor.

(** The methods named by [NEXT_VERSION_METHOD_BY_RELEASE_TYPE]. *)
Inductive Method : Type := getNextPatch_ | getNextMinor_ | getNextMajor_.

Definition Method_text (m : Method) : jsstring :=
  match m with
  | getNextPatch_ => str "getNextPatch"
  | getNextMinor_ => str "getNextMinor"
  | getNextMajor_ => str "getNextMajor"
  end.

(** The own properties of [NEXT_VERSION_METHOD_BY_RELEASE_TYPE]. *)
Definition NEXT_VERSION_METHOD_BY_RELEASE_TYPE : object Method :=
  literal [ (str "patch", getNextPatch_); (str "minor", getNextMinor_);
            (str "major", getNextMajor_) ].

Definition VALID_RELEASE_TYPE : list jsstring :=
  [str "major"; str "minor"; str "patch"].

(** [isValidReleaseType(value)] *)
Definition isValidReleaseType (v : jsstring) : bool :=
  existsb (eqb v) VALID_RELEASE_TYPE.

Inductive Exception : Type :=
| TypeError     (* a value that is not a function is called *)
| SemVerError.  (* thrown by the semver library *)

Section Host.
(** The semver library of the standard modules. *)
Variable SemVer : Type.
Variable parse : jsstring -> completion SemVer Exception.
Variable format : SemVer -> jsstring.
Variable increment : SemVer -> Release -> option jsstring -> completion SemVer Exception.

Record VersionObject : Type := mkVersionObject {
  version : jsstring;
  tag : jsstring;
  semver : SemVer
}.

(** [new VersionObject(rawVersion)] for a string *)
Definition of_string (rawVersion : jsstring) : completion VersionObject Exception :=
  match parse rawVersion with
  | Throw e => Throw e
  | Normal sv => Normal (mkVersionObject rawVersion (str "v" ++ rawVersion) sv)
  end.

(** [new VersionObject(rawVersion)] for a [SemVer] *)
Definition of_semver (rawVersion : SemVer) : VersionObject :=
  mkVersionObject (format rawVersion) (str "v" ++ format rawVersion) rawVersion.

(** [prelease ? a : b] *)
Definition given (prelease : option jsstring) : bool :=
  match prelease with
  | Some s => truthy_string s
  | None => false
  end.

Definition next (v : VersionObject) (release : Release) (prelease : option jsstring)
  : completion VersionObject Exception :=
  match increment (semver v) release prelease with
  | Throw e => Throw e
  | Normal sv => Normal (of_semver sv)
  end.

(** [getNextPatch(prelease)] *)
Definition getNextPatch (v : VersionObject) (prelease : option jsstring) :=
  next v (if given prelease then prepatch else patch) prelease.

(** [getNextMinor(prelease)] *)
Definition getNextMinor (v : VersionObject) (prelease : option jsstring) :=
  next v (if given prelease then preminor else minor) prelease.

(** [getNextMajor(prelease)] *)
Definition getNextMajor (v : VersionObject) (prelease : option jsstring) :=
  next v (if given prelease then premajor else major) prelease.

(** [VersionObject.getMethodNameByReleaseType(type)] on the own
    properties of the table.  For any other string the lookup gives
    [undefined] or a member of [Object.prototype], and neither names a
    method of the class. *)
Definition getMethodNameByReleaseType (type : jsstring) : option Method :=
  get NEXT_VERSION_METHOD_BY_RELEASE_TYPE type.

(** [this[name](prelease)] *)
Definition call_method (v : VersionObject) (m : Method) (prelease : option jsstring)
  : completion VersionObject Exception :=
  match m with
  | getNextPatch_ => getNextPatch v prelease
  | getNextMinor_ => getNextMinor v prelease
  | getNextMajor_ => getNextMajor v prelease
  end.

(** [getNextVersion(type, prelease)] *)
Definition getNextVersion (v : VersionObject) (type : jsstring)
           (prelease : option jsstring) : completion VersionObject Exception :=
  match getMethodNameByReleaseType type with
  | Some m => call_method v m prelease
  | None => Throw TypeError
  end.

(** [getCurrentVersion(version)] *)
Definition getCurrentVersion (v : jsstring) : completion VersionObject Exception :=
  of_string v.
End Host.

End Versioning.

(** ** tools/callsites.ts: the properties of an expanded call site *)
Module Callsites.
Import JS.

Definition CALLSITE_METHODS : list jsstring :=
  map str
    [ "getThis"%string; "getTypeName"%string; "getFunction"%string;
      "getFunctionName"%string; "getMethodName"%string; "getFileName"%string;
      "getLineNumber"%string; "getColumnNumber"%string; "getEvalOrigin"%string;
      "isToplevel"%string; "isEval"%string; "isNative"%string;
      "isConstructor"%string ].

Inductive Exception : Type :=
| TypeError.    (* a method of [undefined] is called *)

Section Host.
Variable toLowerCase : jsstring -> jsstring.   (* [String.prototype.toLowerCase] *)
(** What the methods of a call site return. *)
Variable V : Type.

(** The property a method's result is stored under:
    [noGet[0].toLowerCase() + noGet.substring(1)] for
    [noGet = method.replace("get", "")]. *)
Definition property_of (method : jsstring) : completion jsstring Exception :=
  let noGet := replace (str "get") [] method in
  match noGet with
  | [] => Throw TypeError
  | c :: _ => Normal (toLowerCase [c] ++ substring 1 noGet)
  end.

(** [parseCallsite(cs)]; a call site is given by what its methods
    return. *)
Fixpoint parseCallsite_from (cs : jsstring -> V) (methods : list jsstring)
         (result : object V) : completion (object V) Exception :=
  match methods with
  | [] => Normal result
  | method :: rest =>
      match property_of method with
      | Throw e => Throw e
      | Normal property =>
          parseCallsite_from cs rest (set property (cs method) result)
      end
  end.

Definition parseCallsite (cs : jsstring -> V) : completion (object V) Exception :=
  parseCallsite_from cs CALLSITE_METHODS [].
End Host.

End Callsites.

(** ** Further vocabulary of the statements *)
Module Vocabulary.
Import JS.

(** A name the expression [/{.+?}/] can match between braces: not
    empty, and without line terminator. *)
Definition matchable (k : jsstring) : bool :=
  truthy_string k && forallb (fun c => negb (isLineTerminator c)) k.

(** A capitalised word: an upper-case letter followed by lower-case
    letters, at least one. *)
Definition capital_word (w : jsstring) : bool :=
  match w with
  | c :: r => Git.isUpper c && truthy_string r && forallb Git.isLower r
  | [] => false
  end.

(** [toLowerCase] on ASCII text: the letters A to Z are moved to a to
    z, every other code unit is kept. *)
Definition ascii_toLowerCase (s : jsstring) : jsstring :=
  map (fun c => if Git.isUpper c then (c + 32)%N else c) s.

(** U+0020 *)
Definition space : code_unit := 32%N.

(** ["-"] *)
Definition dash : code_unit := 45%N.

(** ["/"], [":"] and [")"] *)
Definition slash : code_unit := 47%N.
Definition colon : code_unit := 58%N.
Definition rparen : code_unit := 41%N.

(** [s] without the code unit [c]. *)
Definition without (c : code_unit) (s : jsstring) : jsstring :=
  filter (fun x => negb (x =? c)%N) s.

(** A Unicode scalar value: a code point that is not a surrogate. *)
Definition scalar (cp : N) : bool :=
  (cp <? 55296)%N || ((57344 <=? cp)%N && (cp <=? 1114111)%N).

(** The UTF-16 code units of a code point. *)
Definition utf16 (cp : N) : jsstring :=
  if (cp <? 65536)%N then [cp]
  else [(55296 + (cp - 65536) / 1024)%N; (56320 + (cp - 65536) mod 1024)%N].

(** The release type [increment] receives for a valid type name. *)
Definition release_for (type : jsstring) (prelease : option jsstring)
  : Versioning.Release :=
  if eqb type (str "patch")
  then (if Versioning.given prelease then Versioning.prepatch else Versioning.patch)
  else if eqb type (str "minor")
  then (if Versioning.given prelease then Versioning.preminor else Versioning.minor)
  else (if Versioning.given prelease then Versioning.premajor else Versioning.major).



(** The fields of a commit that the schema trims are trimmed. *)
Definition trimmed_fields (commit : Git.Commit) : Prop :=
  trim (Git.hash commit) = Git.hash commit /\
  trim (Git.id commit) = Git.id commit /\
  trim (Git.name (Git.author commit)) = Git.name (Git.author commit) /\
  trim (Git.email (Git.author commit)) = Git.email (Git.author commit) /\
  trim (Git.ref commit) = Git.ref commit.

End Vocabulary.

(** ** Further sample hosts and inputs *)
Module MoreSamples.
Import JS.

(** [JSON.stringify({ cwd: "/tmp" })] *)
Definition cwd_json : jsstring :=
  lbrace :: Git.quoted "cwd" ++ str ":" ++ Git.quoted "/tmp" ++ [rbrace].

(** A request and the response to it, without headers. *)
Definition request : LoggerConfig.Request :=
  LoggerConfig.mkRequest (Some (str "1.1")) None (Some (str "GET"))
                         (fun _ => None) (Some (str "/health")).

Definition response : LoggerConfig.Response :=
  LoggerConfig.mkResponse None (fun _ => None) (Some 200%float).

(** A scripts directory with two scripts, the second of which fails
    to load. *)
Definition broken_script : Command.Host :=
  Command.mkHost (fun _ => None)
                 (fun _ _ => Normal [str "bin/ok.ts"; str "bin/broken.ts"])
                 (fun p => p)
                 (fun p => if eqb p (str "bin/broken.ts") then Throw tt
                           else Normal [Samples.init_deno])
                 true [].

(** A table with the thumbs-up emoji, U+1F44D. *)
Definition githubEmojis : list Emoji.EmojiEntry :=
  [Emoji.mkEmojiEntry (str "1f44d") (str ":+1:")].

(** An expression that takes a whole non-empty text for one emoji. *)
Definition match_emojis (text : jsstring) : list jsstring :=
  match text with
  | [] => []
  | _ :: _ => [text]
  end.

(** A library that knows one emoji name. *)
Definition getEmoji (name : jsstring) : option jsstring :=
  if eqb name (str "unicorn") then Some [55358; 56708]%N else None.

(** A semantic version as its three numbers, and a library for it: an
    increment without prerelease identifier adds one to its number and
    clears the lower ones. *)
Definition format (v : N * N * N) : jsstring :=
  match v with
  | (a, b, c) =>
      Emoji.toString16 a ++ str "." ++ Emoji.toString16 b ++ str "."
      ++ Emoji.toString16 c
  end.

Definition increment (v : N * N * N) (release : Versioning.Release)
           (prelease : option jsstring)
  : completion (N * N * N) Versioning.Exception :=
  match v, release with
  | (a, b, c), Versioning.patch => Normal (a, b, c + 1)%N
  | (a, b, c), Versioning.minor => Normal (a, b + 1, 0)%N
  | (a, b, c), Versioning.major => Normal (a + 1, 0, 0)%N
  | _, _ => Throw Versioning.SemVerError
  end.


(** A process whose stacks are empty, as call sites and as text. *)
Definition no_frames : LoggerConfig.Host :=
  LoggerConfig.mkHost (str "2024-01-01 00:00:00.000") [] (str "/app")
                      [] (str "Error") (str "Error") (str "Error")
                      Samples.numeral.

End MoreSamples.

Unset Implicit Arguments.

(** * Properties *)

(** ** Facts about the string operations *)
Module JSFacts.
Import JS.

#[local] Arguments N.eqb : simpl never.
#[local] Arguments N.leb : simpl never.

Lemma eqb_eq (a b : jsstring) : eqb a b = true <-> a = b.
Proof.
  revert b; induction a as [|x a IH]; intros [|y b]; simpl; split;
    try congruence; try reflexivity.
  - intros H. apply andb_true_iff in H as [Hx Hr].
    apply N.eqb_eq in Hx. apply IH in Hr. congruence.
  - intros H. injection H as -> ->.
    rewrite N.eqb_refl. simpl. now apply IH.
Qed.

Lemma eqb_refl (a : jsstring) : eqb a a = true.
Proof. now apply eqb_eq. Qed.

Lemma eqb_neq (a b : jsstring) : eqb a b = false <-> a <> b.
Proof.
  split.
  - intros H E. apply eqb_eq in E. congruence.
  - intros H. destruct (eqb a b) eqn:E; [|reflexivity].
    apply eqb_eq in E. contradiction.
Qed.

(** *** trim *)

Lemma trimStart_app_keep (pre m : jsstring) (c : code_unit) :
  isTrimmable c = false ->
  exists pre', trimStart (pre ++ c :: m) = pre' ++ c :: m.
Proof.
  intros Hc. induction pre as [|x pre IH]; simpl.
  - rewrite Hc. now exists [].
  - destruct (isTrimmable x).
    + exact IH.
    + now exists (x :: pre).
Qed.

Lemma trimStart_head (s : jsstring) :
  match trimStart s with
  | [] => True
  | c :: _ => isTrimmable c = false
  end.
Proof.
  induction s as [|x s IH]; simpl; [exact I|].
  destruct (isTrimmable x) eqn:E; simpl; [exact IH | exact E].
Qed.

Lemma trimStart_fixed (s : jsstring) :
  match s with [] => True | c :: _ => isTrimmable c = false end ->
  trimStart s = s.
Proof.
  destruct s as [|c s]; simpl; [reflexivity|].
  now intros ->.
Qed.

Lemma trimStart_idem (s : jsstring) : trimStart (trimStart s) = trimStart s.
Proof. apply trimStart_fixed, trimStart_head. Qed.

Lemma trimStart_snoc (l : jsstring) (c : code_unit) :
  isTrimmable c = false -> trimStart (l ++ [c]) = trimStart l ++ [c].
Proof.
  intros Hc. induction l as [|x l IH]; simpl.
  - now rewrite Hc.
  - destruct (isTrimmable x); [exact IH | reflexivity].
Qed.

Lemma trimEnd_head (c : code_unit) (r : jsstring) :
  isTrimmable c = false -> exists r', trimEnd (c :: r) = c :: r'.
Proof.
  intros Hc. unfold trimEnd. simpl.
  rewrite trimStart_snoc by exact Hc.
  rewrite rev_app_distr. simpl. eauto.
Qed.

Lemma trimEnd_idem (s : jsstring) : trimEnd (trimEnd s) = trimEnd s.
Proof.
  unfold trimEnd. rewrite rev_involutive, trimStart_idem. reflexivity.
Qed.

Lemma trim_head (s : jsstring) :
  match trim s with [] => True | c :: _ => isTrimmable c = false end.
Proof.
  unfold trim. pose proof (trimStart_head s) as H.
  destruct (trimStart s) as [|c r]; [exact I|].
  destruct (trimEnd_head c r H) as [r' ->]. exact H.
Qed.

(** Trimming is idempotent: a trimmed string has no white space left
    at either end. *)
Lemma trim_idem (s : jsstring) : trim (trim s) = trim s.
Proof.
  unfold trim at 1. rewrite (trimStart_fixed _ (trim_head s)).
  unfold trim. apply trimEnd_idem.
Qed.

Lemma trimStart_occurs (q s : jsstring) (c : code_unit) (m : jsstring) :
  q = c :: m -> isTrimmable c = false -> occurs q s -> occurs q (trimStart s).
Proof.
  intros -> Hc (pre & post & ->).
  destruct (trimStart_app_keep pre (m ++ post) c Hc) as [pre' E].
  exists pre', post. simpl. exact E.
Qed.

Lemma occurs_rev (q s : jsstring) : occurs q s -> occurs (rev q) (rev s).
Proof.
  intros (pre & post & ->). exists (rev post), (rev pre).
  now rewrite !rev_app_distr, app_assoc.
Qed.

Lemma trimEnd_occurs (q s : jsstring) (c : code_unit) (m : jsstring) :
  q = m ++ [c] -> isTrimmable c = false -> occurs q s -> occurs q (trimEnd s).
Proof.
  intros Hq Hc Ho. unfold trimEnd.
  rewrite <- (rev_involutive q). apply occurs_rev.
  apply trimStart_occurs with (c := c) (m := rev m).
  - subst q. now rewrite rev_app_distr.
  - exact Hc.
  - now apply occurs_rev.
Qed.

(** *** The placeholder expression *)

Lemma rbrace_not_terminator : isLineTerminator rbrace = false.
Proof. reflexivity. Qed.

Lemma lazy_until_rbrace_prefix (s m : jsstring) :
  lazy_until_rbrace s = Some m ->
  exists b post, s = b ++ rbrace :: post /\ m = b ++ [rbrace] /\
                 Forall (fun c => isLineTerminator c = false) b.
Proof.
  revert m; induction s as [|c r IH]; simpl; intros m H; [discriminate|].
  destruct (N.eqb_spec c rbrace) as [->|Hc].
  - injection H as <-. exists [], r. repeat split. constructor.
  - destruct (isLineTerminator c) eqn:Hlt; [discriminate|].
    destruct (lazy_until_rbrace r) as [m'|]; [|discriminate].
    injection H as <-.
    destruct (IH m' eq_refl) as (b & post & -> & -> & Hb).
    exists (c :: b), post. repeat split. now constructor.
Qed.

Lemma lazy_until_rbrace_complete (b post : jsstring) :
  Forall (fun c => isLineTerminator c = false) b ->
  exists m, lazy_until_rbrace (b ++ rbrace :: post) = Some m.
Proof.
  induction 1 as [|c b Hc Hb IH]; simpl.
  - now exists [rbrace].
  - destruct (c =? rbrace)%N; [eauto|]. rewrite Hc.
    destruct IH as [m ->]. simpl. eauto.
Qed.

Lemma match_placeholder_sound (s m : jsstring) :
  match_placeholder s = Some m ->
  exists body post,
    s = m ++ post /\ m = lbrace :: body ++ [rbrace] /\ body <> [] /\
    Forall (fun c => isLineTerminator c = false) body.
Proof.
  destruct s as [|c0 [|c1 r]]; simpl; try discriminate.
  destruct (N.eqb_spec c0 lbrace) as [->|]; simpl; [|discriminate].
  destruct (isLineTerminator c1) eqn:H1; simpl; [discriminate|].
  destruct (lazy_until_rbrace r) as [m'|] eqn:E; simpl; [|discriminate].
  intros H; injection H as <-.
  destruct (lazy_until_rbrace_prefix r m' E) as (b & post & -> & -> & Hb).
  exists (c1 :: b), post. split; [|split; [|split]].
  - simpl. now rewrite <- app_assoc.
  - reflexivity.
  - discriminate.
  - now constructor.
Qed.

Lemma match_placeholder_complete (body post : jsstring) :
  body <> [] -> Forall (fun c => isLineTerminator c = false) body ->
  exists m, match_placeholder (lbrace :: body ++ rbrace :: post) = Some m.
Proof.
  intros Hne Hb. destruct body as [|c1 b]; [contradiction|].
  inversion Hb as [|? ? H1 Hb']; subst. simpl.
  rewrite H1. simpl.
  destruct (lazy_until_rbrace_complete b post Hb') as [m ->]. simpl. eauto.
Qed.

Lemma matchAll_from_nil (s : jsstring) :
  matchAll_from 0 s = [] <->
  (forall pre suf, s = pre ++ suf -> match_placeholder suf = None).
Proof.
  induction s as [|c r IH].
  - simpl. split; [|reflexivity]. intros _ pre suf H.
    symmetry in H. apply app_eq_nil in H as [_ ->]. reflexivity.
  - change (matchAll_from 0 (c :: r)) with
      (match match_placeholder (c :: r) with
       | Some m => m :: matchAll_from (List.length m - 1) r
       | None => matchAll_from 0 r
       end).
    split.
    + intros H pre suf E.
      destruct (match_placeholder (c :: r)) eqn:Em; [discriminate|].
      destruct pre as [|x pre]; simpl in E.
      * now subst suf.
      * injection E as -> E. exact (proj1 IH H pre suf E).
    + intros H. rewrite (H [] (c :: r) eq_refl).
      apply IH. intros pre suf ->. exact (H (c :: pre) suf eq_refl).
Qed.

(** *** replaceAll leaves foreign placeholders alone *)

Lemma startsWith_true (pat s : jsstring) :
  startsWith pat s = true <-> exists rest, s = pat ++ rest.
Proof.
  revert s; induction pat as [|p pat IH]; intros s; simpl.
  - split; eauto.
  - destruct s as [|c s].
    + split; [discriminate | intros [rest H]; discriminate].
    + rewrite andb_true_iff, N.eqb_eq, IH. split.
      * intros [-> [rest ->]]. eauto.
      * intros [rest H]. injection H as -> ->. eauto.
Qed.

Lemma startsWith_reaches (u v w : jsstring) (x : code_unit) :
  startsWith u (v ++ x :: w) = true -> List.length v < List.length u -> In x u.
Proof.
  revert v; induction u as [|p u IH]; intros v H Hl; simpl in *; [lia|].
  destruct v as [|y v]; simpl in *.
  - apply andb_true_iff in H as [H _]. apply N.eqb_eq in H. now left.
  - apply andb_true_iff in H as [_ H]. right. apply (IH v H). lia.
Qed.

Lemma startsWith_same_name (a k post : jsstring) :
  ~ In rbrace a -> ~ In rbrace k ->
  startsWith (a ++ [rbrace]) (k ++ rbrace :: post) = true -> a = k.
Proof.
  revert k; induction a as [|x a IH]; intros k Ha Hk H.
  - destruct k as [|y k]; [reflexivity|]. simpl in H.
    apply andb_true_iff in H as [H _]. apply N.eqb_eq in H.
    exfalso. apply Hk. now left.
  - destruct k as [|y k]; simpl in H.
    + apply andb_true_iff in H as [H _]. apply N.eqb_eq in H.
      exfalso. apply Ha. now left.
    + apply andb_true_iff in H as [Hx H]. apply N.eqb_eq in Hx. subst y.
      f_equal. apply IH; [| |exact H].
      * intros Hin. apply Ha. now right.
      * intros Hin. apply Hk. now right.
Qed.

Lemma brace_free_spec (k : jsstring) :
  brace_free k = true <-> ~ In lbrace k /\ ~ In rbrace k.
Proof.
  unfold brace_free. rewrite forallb_forall. split.
  - intros H. split; intros Hin; specialize (H _ Hin);
      apply andb_true_iff in H as [H1 H2]; now rewrite N.eqb_refl in *.
  - intros [Hl Hr] c Hin. apply andb_true_iff. split; apply negb_true_iff;
      apply N.eqb_neq; intros ->; contradiction.
Qed.

Section ForeignPlaceholder.
(** The search string is [{a}], the bystander [{k}], for two different
    names without braces. *)
Variables a k : jsstring.
Hypothesis a_free : brace_free a = true.
Hypothesis k_free : brace_free k = true.
Hypothesis a_not_k : a <> k.

Let pat := lbrace :: a ++ [rbrace].
Let q := lbrace :: k ++ [rbrace].

(** No match of [{a}] begins inside [{k}]. *)
Lemma no_match_inside (q1 q2 post : jsstring) :
  q = q1 ++ q2 -> q2 <> [] -> startsWith pat (q2 ++ post) = false.
Proof.
  intros Eq Hne.
  apply brace_free_spec in a_free as [Hal Har].
  apply brace_free_spec in k_free as [Hkl Hkr].
  destruct (startsWith pat (q2 ++ post)) eqn:E; [exfalso|reflexivity].
  destruct q1 as [|x q1]; simpl in Eq.
  - subst q2. unfold pat, q in E. simpl in E.
    rewrite <- app_assoc in E. simpl in E.
    apply a_not_k. exact (startsWith_same_name a k post Har Hkr E).
  - unfold q in Eq. injection Eq as _ Eq.
    destruct q2 as [|y q2]; [contradiction|].
    assert (Hy : In y (k ++ [rbrace])).
    { rewrite Eq. apply in_or_app. right. now left. }
    unfold pat in E. simpl in E. apply andb_true_iff in E as [E _].
    apply N.eqb_eq in E. subst y.
    apply in_app_or in Hy as [Hy|[Hy|[]]]; [contradiction|discriminate].
Qed.

(** A match of [{a}] that begins before [{k}] ends before it. *)
Lemma match_ends_before (p2 post : jsstring) :
  p2 <> [] -> startsWith pat (p2 ++ q ++ post) = true ->
  List.length pat <= List.length p2.
Proof.
  intros Hne E.
  apply brace_free_spec in a_free as [Hal Har].
  destruct (Nat.le_gt_cases (List.length pat) (List.length p2)) as [|Hlt];
    [assumption|exfalso].
  destruct p2 as [|y p2]; [contradiction|].
  unfold pat, q in *. simpl in E, Hlt.
  apply andb_true_iff in E as [_ E].
  assert (Hin : In lbrace (a ++ [rbrace])).
  { apply (startsWith_reaches (a ++ [rbrace]) p2 ((k ++ [rbrace]) ++ post) lbrace E).
    lia. }
  apply in_app_or in Hin as [Hin|[Hin|[]]]; [contradiction|discriminate].
Qed.

Variable repl : jsstring.

Lemma scan_through (post : jsstring) :
  forall q2 q1 before, q = q1 ++ q2 ->
    replaceAll_from pat repl before 0 (q2 ++ post)
    = q2 ++ replaceAll_from pat repl (before ++ q2) 0 post.
Proof.
  induction q2 as [|c q2 IH]; intros q1 before Eq.
  - simpl. now rewrite app_nil_r.
  - change ((c :: q2) ++ post) with (c :: q2 ++ post).
    cbn [replaceAll_from].
    change (c :: q2 ++ post) with ((c :: q2) ++ post).
    rewrite (no_match_inside q1 (c :: q2) post Eq) by discriminate.
    simpl. f_equal.
    rewrite (IH (q1 ++ [c]) (before ++ [c])).
    + now rewrite <- app_assoc.
    + now rewrite <- app_assoc.
Qed.

Lemma scan_before (post : jsstring) :
  forall pre before skip, skip <= List.length pre ->
    exists out,
      replaceAll_from pat repl before skip (pre ++ q ++ post)
      = out ++ replaceAll_from pat repl (before ++ pre) 0 (q ++ post).
Proof.
  induction pre as [|c pre IH]; intros before skip Hs.
  - simpl in Hs. assert (skip = 0) as -> by lia.
    exists []. now rewrite app_nil_r.
  - change ((c :: pre) ++ q ++ post) with (c :: pre ++ q ++ post).
    cbn [replaceAll_from].
    replace (before ++ c :: pre) with ((before ++ [c]) ++ pre)
      by now rewrite <- app_assoc.
    destruct skip as [|n].
    + change (c :: pre ++ q ++ post) with ((c :: pre) ++ q ++ post).
      destruct (startsWith pat ((c :: pre) ++ q ++ post)) eqn:E.
      * pose proof (match_ends_before (c :: pre) post ltac:(discriminate) E) as Hl.
        change (List.length (c :: pre)) with (S (List.length pre)) in Hl.
        destruct (IH (before ++ [c]) (List.length pat - 1) ltac:(lia)) as [out ->].
        eexists. rewrite app_assoc. reflexivity.
      * destruct (IH (before ++ [c]) 0 ltac:(lia)) as [out ->].
        exists (c :: out). reflexivity.
    + simpl in Hs. destruct (IH (before ++ [c]) n ltac:(lia)) as [out ->].
      exists out. reflexivity.
Qed.

(** [replaceAll("{a}", repl)] keeps every occurrence of [{k}]. *)
Lemma replaceAll_keeps (s : jsstring) :
  occurs q s -> occurs q (replaceAll pat repl s).
Proof.
  intros (pre & post & ->). unfold replaceAll, pat at 1.
  fold pat.
  destruct (scan_before post pre [] 0 ltac:(lia)) as [out ->].
  rewrite (scan_through post q [] ([] ++ pre) eq_refl).
  now exists out, (replaceAll_from pat repl (([] ++ pre) ++ q) 0 post).
Qed.
End ForeignPlaceholder.

End JSFacts.

(** ** tools/template.ts *)
Module TemplateFacts.
Import JS JSFacts Template.

Lemma matchAll_nil_iff (s : jsstring) : matchAll s = [] <-> ~ has_placeholder s.
Proof.
  unfold matchAll. rewrite matchAll_from_nil. split.
  - intros H (pre & body & post & -> & Hne & Hb).
    destruct (match_placeholder_complete body post Hne Hb) as [m Hm].
    rewrite (H pre _ eq_refl) in Hm. discriminate.
  - intros H pre suf ->.
    destruct (match_placeholder suf) as [m|] eqn:E; [exfalso|reflexivity].
    destruct (match_placeholder_sound suf m E) as (body & post & -> & -> & Hne & Hb).
    apply H. exists pre, body, post. simpl. rewrite <- app_assoc. auto.
Qed.

(** Every reported match is a placeholder text of the scanned string. *)
Lemma matchAll_from_elements (whole : jsstring) :
  forall s skip pre, whole = pre ++ s ->
    Forall (fun m => occurs m whole /\ placeholder_text m)
           (matchAll_from skip s).
Proof.
  induction s as [|c r IH]; intros skip pre E; [constructor|].
  assert (Er : whole = (pre ++ [c]) ++ r) by now rewrite <- app_assoc.
  destruct skip as [|n]; [|exact (IH n _ Er)].
  change (matchAll_from 0 (c :: r)) with
    (match match_placeholder (c :: r) with
     | Some m => m :: matchAll_from (List.length m - 1) r
     | None => matchAll_from 0 r
     end).
  destruct (match_placeholder (c :: r)) as [m|] eqn:Em; [|exact (IH 0 _ Er)].
  constructor; [|exact (IH _ _ Er)].
  destruct (match_placeholder_sound _ m Em) as (body & post & Es & Hm & Hne & Hb).
  split.
  - exists pre, post. now rewrite E, Es.
  - now exists body.
Qed.

(** C4.  [render] returns normally exactly when the substituted and
    trimmed string contains no text that [/{.+?}/] matches; its value
    is then that string.  When such a text remains, [render] throws an
    error whose cause holds the template's own string, the substituted
    string, and the non-empty list of the matches found in it, each of
    them a placeholder text occurring in the substituted string. *)
Theorem render_returns_iff_no_placeholder (tpl : t) (reps : Replacements) :
  ((exists r, render tpl reps = Normal r)
   <-> ~ has_placeholder (render_ tpl reps true)) /\
  (forall r, render tpl reps = Normal r -> r = render_ tpl reps true) /\
  (has_placeholder (render_ tpl reps true) ->
   exists missing,
     render tpl reps
     = Throw (mkError unreplaced_message
                (mkCause (value tpl) (render_ tpl reps true) missing)) /\
     missing = matchAll (render_ tpl reps true) /\
     missing <> [] /\
     Forall (fun m => occurs m (render_ tpl reps true)
                      /\ placeholder_text m) missing).
Proof.
  unfold render, validate.
  pose proof (matchAll_nil_iff (render_ tpl reps true)) as Hnil.
  pose proof (matchAll_from_elements (render_ tpl reps true)
                (render_ tpl reps true) 0 [] eq_refl) as Hel.
  fold (matchAll (render_ tpl reps true)) in Hel.
  destruct (matchAll (render_ tpl reps true)) as [|m ms] eqn:E; simpl.
  - split; [|split].
    + split; [intros _; now apply Hnil | eauto].
    + now intros r [= <-].
    + intros H. now apply Hnil in H.
  - split; [|split].
    + split; [intros [r H]; discriminate | intros H].
      exfalso. destruct Hnil as [_ Hnil]. specialize (Hnil H). discriminate.
    + intros r H. discriminate.
    + intros _. exists (m :: ms). repeat split; [discriminate | exact Hel].
Qed.

(** A witness for [render_returns_iff_no_placeholder]: with [name]
    alone the placeholder [{assistant}] remains and [render] throws. *)
Lemma render_returns_iff_no_placeholder_witness :
  exists missing,
    render (new (str "Hello {name}! My name is {assistant}.") None)
           (literal [(str "name", str "Human")])
    = Throw (mkError unreplaced_message
               (mkCause (str "Hello {name}! My name is {assistant}.")
                        (str "Hello Human! My name is {assistant}.") missing)) /\
    missing = [str "{assistant}"].
Proof.
  destruct (proj2 (proj2 (render_returns_iff_no_placeholder
              (new (str "Hello {name}! My name is {assistant}.") None)
              (literal [(str "name", str "Human")]))))
    as (missing & Hr & Hm & _).
  - exists (str "Hello Human! My name is "), (str "assistant"), (str ".").
    split; [reflexivity|]. split; [discriminate|].
    repeat constructor.
  - exists missing. split; [exact Hr | exact Hm].
Defined.

(** C9.  The string [render] returns, and the string value of the
    template [partialRender] returns, is the substituted string with
    the white space at both ends removed.  Hence a template whose own
    string has white space at an end is never given back unchanged,
    whatever the replacements; with no replacement at all
    [partialRender] yields the trimmed template. *)
Theorem rendered_string_is_trimmed (tpl : t) (reps : Replacements) :
  (forall r, render tpl reps = Normal r ->
     r = trim (substitute (deepMerge (replacements tpl) reps) (value tpl))) /\
  value (partialRender tpl reps) = trim (substitute reps (value tpl)) /\
  (forall r, render tpl reps = Normal r -> trim r = r) /\
  trim (value (partialRender tpl reps)) = value (partialRender tpl reps) /\
  (trim (value tpl) <> value tpl ->
     render tpl reps <> Normal (value tpl) /\
     value (partialRender tpl reps) <> value tpl) /\
  value (partialRender tpl []) = trim (value tpl).
Proof.
  assert (Hr : forall r, render tpl reps = Normal r ->
                 r = trim (substitute (deepMerge (replacements tpl) reps) (value tpl))).
  { intros r H. unfold render in H.
    destruct (validate tpl (render_ tpl reps true)); [|discriminate].
    injection H as <-. reflexivity. }
  split; [exact Hr|]. split; [reflexivity|].
  split; [intros r H; rewrite (Hr r H); apply trim_idem|].
  split; [apply trim_idem|].
  split; [|reflexivity].
  intros Hws. split.
  - intros H. apply Hws. rewrite (Hr _ H) at 1. rewrite trim_idem.
    symmetry. exact (Hr _ H).
  - intros H. apply Hws. rewrite <- H at 1.
    change (value (partialRender tpl reps))
      with (trim (substitute reps (value tpl))) in *.
    rewrite trim_idem. exact H.
Qed.

(** A witness for [rendered_string_is_trimmed]: a template with a
    leading and a trailing space. *)
Lemma rendered_string_is_trimmed_witness :
  render (new (str " Hello {name}! ") None) (literal [(str "name", str "World")])
  <> Normal (str " Hello {name}! ") /\
  value (partialRender (new (str " Hello {name}! ") None) [])
  = str "Hello {name}!".
Proof.
  split.
  - refine (proj1 (proj1 (proj2 (proj2 (proj2 (proj2
      (rendered_string_is_trimmed (new (str " Hello {name}! ") None)
         (literal [(str "name", str "World")])))))) _)).
    discriminate.
  - exact (proj2 (proj2 (proj2 (proj2 (proj2
      (rendered_string_is_trimmed (new (str " Hello {name}! ") None) [])))))).
Defined.

Lemma substitute_keeps (k : jsstring) (reps : Replacements) :
  brace_free k = true ->
  forallb brace_free (keys reps) = true ->
  hasOwn reps k = false ->
  forall s, occurs (placeholder k) s -> occurs (placeholder k) (substitute reps s).
Proof.
  intros Hk. unfold substitute.
  induction reps as [|[a v] reps IH]; intros Hfree Hown s Ho; [exact Ho|].
  simpl in *. apply andb_true_iff in Hfree as [Ha Hfree].
  apply orb_false_iff in Hown as [Hak Hown].
  apply (IH Hfree Hown).
  apply (replaceAll_keeps a k Ha Hk); [|exact Ho].
  intros ->. rewrite eqb_refl in Hak. discriminate.
Qed.

Lemma trim_keeps (k s : jsstring) :
  occurs (placeholder k) s -> occurs (placeholder k) (trim s).
Proof.
  intros Ho. unfold trim.
  apply trimEnd_occurs with (c := rbrace) (m := lbrace :: k); try reflexivity.
  apply trimStart_occurs with (c := lbrace) (m := k ++ [rbrace]); try reflexivity.
  exact Ho.
Qed.

(** C5.  [partialRender] at two inputs on which it does not do what
    its documentation says.  In ["{x{y} {y}"] the expression finds the
    placeholders [{x{y}] and [{y}]; rendering [y] alone rewrites the
    text inside the first one, whose name is not in the replacements,
    and it is gone from the new template.  And a default named
    [toString] is dropped by [partialRender({})], although the
    replacements have no such key, since [in] also finds the names a
    plain object inherits. *)
Lemma partialRender_failing_inputs :
  matchAll (str "{x{y} {y}") = [str "{x{y}"; str "{y}"] /\
  hasOwn (literal [(str "y", str "1")]) (str "x{y") = false /\
  value (partialRender (new (str "{x{y} {y}") None) (literal [(str "y", str "1")]))
  = str "{x1 1" /\
  includes (placeholder (str "x{y"))
    (value (partialRender (new (str "{x{y} {y}") None) (literal [(str "y", str "1")])))
  = false /\
  replacements
    (partialRender
       (new (str "{toString}") (Some (literal [(str "toString", str "x")])))
       ([] : Replacements))
  = [] /\
  filter (fun kv => negb (hasOwn ([] : Replacements) (fst kv)))
         (literal [(str "toString", str "x")])
  = [(str "toString", str "x")].
Proof. vm_compute. repeat split. Qed.

(** X28.  [partialRender(R)] substitutes the entries of [R] alone, the
    template's defaults playing no part, and trims.  When the names in
    [R] contain no brace, every placeholder [{k}] of the template
    whose name [k] contains no brace and is not a key of [R] is still
    in the new template's string.  For defaults that use none of the
    names a plain object inherits, the new defaults are the old ones
    restricted to the keys not in [R]. *)
Theorem partialRender_keeps_other_placeholders (tpl : t) (reps : Replacements) :
  value (partialRender tpl reps) = trim (substitute reps (value tpl)) /\
  (forall defaults,
     value (partialRender (mk (value tpl) defaults) reps)
     = value (partialRender tpl reps)) /\
  (forall k,
     brace_free k = true -> forallb brace_free (keys reps) = true ->
     hasOwn reps k = false ->
     occurs (placeholder k) (value tpl) ->
     occurs (placeholder k) (value (partialRender tpl reps))) /\
  (forallb (fun k => negb (existsb (eqb k) Object_prototype_names))
           (keys (replacements tpl)) = true ->
   replacements (partialRender tpl reps)
   = filter (fun kv => negb (hasOwn reps (fst kv))) (replacements tpl)).
Proof.
  split; [reflexivity|]. split; [reflexivity|]. split.
  - intros k Hk Hfree Hown Ho.
    apply trim_keeps, substitute_keeps; assumption.
  - intros Hd. simpl. unfold filterKeys, keys in *.
    induction (replacements tpl) as [|[k v] d IH]; [reflexivity|].
    simpl in *. apply andb_true_iff in Hd as [Hk Hd].
    unfold has_property at 1. simpl.
    apply negb_true_iff in Hk. rewrite Hk, orb_false_r.
    rewrite (IH Hd). reflexivity.
Qed.

Lemma partialRender_keeps_other_placeholders_witness :
  occurs (placeholder (str "assistant"))
    (value (partialRender
              (new (str "Hello {name}! My name is {assistant}.") None)
              (literal [(str "name", str "Human")]))).
Proof.
  refine (proj1 (proj2 (proj2
    (partialRender_keeps_other_placeholders
       (new (str "Hello {name}! My name is {assistant}.") None)
       (literal [(str "name", str "Human")]))))
    (str "assistant") _ _ _ _).
  - reflexivity.
  - reflexivity.
  - reflexivity.
  - exists (str "Hello {name}! My name is "), (str "."). reflexivity.
Defined.

Example partialRender_documented :
  value (partialRender
           (new (str "Hello {name}! My name is {assistant}.") None)
           (literal [(str "name", str "Human")]))
  = str "Hello Human! My name is {assistant}.".
Proof. reflexivity. Qed.

Example render_documented :
  render (new (str "{salute} {name}!") None)
         (literal [(str "salute", str "Hello"); (str "name", str "World")])
  = Normal (str "Hello World!").
Proof. reflexivity. Qed.

End TemplateFacts.

(** ** tools/git.ts *)
Module GitFacts.
Import JS JSFacts Git.

(** *** split *)

Lemma split_from_skip (sep : jsstring) :
  forall t cur s, split_from sep cur (List.length t) (t ++ s) = split_from sep cur 0 s.
Proof.
  induction t as [|x t IH]; intros cur s; [reflexivity|]. simpl. apply IH.
Qed.

Lemma split_from_nonempty (sep : jsstring) :
  forall s cur skip, split_from sep cur skip s <> [].
Proof.
  induction s as [|c r IH]; intros cur skip; simpl; [discriminate|].
  destruct skip; [|apply IH].
  destruct (startsWith sep (c :: r)); [discriminate | apply IH].
Qed.

Lemma join_cons (sep x : jsstring) (rest : list jsstring) :
  rest <> [] -> join sep (x :: rest) = x ++ sep ++ join sep rest.
Proof. destruct rest; [contradiction | reflexivity]. Qed.

Lemma split_from_join (sep : jsstring) :
  sep <> [] ->
  forall n s cur, List.length s <= n ->
    join sep (split_from sep cur 0 s) = rev cur ++ s.
Proof.
  intros Hsep. induction n as [|n IH]; intros s cur Hn.
  - destruct s; [|simpl in Hn; lia]. simpl. now rewrite app_nil_r.
  - destruct s as [|c r]; [simpl; now rewrite app_nil_r|].
    cbn [split_from].
    destruct (startsWith sep (c :: r)) eqn:E.
    + apply startsWith_true in E as [rest E].
      destruct sep as [|p sep]; [contradiction|].
      simpl in E. injection E as -> ->.
      change (List.length (p :: sep) - 1) with (List.length sep - 0).
      rewrite Nat.sub_0_r, split_from_skip.
      rewrite join_cons by apply split_from_nonempty.
      rewrite IH.
      * reflexivity.
      * simpl in Hn. rewrite length_app in Hn. lia.
    + rewrite IH by (simpl in Hn; lia).
      simpl. now rewrite <- app_assoc.
Qed.

(** Joining the pieces with the separator gives the string back: the
    cuts are occurrences of the separator and nothing else is removed. *)
Lemma split_join (sep s : jsstring) : sep <> [] -> join sep (split sep s) = s.
Proof.
  intros Hsep. unfold split. destruct sep as [|p sep]; [contradiction|].
  exact (split_from_join (p :: sep) Hsep (List.length s) s [] (le_n _)).
Qed.

Lemma startsWith_app_r (pat s t : jsstring) :
  startsWith pat s = true -> startsWith pat (s ++ t) = true.
Proof.
  intros H. apply startsWith_true in H as [rest ->].
  apply startsWith_true. exists (rest ++ t). now rewrite app_assoc.
Qed.

Lemma includes_true (pat s : jsstring) :
  includes pat s = true -> exists a b, s = a ++ b /\ startsWith pat b = true.
Proof.
  induction s as [|c r IH]; simpl; intros H.
  - rewrite orb_false_r in H. now exists [], [].
  - apply orb_true_iff in H as [H|H].
    + now exists [], (c :: r).
    + destruct (IH H) as (a & b & -> & Hb). now exists (c :: a), b.
Qed.

(** While a piece is being collected no occurrence of the separator
    begins inside it. *)
Definition clean (sep cur rest : jsstring) : Prop :=
  forall a b, rev cur = a ++ b -> b <> [] -> startsWith sep (b ++ rest) = false.

Lemma clean_piece (sep cur rest : jsstring) :
  sep <> [] -> clean sep cur rest -> includes sep (rev cur) = false.
Proof.
  intros Hsep Hc. destruct (includes sep (rev cur)) eqn:E; [exfalso|reflexivity].
  apply includes_true in E as (a & b & E & Hb).
  assert (b <> []) as Hne.
  { intros ->. destruct sep; [contradiction | discriminate]. }
  specialize (Hc a b E Hne).
  rewrite (startsWith_app_r sep b rest Hb) in Hc. discriminate.
Qed.

Lemma clean_push (sep cur r : jsstring) (c : code_unit) :
  clean sep cur (c :: r) -> startsWith sep (c :: r) = false ->
  clean sep (c :: cur) r.
Proof.
  intros Hc Hs a b E Hne. simpl in E.
  destruct (exists_last Hne) as (b0 & x & ->).
  rewrite app_assoc in E. apply app_inj_tail in E as [E <-].
  rewrite <- app_assoc. simpl.
  destruct b0 as [|y b0]; [exact Hs|].
  apply (Hc a (y :: b0) E). discriminate.
Qed.

Lemma split_from_clean (sep : jsstring) :
  sep <> [] ->
  forall n s cur, List.length s <= n -> clean sep cur s ->
    Forall (fun piece => includes sep piece = false) (split_from sep cur 0 s).
Proof.
  intros Hsep. induction n as [|n IH]; intros s cur Hn Hc.
  - destruct s; [|simpl in Hn; lia]. simpl. constructor; [|constructor].
    exact (clean_piece sep cur [] Hsep Hc).
  - destruct s as [|c r].
    + simpl. constructor; [|constructor]. exact (clean_piece sep cur [] Hsep Hc).
    + cbn [split_from]. destruct (startsWith sep (c :: r)) eqn:E.
      * constructor; [exact (clean_piece sep cur (c :: r) Hsep Hc)|].
        apply startsWith_true in E as [rest E].
        destruct sep as [|p sep]; [contradiction|].
        simpl in E. injection E as -> ->.
        change (List.length (p :: sep) - 1) with (List.length sep - 0).
        rewrite Nat.sub_0_r, split_from_skip.
        apply IH.
        -- simpl in Hn. rewrite length_app in Hn. lia.
        -- intros a b Eab Hb. destruct a; destruct b; try discriminate.
           contradiction.
      * apply IH; [simpl in Hn; lia|]. now apply clean_push.
Qed.

(** No piece contains the separator. *)
Lemma split_pieces_clean (sep s : jsstring) :
  sep <> [] -> Forall (fun piece => includes sep piece = false) (split sep s).
Proof.
  intros Hsep. unfold split. destruct sep as [|p sep]; [contradiction|].
  apply (split_from_clean (p :: sep) Hsep (List.length s) s [] (le_n _)).
  intros a b E Hb. destruct a; destruct b; try discriminate. contradiction.
Qed.

(** *** map over a throwing callback *)

Lemma map_throw_normal (A B E : Type) (f : A -> completion B E) :
  forall l ys,
    map_throw f l = Normal ys <-> Forall2 (fun x y => f x = Normal y) l ys.
Proof.
  induction l as [|x l IH]; intros ys; simpl.
  - split; [intros [= <-]; constructor | intros H; now inversion H].
  - split.
    + destruct (f x) as [y|e] eqn:Ex; [|discriminate].
      destruct (map_throw f l) as [ys'|e]; [|discriminate].
      intros [= <-]. constructor; [exact Ex | now apply IH].
    + intros H. inversion H as [|? y ? ys' Hx Hl]; subst.
      rewrite Hx. apply IH in Hl. now rewrite Hl.
Qed.

Lemma map_throw_throw (A B E : Type) (f : A -> completion B E) :
  forall l,
    (exists e, map_throw f l = Throw e)
    <-> (exists x, In x l /\ exists e, f x = Throw e).
Proof.
  induction l as [|x l IH]; simpl.
  - split; [intros [e H]; discriminate | intros (x & [] & _)].
  - destruct (f x) as [y|e] eqn:Ex.
    + destruct (map_throw f l) as [ys|e'].
      * split; [intros [e H]; discriminate|].
        intros (x' & [<-|Hin] & e & He); [congruence|].
        destruct (proj2 IH) as [e' He']; [eauto | discriminate].
      * split; [|eauto]. intros _.
        destruct (proj1 IH) as (x' & Hin & He); eauto.
    + split; eauto.
Qed.

Section Host.
Variable StringToNumber : jsstring -> float.
Variable ToPrimitive : json -> jsstring.
Variable Date_parse : jsstring -> float.
Variable JSON_parse : jsstring -> completion json Error.
Variable emojiCharToCode : jsstring -> jsstring.
Variable toLowerCase : jsstring -> jsstring.

Let parseCommit := parseCommit StringToNumber ToPrimitive Date_parse JSON_parse emojiCharToCode.
Let parseLogOutput := parseLogOutput StringToNumber ToPrimitive Date_parse JSON_parse emojiCharToCode.
Let CommitSchema_parse := CommitSchema_parse StringToNumber ToPrimitive Date_parse emojiCharToCode.
Let parseDate := parseDate StringToNumber ToPrimitive Date_parse.
Let new_Date := new_Date ToPrimitive Date_parse.
Let parseSubject := parseSubject emojiCharToCode.
Let Number := Number StringToNumber ToPrimitive.
Let log := log StringToNumber ToPrimitive Date_parse JSON_parse emojiCharToCode toLowerCase.

(** C6 (as amended).  The output is cut at every occurrence of the
    delimiter: the pieces joined by the delimiter are the output and
    no piece contains the delimiter.  The empty pieces are dropped,
    each remaining piece gets the delimiter back in front, and the
    fragments are parsed in order: the call returns the records
    exactly when every fragment parses, one record per fragment in
    the order of the fragments, and throws as soon as one does not.
    [log] returns what this gives on the output of the subprocess. *)
Theorem parseLogOutput_spec (output : jsstring) :
  (forall git flags revisionRange,
     (forall args, git args = Normal output) ->
     log git flags revisionRange = parseLogOutput output) /\
  join delimiter (split delimiter output) = output /\
  Forall (fun piece => includes delimiter piece = false) (split delimiter output) /\
  rawCommits output
  = map (fun v => delimiter ++ v)
        (filter truthy_string (split delimiter output)) /\
  (forall commits,
     parseLogOutput output = Normal commits
     <-> Forall2 (fun c r => parseCommit c = Normal r) (rawCommits output) commits) /\
  (forall commits,
     parseLogOutput output = Normal commits ->
     List.length commits
     = List.length (filter truthy_string (split delimiter output))) /\
  ((exists e, parseLogOutput output = Throw e)
   <-> exists c, In c (rawCommits output) /\ exists e, parseCommit c = Throw e).
Proof.
  assert (Hd : delimiter <> []) by discriminate.
  split; [intros git flags revisionRange Hg; unfold log, Git.log;
          now rewrite Hg|].
  split; [exact (split_join delimiter output Hd)|].
  split; [exact (split_pieces_clean delimiter output Hd)|].
  split; [reflexivity|].
  split; [intros commits; apply map_throw_normal|].
  split; [|apply map_throw_throw].
  intros commits H. apply map_throw_normal in H.
  apply Forall2_length in H. rewrite <- H.
  unfold rawCommits. now rewrite length_map.
Qed.

(** C7 (as amended).  When [Number(value)] is not NaN the timestamp
    is [new Date] of that number times 1000: its time value is the
    product clipped to a time value, that is, rounded towards zero to a
    whole number of milliseconds, and NaN, an invalid date, when the
    product is infinite or beyond 8.64e15 in magnitude.  Otherwise the
    timestamp is [new Date] of the value itself, which parses a string
    as a date.  The schema gives a commit the timestamp [parseDate]
    makes of the raw [timestamp] field: it accepts the commit when the
    other fields are accepted and the date is valid, and rejects it
    when the date is invalid. *)
Theorem parseDate_seconds_or_date_string (date : value) :
  (is_nan (Number date) = false ->
   parseDate date = new_Date (Some (JNumber (Number date * 1000)%float)) /\
   time_value (parseDate date) = TimeClip (Number date * 1000)%float) /\
  (forall t,
     is_nan t = true \/ is_infinity t = true
     \/ (8640000000000000 <? abs t)%float = true ->
     is_nan (TimeClip t) = true) /\
  (forall t,
     is_nan t = false -> is_infinity t = false ->
     (8640000000000000 <? abs t)%float = false ->
     TimeClip t = (truncate t + 0)%float) /\
  (is_nan (Number date) = true -> parseDate date = new_Date date) /\
  (forall s, time_value (new_Date (Some (JString s))) = TimeClip (Date_parse s)) /\
  (forall data commit,
     CommitSchema_parse data = Normal commit ->
     timestamp commit = parseDate (field data (str "timestamp")) /\
     is_nan (time_value (timestamp commit)) = false) /\
  (forall o,
     is_nan (time_value (parseDate (get o (str "timestamp")))) = true ->
     CommitSchema_parse (JObject o) = Throw ZodError) /\
  (forall o h i a s r,
     TrimmedStringSchema (get o (str "hash")) = Normal h ->
     TrimmedStringSchema (get o (str "id")) = Normal i ->
     AuthorSchema (get o (str "author")) = Normal a ->
     TrimmedStringSchema (get o (str "subject")) = Normal s ->
     TrimmedStringSchema (get o (str "ref")) = Normal r ->
     is_nan (time_value (parseDate (get o (str "timestamp")))) = false ->
     CommitSchema_parse (JObject o)
     = Normal (parseSubject
                 (mkCommit h i (parseDate (get o (str "timestamp"))) a s r))).
Proof.
  split; [|split; [|split; [|split; [|split; [|split; [|split]]]]]].
  - intros H. unfold parseDate, Git.parseDate. fold Number. rewrite H.
    split; reflexivity.
  - intros t H. unfold TimeClip.
    destruct (is_nan t); [reflexivity|].
    destruct (is_infinity t); [reflexivity|].
    destruct H as [H|[H|H]]; [discriminate|discriminate|].
    cbn [orb]. now rewrite H.
  - intros t H1 H2 H3. unfold TimeClip. now rewrite H1, H2, H3.
  - intros H. unfold parseDate, Git.parseDate. fold Number. now rewrite H.
  - reflexivity.
  - intros data commit H. unfold CommitSchema_parse, Git.CommitSchema_parse in H.
    destruct data as [| | | | |o]; try discriminate.
    destruct (TrimmedStringSchema (get o (str "hash"))); [|discriminate].
    destruct (TrimmedStringSchema (get o (str "id"))); [|discriminate].
    unfold TimestampSchema in H. fold parseDate in H.
    destruct (is_nan (time_value (parseDate (get o (str "timestamp"))))) eqn:Et;
      [discriminate|].
    destruct (AuthorSchema _); [|discriminate].
    destruct (TrimmedStringSchema (get o (str "subject"))); [|discriminate].
    destruct (TrimmedStringSchema (get o (str "ref"))); [|discriminate].
    injection H as <-. split; [reflexivity|exact Et].
  - intros o Et. unfold CommitSchema_parse, Git.CommitSchema_parse, TimestampSchema.
    fold parseDate. rewrite Et.
    destruct (TrimmedStringSchema (get o (str "hash"))); [|reflexivity].
    destruct (TrimmedStringSchema (get o (str "id"))); reflexivity.
  - intros o h i a s r Hh Hi Ha Hs Hr Et.
    unfold CommitSchema_parse, Git.CommitSchema_parse, TimestampSchema.
    fold parseDate. now rewrite Hh, Hi, Et, Ha, Hs, Hr.
Qed.
End Host.

(** C6, as stated, fails: the output of one commit begins with the
    delimiter, so [split] yields two pieces, the first of them empty;
    the empty piece is dropped, not given the delimiter back, and one
    fragment is parsed, not two. *)
Lemma parseLogOutput_counterexample :
  split delimiter (delimiter ++ str ":1}") = [[]; str ":1}"] /\
  rawCommits (delimiter ++ str ":1}") = [delimiter ++ str ":1}"] /\
  rawCommits (delimiter ++ str ":1}")
  <> map (fun v => delimiter ++ v) (split delimiter (delimiter ++ str ":1}")).
Proof. vm_compute. repeat split. discriminate. Qed.

(** A witness for [parseLogOutput_spec]: the output of two commits
    gives as many records as it has non-empty pieces. *)
Lemma parseLogOutput_spec_witness :
  exists commits,
    parseLogOutput Samples.numeral (fun _ => []) Samples.Date_parse
      Samples.JSON_parse (fun s => s) Samples.two_commits
    = Normal commits /\
    List.length commits
    = List.length (filter truthy_string (split delimiter Samples.two_commits)).
Proof.
  eexists. split; [vm_compute; reflexivity|].
  refine (proj1 (proj2 (proj2 (proj2 (proj2 (proj2
    (parseLogOutput_spec Samples.numeral (fun _ => []) Samples.Date_parse
       Samples.JSON_parse (fun s => s) (fun s => s) Samples.two_commits))))))
    _ _).
  vm_compute. reflexivity.
Defined.

(** The two records of that output, in the order of the output. *)
Example two_commits_parsed :
  option_map (map hash)
    (match parseLogOutput Samples.numeral (fun _ => []) Samples.Date_parse
             Samples.JSON_parse (fun s => s) Samples.two_commits with
     | Normal commits => Some commits
     | Throw _ => None
     end)
  = Some [str "1f3a"; str "9c2e"].
Proof. vm_compute. reflexivity. Qed.

(** A witness for [parseDate_seconds_or_date_string]: the text
    ["1699000000"] is a number of seconds, ["2023-11-03"] is not a
    number and is parsed as a date. *)
Lemma parseDate_seconds_or_date_string_witness :
  time_value (parseDate Samples.numeral (fun _ => []) Samples.Date_parse
                (Some (JString (str "1699000000"))))
  = 1699000000000%float /\
  parseDate Samples.numeral (fun _ => []) Samples.Date_parse
    (Some (JString (str "2023-11-03")))
  = mkDate 1698969600000%float.
Proof.
  split.
  - exact (eq_trans
             (proj2 (proj1 (parseDate_seconds_or_date_string Samples.numeral
                              (fun _ => []) Samples.Date_parse (fun s => s)
                              (Some (JString (str "1699000000")))) eq_refl))
             eq_refl).
  - exact (eq_trans
             (proj1 (proj2 (proj2 (proj2
                (parseDate_seconds_or_date_string Samples.numeral
                   (fun _ => []) Samples.Date_parse (fun s => s)
                   (Some (JString (str "2023-11-03"))))))) eq_refl)
             eq_refl).
Defined.

(** C7, as stated, fails.  The text ["10000000000000"] is a number
    and not NaN, but that many seconds are more milliseconds than a
    date holds: the date is invalid, and its time value is not the
    product.  And 2^-10 seconds are 0.9765625 milliseconds, while the
    date built from them is the epoch itself. *)
Lemma parseDate_counterexample :
  is_nan (Number Samples.numeral (fun _ => [])
            (Some (JString (str "10000000000000")))) = false /\
  (Number Samples.numeral (fun _ => []) (Some (JString (str "10000000000000")))
   * 1000)%float = 10000000000000000%float /\
  is_nan (time_value (parseDate Samples.numeral (fun _ => []) Samples.Date_parse
                        (Some (JString (str "10000000000000"))))) = true /\
  is_nan (Number Samples.numeral (fun _ => []) (Some (JNumber 0x1p-10%float)))
  = false /\
  (Number Samples.numeral (fun _ => []) (Some (JNumber 0x1p-10%float)) * 1000)%float
  = 0.9765625%float /\
  time_value (parseDate Samples.numeral (fun _ => []) Samples.Date_parse
                (Some (JNumber 0x1p-10%float)))
  = 0%float.
Proof. vm_compute. repeat split. Qed.

(** The clipping of time values on a few numbers. *)
Example TimeClip_examples :
  TimeClip 1500.75%float = 1500%float /\
  TimeClip (-1500.75)%float = (-1500)%float /\
  TimeClip (-0.5)%float = 0%float /\
  TimeClip 8640000000000000%float = 8640000000000000%float /\
  is_nan (TimeClip 8640000000000001%float) = true /\
  is_nan (TimeClip infinity) = true.
Proof. vm_compute. repeat split. Qed.

End GitFacts.

(** ** tools/logger.ts *)
Module LoggerFacts.
Import JS JSFacts LoggerConfig.

Lemma SeverityNameByLevel_SeverityLevel (v : SeverityName.t) :
  SeverityNameByLevel (SeverityLevel v) = Some v.
Proof. now destruct v. Qed.

Lemma isSilentMode_spec (settings : Settings) (v : SeverityName.t) :
  isSilentMode settings (SeverityLevel v) = false
  <-> severity settings <> SeverityName.Silent
      /\ (SeverityLevel (severity settings) <= SeverityLevel v)%N.
Proof.
  unfold isSilentMode.
  destruct (severity settings) eqn:E;
    [split; [discriminate | intros [H _]; now contradiction H] | ..];
    rewrite N.ltb_ge;
    (split; [intros H; split; [discriminate|exact H] | intros [_ H]; exact H]).
Qed.

(** *** The segments of a scan *)




(** *** Severity gating *)

Lemma log_calls (format : LogObject -> completion jsstring Exception)
      (h : Host) (settings : Settings) (v : SeverityName.t)
      (level : LevelName.t) (options : LogOptions)
      (r : LogObject) (calls : list TransportCall) :
  Logger.log format h settings (SeverityLevel v) level options = Normal (r, calls) ->
  Logger.build h settings level options = Normal r /\
  ((isSilentMode settings (SeverityLevel v) = true /\ calls = [])
   \/ (isSilentMode settings (SeverityLevel v) = false /\
       exists formatted, format r = Normal formatted /\ calls = [(v, formatted)])).
Proof.
  unfold Logger.log.
  destruct (Logger.build h settings level options) as [o|x]; [|discriminate].
  destruct (isSilentMode settings (SeverityLevel v)).
  - intros [= <- <-]. auto.
  - destruct (format o) as [formatted|x] eqn:Ef; [|discriminate].
    rewrite SeverityNameByLevel_SeverityLevel. intros [= <- <-].
    split; [reflexivity|]. right. split; [reflexivity|]. eauto.
Qed.

Lemma earlier_log_calls (format : LogObject -> completion jsstring Exception)
      (h : Host) (settings : Settings) (v : SeverityName.t)
      (level : LevelName.t) (options : LogOptions)
      (r : LogObject) (calls : list TransportCall) :
  LoggerEarlier.log format h settings (SeverityLevel v) level options
  = Normal (r, calls) ->
  (isSilentMode settings (SeverityLevel v) = true /\ r = initial h /\ calls = [])
  \/ (isSilentMode settings (SeverityLevel v) = false /\
      exists formatted, format r = Normal formatted /\ calls = [(v, formatted)]).
Proof.
  unfold LoggerEarlier.log.
  destruct (isSilentMode settings (SeverityLevel v)).
  - intros [= <- <-]. auto.
  - destruct (LoggerEarlier.new_LogObject _ _ _ _) as [o|x]; [|discriminate].
    destruct (LoggerEarlier.setLogFields _ _ _ _) as [o'|x]; [|discriminate].
    destruct (format _) as [formatted|x] eqn:Ef; [|discriminate].
    rewrite SeverityNameByLevel_SeverityLevel. intros [= <- <-].
    right. split; [reflexivity|]. eauto.
Qed.

(** C3 (as amended).  The severities carry the levels 0 to 4 in the
    order Silent, Debug, Informational, Warning, Error, and distinct
    severities have distinct levels.  The gate [isSilentMode] lets a
    call of severity [v] through exactly when the configured severity
    [s] is not Silent and the level of [v] is at least the level of
    [s].  For a logger of either revision and a log call that returns,
    a transport is called if and only if the gate lets the call
    through; it is then called once, the transport of [v], with the
    formatted record. *)
Theorem severity_gates_transport
        (format : LogObject -> completion jsstring Exception)
        (h : Host) (settings : Settings) (v : SeverityName.t)
        (level : LevelName.t) (options : LogOptions) :
  (SeverityLevel SeverityName.Silent = 0 /\
   SeverityLevel SeverityName.Debug = 1 /\
   SeverityLevel SeverityName.Informational = 2 /\
   SeverityLevel SeverityName.Warning = 3 /\
   SeverityLevel SeverityName.Error = 4)%N /\
  (forall a b, SeverityLevel a = SeverityLevel b -> a = b) /\
  (isSilentMode settings (SeverityLevel v) = false <->
   severity settings <> SeverityName.Silent /\
   (SeverityLevel (severity settings) <= SeverityLevel v)%N) /\
  (forall r calls,
     Logger.log format h settings (SeverityLevel v) level options
     = Normal (r, calls) ->
     (calls <> [] <->
      severity settings <> SeverityName.Silent /\
      (SeverityLevel (severity settings) <= SeverityLevel v)%N) /\
     (calls = [] \/
      exists formatted, format r = Normal formatted /\ calls = [(v, formatted)])) /\
  (forall r calls,
     LoggerEarlier.log format h settings (SeverityLevel v) level options
     = Normal (r, calls) ->
     (calls <> [] <->
      severity settings <> SeverityName.Silent /\
      (SeverityLevel (severity settings) <= SeverityLevel v)%N) /\
     (calls = [] \/
      exists formatted, format r = Normal formatted /\ calls = [(v, formatted)])).
Proof.
  split; [repeat split|].
  split; [intros [] []; simpl; intros H; try reflexivity; discriminate|].
  split; [apply isSilentMode_spec|].
  split; intros r calls H.
  - apply log_calls in H as [_ [[Hs ->]|[Hs (formatted & Hf & ->)]]].
    + split; [|now left]. split; [contradiction|].
      intros Hv. apply isSilentMode_spec in Hv. congruence.
    + split; [|right; eauto]. split; [|discriminate].
      intros _. now apply isSilentMode_spec.
  - apply earlier_log_calls in H as [(Hs & _ & ->)|[Hs (formatted & Hf & ->)]].
    + split; [|now left]. split; [contradiction|].
      intros Hv. apply isSilentMode_spec in Hv. congruence.
    + split; [|right; eauto]. split; [|discriminate].
      intros _. now apply isSilentMode_spec.
Qed.

(** A witness for [severity_gates_transport]: a warning sent to a
    logger configured at Warning reaches the Warning transport. *)
Lemma severity_gates_transport_witness :
  exists r calls,
    Logger.warn
      (PrettyLogger.Logger_format Samples.plain_libs Samples.warning_settings)
      Samples.host Samples.warning_settings (str "disk almost full") []
    = Normal (r, calls) /\
    (calls <> [] <->
     severity Samples.warning_settings <> SeverityName.Silent /\
     (SeverityLevel (severity Samples.warning_settings)
      <= SeverityLevel SeverityName.Warning)%N).
Proof.
  eexists _, _. split.
  - vm_compute. reflexivity.
  - refine (proj1 (proj1 (proj2 (proj2 (proj2
      (severity_gates_transport
         (PrettyLogger.Logger_format Samples.plain_libs Samples.warning_settings)
         Samples.host Samples.warning_settings SeverityName.Warning
         LevelName.Warn
         (mkLogOptions (str "disk almost full") (Some []) U_undefined None None)))))
      _ _ _)).
    vm_compute. reflexivity.
Defined.

(** C3, as stated, fails: a pretty logger configured at Debug with a
    padding of 2 throws a RangeError when [debug] asks for a negative
    number of spaces after the level name, so no transport is called
    although the severity is not Silent and the call's level reaches
    it. *)
Lemma narrow_padding_counterexample :
  Logger.debug
    (PrettyLogger.Logger_format Samples.plain_libs Samples.narrow_settings)
    Samples.host Samples.narrow_settings (str "hello") []
  = Throw RangeError /\
  LoggerEarlier.debug
    (PrettyLogger.Logger_format_earlier Samples.plain_libs Samples.narrow_settings)
    Samples.host Samples.narrow_settings (str "hello") []
  = Throw RangeError /\
  severity Samples.narrow_settings <> SeverityName.Silent /\
  (SeverityLevel (severity Samples.narrow_settings)
   <= SeverityLevel SeverityName.Debug)%N.
Proof. repeat split; [discriminate | vm_compute; discriminate]. Qed.

(** *** The record a call returns *)

Lemma setLogFields_reads_error (h : Host) (level : LevelName.t)
      (logger : jsstring) (o : LogObject) (cs : list ExpandedCallSite)
      (origin : ExpandedCallSite) (file : jsstring) :
  Logger.callsites h
    (if is_Error (priv_error o) then Some (as_Error (priv_error o)) else None)
  = Some (Sites cs) ->
  List.last (map Some cs) None = Some origin ->
  fileName origin = Some file ->
  Logger.setLogFields h level logger o
  = Normal (mkLogObject (priv_error o) (priv_request o) (priv_response o)
              (timestamp o) (base_fields o)
              (mkLog (Some level) logger (columnNumber origin) (lineNumber origin)
                     (substring (lastIndexOf (str "/") file + 1) file) file)
              (error_fields o) (service_fields o) (process_args o) (http_fields o)).
Proof. intros Hc Ho Hf. unfold Logger.setLogFields. now rewrite Hc, Ho, Hf. Qed.

Lemma new_LogObject_fixed (h : Host) (err : unknown) (request : option Request)
      (response : option Response) :
  priv_error (Logger.new_LogObject h err request response) = err
  /\ timestamp (Logger.new_LogObject h err request response) = now h
  /\ error_code (error_fields (Logger.new_LogObject h err request response))
     = (if truthy err then code (as_Error err) else None)
  /\ error_id_ (error_fields (Logger.new_LogObject h err request response))
     = (if truthy err then error_id (as_Error err) else None).
Proof.
  unfold Logger.new_LogObject.
  destruct (truthy err), request, response; repeat split.
Qed.

(** C2 (as amended).  In the current revision a log call builds the
    record before it looks at the severity.  When the stack the call
    reads gives call sites and the last of them has a file name, the
    record is built, with the timestamp, level, logger name, origin,
    message, arguments and service fields set from the call and the
    settings.  A call the severity suppresses returns that record and
    calls no transport; a call that is let through formats the record
    and, when the format returns, hands the result to its transport
    and returns the same record, and when the format throws, throws.
    In the earlier revision a suppressed call returns a record that
    only has the class defaults. *)
Theorem log_returns_populated_record
        (format : LogObject -> completion jsstring Exception)
        (h : Host) (settings : Settings) (sev : N)
        (level : LevelName.t) (options : LogOptions) :
  (forall cs origin file,
     Logger.callsites h
       (if is_Error (opt_error options)
        then Some (as_Error (opt_error options)) else None)
     = Some (Sites cs) ->
     List.last (map Some cs) None = Some origin ->
     fileName origin = Some file ->
     exists o,
       Logger.build h settings level options = Normal o /\
       timestamp o = now h /\
       log_level (log_fields o) = Some level /\
       log_logger (log_fields o) = loggerName settings /\
       log_origin_file_path (log_fields o) = file /\
       log_origin_file_name (log_fields o)
       = substring (lastIndexOf (str "/") file + 1) file /\
       log_origin_file_line (log_fields o) = lineNumber origin /\
       log_origin_file_column (log_fields o) = columnNumber origin /\
       message (base_fields o) = opt_message options /\
       data (base_fields o) = opt_args options /\
       service_fields o
       = mkService (Some (application settings)) (version settings)
                   (Some (environment settings)) (id settings) /\
       (isSilentMode settings sev = true ->
        Logger.log format h settings sev level options = Normal (o, [])) /\
       (isSilentMode settings sev = false ->
        (forall formatted transport,
           format o = Normal formatted ->
           SeverityNameByLevel sev = Some transport ->
           Logger.log format h settings sev level options
           = Normal (o, [(transport, formatted)])) /\
        (forall x,
           format o = Throw x ->
           Logger.log format h settings sev level options = Throw x)) /\
       (forall r calls,
          Logger.log format h settings sev level options = Normal (r, calls) ->
          r = o)) /\
  (isSilentMode settings sev = true ->
   LoggerEarlier.log format h settings sev level options = Normal (initial h, [])).
Proof.
  split.
  - intros cs origin file Hc Ho Hf.
    unfold Logger.log, Logger.build.
    destruct (new_LogObject_fixed h (opt_error options) (opt_request options)
                (opt_response options)) as (Hp & Ht & _).
    rewrite (setLogFields_reads_error h level (loggerName settings) _ cs origin file)
      by (unfold setBaseFields; cbn [priv_error]; try rewrite Hp; assumption).
    eexists. split; [reflexivity|].
    simpl. rewrite Ht.
    repeat (split; [reflexivity|]). split; [|split].
    + intros ->. reflexivity.
    + intros ->. split.
      * intros formatted transport -> ->. reflexivity.
      * intros x ->. reflexivity.
    + intros r calls.
      destruct (isSilentMode settings sev); [now intros [= <- _]|].
      destruct (format _); [|discriminate].
      destruct (SeverityNameByLevel sev); [|discriminate].
      now intros [= <- _].
  - intros Hs. unfold LoggerEarlier.log. now rewrite Hs.
Qed.

(** A witness for [log_returns_populated_record]: a [debug] call on a
    logger configured at Warning. *)
Lemma log_returns_populated_record_witness :
  exists o,
    Logger.debug
      (PrettyLogger.Logger_format Samples.plain_libs Samples.warning_settings)
      Samples.host Samples.warning_settings (str "hello") []
    = Normal (o, []) /\
    message (base_fields o) = str "hello" /\
    log_logger (log_fields o) = str "run".
Proof.
  destruct (proj1 (log_returns_populated_record
              (PrettyLogger.Logger_format Samples.plain_libs Samples.warning_settings)
              Samples.host Samples.warning_settings
              (SeverityLevel SeverityName.Debug) LevelName.Debug
              (mkLogOptions (str "hello") (Some []) U_undefined None None))
            (new_Error_callsites Samples.host)
            (Samples.site "file:///app/main.ts" 10 0)
            (str "file:///app/main.ts") eq_refl eq_refl eq_refl)
    as (o & _ & _ & _ & Hl & _ & _ & _ & _ & Hm & _ & _ & Hs & _).
  exists o. split; [exact (Hs eq_refl)|]. split; [exact Hm | exact Hl].
Defined.

(** C2, as stated, fails in the earlier revision: [debug("hello")] on
    a logger configured at Warning returns a record with an empty
    message, no level, the logger name "unknown", no origin and no
    service fields. *)
Lemma earlier_debug_returns_blank_record :
  exists o,
    LoggerEarlier.debug
      (PrettyLogger.Logger_format_earlier Samples.plain_libs Samples.warning_settings)
      Samples.host Samples.warning_settings (str "hello") []
    = Normal (o, []) /\
    message (base_fields o) = [] /\
    log_level (log_fields o) = None /\
    log_logger (log_fields o) = str "unknown" /\
    log_origin_file_path (log_fields o) = [] /\
    service_fields o = mkService None None None None.
Proof. eexists. repeat split. Qed.

(** *** Error fields *)

(** C8 (as amended).  In the current revision the record built from
    any error object carries the object's [code] and [id] on
    [error.code] and [error.id], also through a log call.  In the
    earlier revision that holds for objects that are not instances of
    [Error]; for an instance [error.id] is the error's name and
    [error.code] is left unset. *)
Theorem error_code_and_id_carried
        (h : Host) (e : ErrorLike) (request : option Request)
        (response : option Response) (settings : Settings)
        (level : LevelName.t) (options : LogOptions) :
  (error_code (error_fields (Logger.new_LogObject h (U_object e) request response))
   = code e /\
   error_id_ (error_fields (Logger.new_LogObject h (U_object e) request response))
   = error_id e) /\
  (forall o,
     opt_error options = U_object e ->
     Logger.build h settings level options = Normal o ->
     error_code (error_fields o) = code e /\ error_id_ (error_fields o) = error_id e) /\
  (forall o,
     LoggerEarlier.new_LogObject h (U_object e) request response = Normal o ->
     (instanceof_Error e = false ->
      error_code (error_fields o) = code e /\ error_id_ (error_fields o) = error_id e) /\
     (instanceof_Error e = true ->
      error_code (error_fields o) = None /\ error_id_ (error_fields o) = name e)).
Proof.
  split; [|split].
  - destruct (new_LogObject_fixed h (U_object e) request response) as (_ & _ & Hc & Hi).
    now split.
  - intros o He. unfold Logger.build. rewrite He.
    destruct (new_LogObject_fixed h (U_object e) (opt_request options)
                (opt_response options)) as (_ & _ & Hc & Hi).
    unfold Logger.setLogFields.
    destruct (Logger.callsites _ _) as [[cs|t]|]; try discriminate.
    destruct (List.last _ None) as [origin|]; [|discriminate].
    destruct (fileName origin); [|discriminate].
    intros [= <-]. simpl. now split.
  - intros o. unfold LoggerEarlier.new_LogObject, LoggerEarlier.setErrorFields.
    cbn [truthy is_Error as_Error].
    destruct (instanceof_Error e).
    + destruct (LoggerEarlier.getStackTrace h (LoggerEarlier.Given e));
        [|discriminate].
      intros [= <-]. split; [discriminate|]. intros _.
      destruct request, response; now split.
    + destruct (LoggerEarlier.getStackTrace h (LoggerEarlier.Default _));
        [|discriminate].
      destruct (LoggerEarlier.getStackTrace h (LoggerEarlier.Default _));
        [|discriminate].
      intros [= <-]. split; [|discriminate]. intros _.
      destruct request, response; now split.
Qed.

(** A witness for [error_code_and_id_carried]: the record of
    [logger.error("failed", error)] in the current revision. *)
Lemma error_code_and_id_carried_witness :
  exists o,
    Logger.build Samples.host Samples.warning_settings LevelName.Error
      (mkLogOptions (str "failed") (Some [U_object Samples.oops])
                    (U_object Samples.oops) None None)
    = Normal o /\
    error_code (error_fields o) = Some (str "1234") /\
    error_id_ (error_fields o) = Some (str "abcd-efgh").
Proof.
  eexists. split; [vm_compute; reflexivity|].
  refine (proj1 (proj2
    (error_code_and_id_carried Samples.host Samples.oops None None
       Samples.warning_settings LevelName.Error
       (mkLogOptions (str "failed") (Some [U_object Samples.oops])
                     (U_object Samples.oops) None None)))
    _ eq_refl _).
  vm_compute. reflexivity.
Defined.

(** C8, as stated, fails in the earlier revision: for
    [new Error("Oops!")] with [code = "1234"] and [id = "abcd-efgh"]
    the record has no [error.code] and its [error.id] is ["Error"]. *)
Lemma earlier_error_fields_counterexample :
  exists o,
    LoggerEarlier.new_LogObject Samples.host (U_object Samples.oops) None None
    = Normal o /\
    instanceof_Error Samples.oops = true /\
    code Samples.oops = Some (str "1234") /\
    error_id Samples.oops = Some (str "abcd-efgh") /\
    error_code (error_fields o) = None /\
    error_id_ (error_fields o) = Some (str "Error").
Proof. eexists. repeat split. Qed.

(** The tests of the current revision: [new LogObject(error)]. *)
Example current_error_fields :
  error_code (error_fields
    (Logger.new_LogObject Samples.host (U_object Samples.oops) None None))
  = Some (str "1234") /\
  error_id_ (error_fields
    (Logger.new_LogObject Samples.host (U_object Samples.oops) None None))
  = Some (str "abcd-efgh").
Proof. split; reflexivity. Qed.

(** *** Pretty substitution *)

Import PrettyLogger.






(** **** A falsy placeholder survives the scan *)
















End LoggerFacts.

(** ** Command discovery *)
Module RunFacts.
Import JS Command.

(** C1 (as amended).  When listing the scripts directory fails, the
    guarded entry point continues with no local path: the modules
    imported are the built-in default ones alone, and when they load
    the root command registers the command descriptors they export,
    which need not be none, and parses the arguments if it is the main
    module; it aborts only if a default module fails to load.  The
    unguarded entry point of bin/run.ts aborts. *)
Theorem listing_failure_keeps_defaults (h : Host) :
  (walkSync h (Run.BIN_DIR h) (mkWalkOptions false [str "^_"]) = Throw tt ->
   Run.localPaths h = [] /\
   Run.subcommands h = discover h Run.defaultPaths /\
   (forall modules,
      map_throw (getAllModuleImports h) Run.defaultPaths = Normal modules ->
      Run.main h
      = Ready (registerSubcommands
                 (map (fun v => toCliffy (as_options v))
                      (filter isCommandOptions (List.concat modules))))
              (if import_meta_main h then Some (Deno_args h) else None)) /\
   ((exists e, map_throw (getAllModuleImports h) Run.defaultPaths = Throw e) ->
    Run.main h = Aborted)) /\
  (walkSync h (RunEarlier.BIN_DIR h) (mkWalkOptions false []) = Throw tt ->
   RunEarlier.main h = Aborted).
Proof.
  split.
  - intros Hw.
    assert (Hl : Run.localPaths h = []).
    { unfold Run.localPaths, tryCatch, getLocalPaths. now rewrite Hw. }
    split; [exact Hl|].
    assert (Hs : Run.subcommands h = discover h Run.defaultPaths).
    { unfold Run.subcommands. now rewrite Hl. }
    split; [exact Hs|]. split.
    + intros modules Hm. unfold Run.main. rewrite Hs. unfold discover.
      now rewrite Hm.
    + intros [e He]. unfold Run.main. rewrite Hs. unfold discover.
      now rewrite He.
  - intros Hw. unfold RunEarlier.main, RunEarlier.subcommands, getLocalPaths.
    now rewrite Hw.
Qed.

(** A witness for [listing_failure_keeps_defaults]. *)
Lemma listing_failure_keeps_defaults_witness :
  Run.localPaths Samples.no_bin_directory = [] /\
  RunEarlier.main Samples.no_bin_directory = Aborted.
Proof.
  split.
  - exact (proj1 (proj1 (listing_failure_keeps_defaults Samples.no_bin_directory)
                    eq_refl)).
  - exact (proj2 (listing_failure_keeps_defaults Samples.no_bin_directory) eq_refl).
Defined.

(** C1, as stated, fails: with no scripts directory the guarded entry
    point still discovers the [init-deno] command of the default
    module, so the list of subcommands is not empty; and the entry
    point of bin/run.ts does not survive the failed listing. *)
Lemma discovery_not_empty_counterexample :
  walkSync Samples.no_bin_directory (Run.BIN_DIR Samples.no_bin_directory)
           (mkWalkOptions false [str "^_"])
  = Throw tt /\
  Run.subcommands Samples.no_bin_directory
  = Normal [mkCliffy (str "init-deno") (str "Initiates a Deno project.") []
                     [str "<path:string>"] (str "action")] /\
  Run.subcommands Samples.no_bin_directory <> Normal [] /\
  RunEarlier.main Samples.no_bin_directory = Aborted.
Proof. repeat split. discriminate. Qed.

End RunFacts.

(** ** String replacement as the template loop uses it *)
Module ReplaceFacts.
Import JS JSFacts.

#[local] Arguments N.eqb : simpl never.

(** A replacement text without [$] stands for itself. *)
Lemma GetSubstitution_plain (matched before after v : jsstring) :
  ~ In dollar v -> GetSubstitution matched before after v = v.
Proof.
  induction v as [|c r IH]; intros Hd; [reflexivity|].
  assert (Hc : (c =? dollar)%N = false).
  { apply N.eqb_neq. intros ->. apply Hd. now left. }
  assert (Hr : ~ In dollar r) by (intros H; apply Hd; now right).
  cbn [GetSubstitution]. rewrite Hc. now rewrite (IH Hr).
Qed.

(** The scan of [replaceAll] and the scan of [split] walk the string in
    step: when every match is replaced by the same text [w], the result
    is the pieces joined by [w]. *)
Lemma replaceAll_from_join (pat v w : jsstring) :
  (forall before after, GetSubstitution pat before after v = w) ->
  forall s cur skip before,
    join w (split_from pat cur skip s)
    = rev cur ++ replaceAll_from pat v before skip s.
Proof.
  intros Hw. induction s as [|c r IH]; intros cur skip before.
  - cbn. now rewrite app_nil_r.
  - destruct skip as [|k].
    + cbn [split_from replaceAll_from].
      destruct (startsWith pat (c :: r)).
      * rewrite GitFacts.join_cons by apply GitFacts.split_from_nonempty.
        rewrite (IH [] _ (before ++ [c])). rewrite Hw. reflexivity.
      * rewrite (IH (c :: cur) 0 (before ++ [c])). cbn [rev].
        now rewrite <- app_assoc.
    + cbn [split_from replaceAll_from]. apply IH.
Qed.

Lemma replaceAll_join_split (pat v w s : jsstring) :
  pat <> [] ->
  (forall before after, GetSubstitution pat before after v = w) ->
  replaceAll pat v s = join w (split pat s).
Proof.
  intros Hp Hw. destruct pat as [|p pat']; [congruence|].
  unfold replaceAll, split.
  now rewrite (replaceAll_from_join (p :: pat') v w Hw s [] 0 []).
Qed.

(** A search string that does not occur leaves the string as it is. *)
Lemma replaceAll_from_absent (pat v : jsstring) :
  forall s before,
    includes pat s = false -> replaceAll_from pat v before 0 s = s.
Proof.
  induction s as [|c r IH]; intros before H; [reflexivity|].
  cbn [includes] in H. apply orb_false_iff in H. destruct H as [H1 H2].
  cbn [replaceAll_from]. rewrite H1. now rewrite IH.
Qed.

Lemma replaceAll_absent (pat v s : jsstring) :
  pat <> [] -> includes pat s = false -> replaceAll pat v s = s.
Proof.
  intros Hp H. destruct pat as [|p pat']; [congruence|].
  apply replaceAll_from_absent, H.
Qed.

Lemma includes_false_split (pat s : jsstring) :
  includes pat s = false <->
  (forall a b, s = a ++ b -> startsWith pat b = false).
Proof.
  split.
  - revert pat. induction s as [|c r IH]; intros pat H a b E.
    + destruct a; [|discriminate]. cbn in E. subst b.
      cbn [includes] in H. now apply orb_false_iff in H.
    + cbn [includes] in H. apply orb_false_iff in H. destruct H as [H1 H2].
      destruct a as [|x a'].
      * cbn in E. now subst b.
      * injection E as _ E. exact (IH pat H2 a' b E).
  - intros H. induction s as [|c r IH].
    + cbn [includes]. now rewrite (H [] [] eq_refl).
    + cbn [includes]. rewrite (H [] (c :: r) eq_refl). cbn.
      apply IH. intros a b ->. exact (H (c :: a) b eq_refl).
Qed.

(** Assigning a property adds at most its own key. *)
Lemma keys_overwrite (V : Type) (k : jsstring) (v : V) (o : object V) :
  keys (overwrite k v o) = keys o.
Proof.
  induction o as [|[k' v'] o IH]; [reflexivity|].
  cbn [overwrite]. destruct (eqb k k'); [reflexivity|].
  unfold keys in *. cbn [map fst]. now rewrite IH.
Qed.

Lemma keys_insert_index (V : Type) (n : N) (k : jsstring) (v : V) (o : object V) :
  forall k', In k' (keys (insert_index n k v o)) -> k' = k \/ In k' (keys o).
Proof.
  induction o as [|[k1 v1] o IH]; intros k' H.
  - cbn in H. destruct H as [H|[]]. now left.
  - cbn [insert_index] in H.
    destruct (array_index k1) as [n1|].
    + destruct (n <? n1)%N.
      * cbn in H. destruct H as [H|H]; [now left|now right].
      * cbn in H. destruct H as [H|H]; [right; now left|].
        destruct (IH k' H) as [E|E]; [now left|right; now right].
    + cbn in H. destruct H as [H|H]; [now left|now right].
Qed.

Lemma keys_set (V : Type) (k : jsstring) (v : V) (o : object V) :
  forall k', In k' (keys (set k v o)) -> k' = k \/ In k' (keys o).
Proof.
  intros k' H. unfold set in H. destruct (hasOwn o k).
  - rewrite keys_overwrite in H. now right.
  - destruct (array_index k) as [n|].
    + exact (keys_insert_index V n k v o k' H).
    + unfold keys in H. rewrite map_app in H. apply in_app_or in H.
      destruct H as [H|[H|[]]]; [now right|now left].
Qed.

End ReplaceFacts.

(** ** tools/template.ts: what rendering does with its replacements *)
Module TemplateLaws.
Import JS JSFacts ReplaceFacts Template Vocabulary.

#[local] Arguments N.eqb : simpl never.

Lemma placeholder_nonempty (k : jsstring) : placeholder k <> [].
Proof. discriminate. Qed.

Lemma keys_fold_set (record other : Replacements) :
  forall k,
    In k (keys (fold_left (fun o kv => set (fst kv) (snd kv) o) other record)) ->
    In k (keys record) \/ In k (keys other).
Proof.
  revert record.
  induction other as [|[k1 v1] other IH]; intros record k H.
  - now left.
  - cbn [fold_left] in H. destruct (IH _ k H) as [H1|H1].
    + cbn [fst snd] in H1. destruct (keys_set _ k1 v1 record k H1) as [->|H2].
      * right. now left.
      * now left.
    + right. now right.
Qed.

Lemma keys_mergeable (record : Replacements) (k : jsstring) :
  In k (keys (mergeable record)) -> In k (keys record).
Proof.
  unfold keys, mergeable. rewrite !in_map_iff.
  intros (kv & E & Hin). apply filter_In in Hin as [Hin _]. eauto.
Qed.

Lemma keys_deepMerge (record other : Replacements) :
  forall k, In k (keys (deepMerge record other)) ->
            In k (keys record) \/ In k (keys other).
Proof.
  intros k H. unfold deepMerge in H.
  destruct (keys_fold_set _ _ k H) as [H1|H1]; [left|right];
    exact (keys_mergeable _ k H1).
Qed.

(** The loop of [#render] changes nothing when no key's placeholder
    occurs. *)
Lemma substitute_absent (rep : Replacements) :
  forall s,
    (forall k, In k (keys rep) -> includes (placeholder k) s = false) ->
    substitute rep s = s.
Proof.
  unfold substitute. induction rep as [|[k v] rep IH]; intros s H; [reflexivity|].
  cbn [fold_left fst snd].
  rewrite (replaceAll_absent (placeholder k) v s (placeholder_nonempty k)).
  - apply IH. intros k' Hk'. apply H. now right.
  - apply H. now left.
Qed.

Lemma trim_fixed (s : jsstring) : trim s = s -> trim (trim s) = s.
Proof. intros H. now rewrite !H. Qed.

Lemma matchable_spec (k : jsstring) :
  matchable k = true ->
  k <> [] /\ Forall (fun c => isLineTerminator c = false) k.
Proof.
  unfold matchable. intros H. apply andb_true_iff in H. destruct H as [H1 H2].
  split; [now destruct k|].
  rewrite forallb_forall in H2. apply Forall_forall. intros c Hc.
  specialize (H2 c Hc). now apply negb_true_iff in H2.
Qed.

Lemma placeholder_occurrence (k s : jsstring) :
  matchable k = true -> includes (placeholder k) s = true -> has_placeholder s.
Proof.
  intros Hk H. destruct (matchable_spec k Hk) as [Hne Hlt].
  destruct (GitFacts.includes_true _ _ H) as (a & b & -> & Hb).
  apply startsWith_true in Hb. destruct Hb as [rest ->].
  exists a, k, rest. repeat split; trivial.
  unfold placeholder. cbn. now rewrite <- app_assoc.
Qed.

Lemma render_normal_inv (tpl : t) (reps : Replacements) (r : jsstring) :
  render tpl reps = Normal r ->
  r = render_ tpl reps true /\ matchAll r = [].
Proof.
  unfold render, validate. intros H.
  destruct (matchAll (render_ tpl reps true)) as [|m ms] eqn:E; cbn in H.
  - injection H as <-. now split.
  - discriminate.
Qed.

(** X1.  What [render] returns is inert: rendered again as a template
    of its own, with any replacements whose names the placeholder
    expression can match (non-empty, no line terminator), it comes back
    unchanged and is accepted. *)
Theorem rendered_string_is_inert
        (tpl : t) (reps again : Replacements) (r : jsstring) :
  render tpl reps = Normal r ->
  forallb matchable (keys again) = true ->
  render (new r None) again = Normal r.
Proof.
  intros Hr Hk. destruct (render_normal_inv tpl reps r Hr) as [Er Hm].
  assert (Hnp : ~ has_placeholder r) by now apply TemplateFacts.matchAll_nil_iff.
  assert (Ht : trim r = r).
  { rewrite Er. unfold render_. apply trim_idem. }
  assert (Hs : substitute (deepMerge [] again) r = r).
  { apply substitute_absent. intros k Hin.
    destruct (keys_deepMerge [] again k Hin) as [[]|Hin'].
    rewrite forallb_forall in Hk. specialize (Hk k Hin').
    destruct (includes (placeholder k) r) eqn:E; [|reflexivity].
    exfalso. apply Hnp. exact (placeholder_occurrence k r Hk E). }
  unfold render, validate, render_, new. cbn [value replacements].
  rewrite Hs, Ht, Hm. reflexivity.
Qed.

Lemma rendered_string_is_inert_witness :
  render (new (str "Hello World!") None) (literal [(str "name", str "X")])
  = Normal (str "Hello World!").
Proof.
  apply (rendered_string_is_inert
           (new (str "Hello {name}!") None)
           (literal [(str "name", str "World")])
           (literal [(str "name", str "X")])
           (str "Hello World!")).
  - vm_compute. reflexivity.
  - vm_compute. reflexivity.
Defined.

(** X2.  Replacements for names whose placeholder does not occur in the
    template are ignored: the partial render is the trimmed template,
    and so is the text [render] examines when the defaults do not occur
    either. *)
Theorem absent_names_are_ignored (tpl : t) (reps : Replacements) :
  forallb (fun k => negb (includes (placeholder k) (value tpl))) (keys reps) = true ->
  value (partialRender tpl reps) = trim (value tpl) /\
  (forallb (fun k => negb (includes (placeholder k) (value tpl)))
           (keys (replacements tpl)) = true ->
   render_ tpl reps true = trim (value tpl)).
Proof.
  intros H. rewrite forallb_forall in H. split.
  - unfold partialRender, new, render_. cbn [value].
    rewrite substitute_absent; [reflexivity|].
    intros k Hk. specialize (H k Hk). now apply negb_true_iff in H.
  - intros Hd. rewrite forallb_forall in Hd. unfold render_.
    rewrite substitute_absent; [reflexivity|].
    intros k Hk. destruct (keys_deepMerge _ _ k Hk) as [Hk'|Hk'].
    + specialize (Hd k Hk'). now apply negb_true_iff in Hd.
    + specialize (H k Hk'). now apply negb_true_iff in H.
Qed.

Lemma absent_names_are_ignored_witness :
  value (partialRender (new (str " Hello {name}! ") None)
                       (literal [(str "nam", str "X"); (str "Name", str "Y")]))
  = str "Hello {name}!".
Proof.
  exact (proj1 (absent_names_are_ignored
                  (new (str " Hello {name}! ") None)
                  (literal [(str "nam", str "X"); (str "Name", str "Y")])
                  eq_refl)).
Defined.

(** X3.  With one replacement whose value holds no [$], rendering the
    name [k] cuts the template at every [{k}] and joins the pieces with
    the value: the value is inserted as it is, once per occurrence, and
    the text between the occurrences is untouched. *)
Theorem plain_value_joins_the_pieces (tpl : t) (k v : jsstring) :
  forallb (fun c => negb (c =? dollar)%N) v = true ->
  value (partialRender tpl [(k, v)])
  = trim (join v (split (placeholder k) (value tpl))) /\
  join (placeholder k) (split (placeholder k) (value tpl)) = value tpl /\
  Forall (fun piece => includes (placeholder k) piece = false)
         (split (placeholder k) (value tpl)).
Proof.
  intros Hv.
  assert (Hd : ~ In dollar v).
  { intros Hin. rewrite forallb_forall in Hv. specialize (Hv _ Hin).
    now rewrite N.eqb_refl in Hv. }
  split; [|split].
  - unfold partialRender, new, render_, substitute. cbn [value fold_left fst snd].
    rewrite (replaceAll_join_split (placeholder k) v v (value tpl)
               (placeholder_nonempty k)); [reflexivity|].
    intros before after. now apply GetSubstitution_plain.
  - apply GitFacts.split_join, placeholder_nonempty.
  - apply GitFacts.split_pieces_clean, placeholder_nonempty.
Qed.

Lemma plain_value_joins_the_pieces_witness :
  value (partialRender (new (str "{a}-{b}-{a}") None) [(str "a", str "1")])
  = trim (join (str "1") (split (placeholder (str "a")) (str "{a}-{b}-{a}"))).
Proof.
  exact (proj1 (plain_value_joins_the_pieces
                  (new (str "{a}-{b}-{a}") None) (str "a") (str "1") eq_refl)).
Defined.

(** X4.  A replacement value is read as a replacement pattern, not as
    plain text: the value [$&] puts every placeholder back, so the
    template is only trimmed and [render] rejects it when the name can
    be matched and occurs; the value [$$] inserts a single [$]. *)
Theorem dollar_values_are_patterns (tpl : t) (k : jsstring) :
  value (partialRender tpl [(k, str "$&")]) = trim (value tpl) /\
  value (partialRender tpl [(k, str "$$")])
  = trim (join (str "$") (split (placeholder k) (value tpl))) /\
  (replacements tpl = [] -> matchable k = true ->
   includes (placeholder k) (value tpl) = true ->
   exists e, render tpl [(k, str "$&")] = Throw e).
Proof.
  assert (H1 : substitute [(k, str "$&")] (value tpl) = value tpl).
  { unfold substitute. cbn [fold_left fst snd].
    rewrite (replaceAll_join_split (placeholder k) (str "$&") (placeholder k)
               (value tpl) (placeholder_nonempty k)).
    - apply GitFacts.split_join, placeholder_nonempty.
    - intros before after. cbn. now rewrite app_nil_r. }
  split; [|split].
  - unfold partialRender, new, render_. cbn [value]. now rewrite H1.
  - unfold partialRender, new, render_, substitute. cbn [value fold_left fst snd].
    rewrite (replaceAll_join_split (placeholder k) (str "$$") (str "$")
               (value tpl) (placeholder_nonempty k)); [reflexivity|].
    intros before after. reflexivity.
  - intros Hd Hk Hin.
    assert (Hr : render_ tpl [(k, str "$&")] true = trim (value tpl)).
    { unfold render_. rewrite Hd. unfold deepMerge, mergeable.
      cbn [filter fst].
      destruct (negb (eqb k (str "__proto__"))); [|reflexivity].
      assert (E : fold_left (fun o kv => set (fst kv) (snd kv) o)
                            [(k, str "$&")] ([] : Replacements)
                  = [(k, str "$&")]).
      { cbn [fold_left fst snd]. unfold set. cbn.
        destruct (array_index k); reflexivity. }
      now rewrite E, H1. }
    assert (Hp : has_placeholder (trim (value tpl))).
    { destruct (matchable_spec k Hk) as [Hne Hlt].
      destruct (TemplateFacts.trim_keeps k (value tpl)) as (pre & post & E).
      - destruct (GitFacts.includes_true _ _ Hin) as (a & b & -> & Hb).
        apply startsWith_true in Hb. destruct Hb as [rest ->].
        now exists a, rest.
      - exists pre, k, post. repeat split; trivial.
        rewrite E. unfold placeholder. cbn. now rewrite <- app_assoc. }
    unfold render, validate. rewrite Hr.
    destruct (matchAll (trim (value tpl))) as [|m ms] eqn:E.
    + exfalso. now apply (TemplateFacts.matchAll_nil_iff (trim (value tpl))).
    + cbn. eexists. reflexivity.
Qed.

Lemma dollar_values_are_patterns_witness :
  exists e, render (new (str "Total: {price}") None) [(str "price", str "$&")]
            = Throw e.
Proof.
  exact (proj2 (proj2 (dollar_values_are_patterns
                         (new (str "Total: {price}") None) (str "price")))
               eq_refl eq_refl eq_refl).
Defined.

(** *** Partial renders, one after the other *)

Lemma trimStart_decompose (x : jsstring) :
  exists ws, x = ws ++ trimStart x /\ forallb isTrimmable ws = true.
Proof.
  induction x as [|c x (ws & E & H)]; [now exists []|].
  cbn [trimStart]. destruct (isTrimmable c) eqn:Ec.
  - exists (c :: ws). cbn [app forallb]. rewrite Ec, H. split; [|reflexivity].
    now rewrite <- E.
  - now exists [].
Qed.

Lemma forallb_rev (A : Type) (f : A -> bool) (l : list A) :
  forallb f l = true -> forallb f (rev l) = true.
Proof.
  rewrite !forallb_forall. intros H x Hx. apply H. now apply in_rev.
Qed.

Lemma trim_decompose (x : jsstring) :
  exists ws1 ws2,
    x = ws1 ++ trim x ++ ws2 /\
    forallb isTrimmable ws1 = true /\ forallb isTrimmable ws2 = true.
Proof.
  destruct (trimStart_decompose x) as (ws1 & E1 & H1).
  destruct (trimStart_decompose (rev (trimStart x))) as (ws2 & E2 & H2).
  exists ws1, (rev ws2). repeat split; [|exact H1|now apply forallb_rev].
  unfold trim, trimEnd. rewrite <- rev_app_distr, <- E2, rev_involutive.
  exact E1.
Qed.

Lemma trimStart_pad (ws s : jsstring) :
  forallb isTrimmable ws = true -> trimStart (ws ++ s) = trimStart s.
Proof.
  induction ws as [|w ws IH]; intros H; [reflexivity|].
  cbn [forallb] in H. apply andb_true_iff in H. destruct H as [Hw H].
  cbn [app trimStart]. rewrite Hw. now apply IH.
Qed.

Lemma trimEnd_pad (s ws : jsstring) :
  forallb isTrimmable ws = true -> trimEnd (s ++ ws) = trimEnd s.
Proof.
  intros H. unfold trimEnd. rewrite rev_app_distr.
  now rewrite (trimStart_pad (rev ws) (rev s) (forallb_rev _ _ _ H)).
Qed.

Lemma trimStart_app_pad (z ws : jsstring) :
  forallb isTrimmable ws = true ->
  exists ws', trimStart (z ++ ws) = trimStart z ++ ws'
              /\ forallb isTrimmable ws' = true.
Proof.
  intros H. induction z as [|c z (ws' & E & H')].
  - exists []. cbn [app trimStart]. split; [|reflexivity].
    rewrite <- (app_nil_r ws). now rewrite (trimStart_pad ws [] H).
  - cbn [app trimStart]. destruct (isTrimmable c).
    + now exists ws'.
    + now exists ws.
Qed.

Lemma trim_pad (ws1 z ws2 : jsstring) :
  forallb isTrimmable ws1 = true -> forallb isTrimmable ws2 = true ->
  trim (ws1 ++ z ++ ws2) = trim z.
Proof.
  intros H1 H2. unfold trim. rewrite (trimStart_pad ws1 _ H1).
  destruct (trimStart_app_pad z ws2 H2) as (ws' & -> & H').
  now apply trimEnd_pad.
Qed.

Lemma trimmable_not_brace (w : code_unit) :
  isTrimmable w = true -> (lbrace =? w)%N = false /\ w <> rbrace.
Proof.
  intros H. split.
  - destruct (lbrace =? w)%N eqn:E; [|reflexivity].
    apply N.eqb_eq in E. subst w. discriminate.
  - intros ->. discriminate.
Qed.

Section PlainValue.
Variables k v : jsstring.
Hypothesis plain : ~ In dollar v.

Let pat := placeholder k.

Lemma replaceAll_from_before :
  forall s skip b b',
    replaceAll_from pat v b skip s = replaceAll_from pat v b' skip s.
Proof.
  induction s as [|c s IH]; intros skip b b'; [reflexivity|].
  destruct skip as [|n]; cbn [replaceAll_from]; [|apply IH].
  destruct (startsWith pat (c :: s)).
  - rewrite !(GetSubstitution_plain _ _ _ v plain). f_equal. apply IH.
  - f_equal. apply IH.
Qed.

Lemma replaceAll_from_pad_left :
  forall ws b s,
    forallb isTrimmable ws = true ->
    replaceAll_from pat v b 0 (ws ++ s) = ws ++ replaceAll_from pat v b 0 s.
Proof.
  induction ws as [|w ws IH]; intros b s H; [reflexivity|].
  cbn [forallb] in H. apply andb_true_iff in H. destruct H as [Hw H].
  cbn [app replaceAll_from]. unfold pat, placeholder. cbn [startsWith].
  rewrite (proj1 (trimmable_not_brace w Hw)). cbn [andb]. f_equal.
  fold (placeholder k). fold pat. rewrite (IH _ s H).
  f_equal. apply replaceAll_from_before.
Qed.

Lemma starts_within (c ws : jsstring) :
  forallb isTrimmable ws = true ->
  startsWith pat (c ++ ws) = true -> startsWith pat c = true.
Proof.
  intros H Hs. apply startsWith_true in Hs. destruct Hs as [rest E].
  unfold pat, placeholder in E.
  change ((lbrace :: k ++ [rbrace]) ++ rest)
    with ((lbrace :: k ++ [rbrace]) ++ rest) in E.
  assert (E' : c ++ ws = (lbrace :: k) ++ rbrace :: rest).
  { rewrite E. cbn [app]. now rewrite <- app_assoc. }
  apply app_eq_app in E'. destruct E' as (l & [[E1 E2]|[E1 E2]]).
  - destruct l as [|x l].
    + exfalso. cbn in E2. rewrite <- E2 in H. cbn [forallb] in H.
      apply andb_true_iff in H. destruct H as [H _]. discriminate.
    + cbn [app] in E2. injection E2 as <- E2.
      apply startsWith_true. exists l. rewrite E1. unfold pat, placeholder.
      cbn [app]. now rewrite <- app_assoc.
  - exfalso. rewrite E2 in H. rewrite forallb_app in H.
    apply andb_true_iff in H. destruct H as [_ H]. cbn [forallb] in H.
    apply andb_true_iff in H. destruct H as [H _]. discriminate.
Qed.

Lemma replaceAll_from_pad_right :
  forall c skip b ws,
    skip <= List.length c -> forallb isTrimmable ws = true ->
    replaceAll_from pat v b skip (c ++ ws)
    = replaceAll_from pat v b skip c ++ ws.
Proof.
  induction c as [|x c IH]; intros skip b ws Hl H.
  - assert (skip = 0) by (cbn in Hl; lia). subst skip. cbn [app].
    rewrite <- (app_nil_r ws) at 1.
    rewrite (replaceAll_from_pad_left ws b [] H). cbn. now rewrite app_nil_r.
  - destruct skip as [|n].
    + cbn [app replaceAll_from].
      destruct (startsWith pat (x :: c)) eqn:E.
      * assert (E' : startsWith pat (x :: c ++ ws) = true)
          by exact (GitFacts.startsWith_app_r pat (x :: c) ws E).
        rewrite E'. rewrite !(GetSubstitution_plain _ _ _ v plain).
        rewrite <- app_assoc. f_equal. apply IH; [|exact H].
        apply startsWith_true in E. destruct E as [rest E].
        apply (f_equal (@List.length code_unit)) in E.
        rewrite length_app in E. cbn [List.length] in E. lia.
      * assert (E' : startsWith pat (x :: c ++ ws) = false).
        { destruct (startsWith pat (x :: c ++ ws)) eqn:E'; [|reflexivity].
          rewrite (starts_within (x :: c) ws H E') in E. discriminate. }
        rewrite E'. cbn [app]. f_equal. apply IH; [lia|exact H].
    + cbn [app replaceAll_from]. apply IH; [cbn in Hl; lia|exact H].
Qed.

Lemma replaceAll_pad (ws1 c ws2 : jsstring) :
  forallb isTrimmable ws1 = true -> forallb isTrimmable ws2 = true ->
  replaceAll pat v (ws1 ++ c ++ ws2) = ws1 ++ replaceAll pat v c ++ ws2.
Proof.
  intros H1 H2. unfold replaceAll, pat, placeholder. fold (placeholder k). fold pat.
  rewrite (replaceAll_from_pad_left ws1 [] (c ++ ws2) H1).
  now rewrite (replaceAll_from_pad_right c 0 [] ws2 (Nat.le_0_l _) H2).
Qed.

Lemma replaceAll_trim (x y : jsstring) :
  trim x = trim y -> trim (replaceAll pat v x) = trim (replaceAll pat v y).
Proof.
  intros E.
  destruct (trim_decompose x) as (a1 & a2 & Ex & Ha1 & Ha2).
  destruct (trim_decompose y) as (b1 & b2 & Ey & Hb1 & Hb2).
  rewrite Ex, Ey, E.
  rewrite (replaceAll_pad a1 (trim y) a2 Ha1 Ha2).
  rewrite (replaceAll_pad b1 (trim y) b2 Hb1 Hb2).
  now rewrite !trim_pad.
Qed.
End PlainValue.

Lemma substitute_trim (rep : Replacements) :
  forallb (fun kv => forallb (fun c => negb (c =? dollar)%N) (snd kv)) rep = true ->
  forall x y, trim x = trim y -> trim (substitute rep x) = trim (substitute rep y).
Proof.
  unfold substitute. induction rep as [|[k v] rep IH]; intros H x y E; [exact E|].
  cbn [forallb snd] in H. apply andb_true_iff in H. destruct H as [Hv H].
  cbn [fold_left fst snd]. apply (IH H). apply replaceAll_trim; [|exact E].
  intros Hin. rewrite forallb_forall in Hv. specialize (Hv _ Hin).
  now rewrite N.eqb_refl in Hv.
Qed.

(** X25.  Partial renders compose.  Take two objects of replacements
    whose merge [{ ...first, ...second }] lists the entries of the
    first and then those of the second: they share no name, and no
    array-index name of the second sorts before a name of the first.
    Rendering the first and then, on the result, the second, whose
    values hold no [$], gives the same template as rendering the
    merge: the same text, and the same defaults left. *)
Theorem partial_renders_compose (tpl : t) (first second : Replacements) :
  forallb (fun kv => forallb (fun c => negb (c =? dollar)%N) (snd kv)) second = true ->
  literal (first ++ second) = first ++ second ->
  partialRender (partialRender tpl first) second
  = partialRender tpl (literal (first ++ second)).
Proof.
  intros H ->. unfold partialRender, new, render_, filterKeys.
  cbn [value replacements]. f_equal.
  - unfold substitute at 3. rewrite fold_left_app.
    fold (substitute first (value tpl)).
    fold (substitute second (substitute first (value tpl))).
    apply (substitute_trim second H). apply trim_idem.
  - induction (replacements tpl) as [|[k0 v0] l IH]; [reflexivity|].
    cbn [filter fst].
    assert (E : has_property k0 (first ++ second)
                = has_property k0 first || has_property k0 second).
    { unfold has_property, hasOwn. rewrite existsb_app.
      destruct (existsb (fun kv => eqb k0 (fst kv)) first),
               (existsb (fun kv => eqb k0 (fst kv)) second),
               (existsb (eqb k0) Object_prototype_names); reflexivity. }
    rewrite E. destruct (has_property k0 first); cbn [negb orb].
    + exact IH.
    + cbn [filter fst]. destruct (has_property k0 second); cbn [negb].
      * exact IH.
      * now rewrite IH.
Qed.

Lemma partial_renders_compose_witness :
  partialRender
    (partialRender (new (str " {a} and {b} ") None) (literal [(str "a", str " x ")]))
    (literal [(str "b", str "y")])
  = partialRender (new (str " {a} and {b} ") None)
                  (literal [(str "a", str " x "); (str "b", str "y")]).
Proof.
  exact (partial_renders_compose
           (new (str " {a} and {b} ") None) [(str "a", str " x ")]
           [(str "b", str "y")] eq_refl eq_refl).
Defined.

(** The order of the names decides: the merge of [{ a: "{1}" }] and
    [{ 1: "x" }] lists the name [1] first, and rendering it leaves
    [{1}] where the two renders in a row leave [x]. *)
Example partial_renders_in_another_order :
  literal ([(str "a", str "{1}")] ++ [(str "1", str "x")])
  = [(str "1", str "x"); (str "a", str "{1}")] /\
  value (partialRender (partialRender (new (str "{a}") None)
                          (literal [(str "a", str "{1}")]))
                       (literal [(str "1", str "x")]))
  = str "x" /\
  value (partialRender (new (str "{a}") None)
           (literal ([(str "a", str "{1}")] ++ [(str "1", str "x")])))
  = str "{1}".
Proof. vm_compute. repeat split. Qed.

End TemplateLaws.

(** ** tools/git.ts: the constructor, the flags and the schema *)
Module GitLaws.
Import JS JSFacts ReplaceFacts Git GitCommands Vocabulary.

#[local] Arguments N.eqb : simpl never.

(** The equations of [GetSubstitution]. *)
Lemma GetSubstitution_cons_plain (m b a r : jsstring) (c : code_unit) :
  (c =? dollar)%N = false ->
  GetSubstitution m b a (c :: r) = c :: GetSubstitution m b a r.
Proof. intros H. cbn [GetSubstitution]. now rewrite H. Qed.

Lemma GetSubstitution_dollar_cons (m b a r : jsstring) (d : code_unit) :
  GetSubstitution m b a (dollar :: d :: r)
  = if (d =? dollar)%N then dollar :: GetSubstitution m b a r
    else if (d =? ampersand)%N then m ++ GetSubstitution m b a r
    else if (d =? backtick)%N then b ++ GetSubstitution m b a r
    else if (d =? apostrophe)%N then a ++ GetSubstitution m b a r
    else dollar :: GetSubstitution m b a (d :: r).
Proof. reflexivity. Qed.

(** A code unit that is no part of a [$] sequence, at the end of the
    replacement text, is copied at the end of the expansion. *)
Lemma GetSubstitution_snoc (m b a : jsstring) (c : code_unit) :
  (c =? dollar)%N = false -> (c =? ampersand)%N = false ->
  (c =? backtick)%N = false -> (c =? apostrophe)%N = false ->
  forall n t, List.length t <= n ->
    GetSubstitution m b a (t ++ [c]) = GetSubstitution m b a t ++ [c].
Proof.
  intros H1 H2 H3 H4. induction n as [|n IH]; intros t Hl.
  - destruct t; [|cbn in Hl; lia]. cbn [app].
    now rewrite GetSubstitution_cons_plain.
  - destruct t as [|x t']; [cbn [app]; now rewrite GetSubstitution_cons_plain|].
    destruct (x =? dollar)%N eqn:Ex.
    + apply N.eqb_eq in Ex. subst x. destruct t' as [|d t''].
      * cbn [app]. rewrite GetSubstitution_dollar_cons, H1, H2, H3, H4.
        now rewrite GetSubstitution_cons_plain.
      * cbn [app]. rewrite !GetSubstitution_dollar_cons.
        assert (Hl2 : List.length t'' <= n) by (cbn in Hl; lia).
        assert (Hl1 : List.length (d :: t'') <= n) by (cbn in Hl |- *; lia).
        destruct (d =? dollar)%N; [now rewrite (IH t'' Hl2)|].
        destruct (d =? ampersand)%N; [now rewrite (IH t'' Hl2), app_assoc|].
        destruct (d =? backtick)%N; [now rewrite (IH t'' Hl2), app_assoc|].
        destruct (d =? apostrophe)%N; [now rewrite (IH t'' Hl2), app_assoc|].
        change (d :: t'' ++ [c]) with ((d :: t'') ++ [c]).
        now rewrite (IH (d :: t'') Hl1).
    + cbn [app]. rewrite !GetSubstitution_cons_plain by exact Ex.
      rewrite IH; [reflexivity|cbn in Hl; lia].
Qed.

(** The expansion holds no line terminator when its sources hold none. *)
Lemma GetSubstitution_no_terminator (m b a : jsstring) :
  Forall (fun c => isLineTerminator c = false) m ->
  Forall (fun c => isLineTerminator c = false) b ->
  Forall (fun c => isLineTerminator c = false) a ->
  forall n t, List.length t <= n ->
    Forall (fun c => isLineTerminator c = false) t ->
    Forall (fun c => isLineTerminator c = false) (GetSubstitution m b a t).
Proof.
  intros Hm Hb Ha. induction n as [|n IH]; intros t Hl Ht.
  - destruct t; [constructor|cbn in Hl; lia].
  - destruct t as [|x t']; [constructor|].
    inversion Ht as [|? ? Hx Ht']. subst.
    destruct (x =? dollar)%N eqn:Ex.
    + apply N.eqb_eq in Ex. subst x. destruct t' as [|d t''].
      * cbn. now constructor.
      * inversion Ht' as [|? ? Hd Ht'']. subst.
        assert (Hl2 : List.length t'' <= n) by (cbn in Hl; lia).
        assert (Hl1 : List.length (d :: t'') <= n) by (cbn in Hl |- *; lia).
        rewrite GetSubstitution_dollar_cons.
        destruct (d =? dollar)%N; [constructor; [exact Hx|now apply IH]|].
        destruct (d =? ampersand)%N; [apply Forall_app; split; [exact Hm|now apply IH]|].
        destruct (d =? backtick)%N; [apply Forall_app; split; [exact Hb|now apply IH]|].
        destruct (d =? apostrophe)%N; [apply Forall_app; split; [exact Ha|now apply IH]|].
        constructor; [exact Hx|now apply IH].
    + rewrite GetSubstitution_cons_plain by exact Ex.
      constructor; [exact Hx|]. apply IH; [cbn in Hl; lia|exact Ht'].
Qed.

(** A string that begins and ends with code units [trim] does not
    remove is left as it is. *)
Lemma trim_between (c d : code_unit) (s : jsstring) :
  isTrimmable c = false -> isTrimmable d = false ->
  trim (c :: s ++ [d]) = c :: s ++ [d].
Proof.
  intros Hc Hd. unfold trim.
  rewrite (trimStart_fixed (c :: s ++ [d]) Hc).
  unfold trimEnd. change (c :: s ++ [d]) with ((c :: s) ++ [d]).
  rewrite rev_app_distr.
  change (rev [d] ++ rev (c :: s)) with (d :: rev (c :: s)).
  rewrite (trimStart_fixed (d :: rev (c :: s)) Hd).
  change (d :: rev (c :: s)) with (rev [d] ++ rev (c :: s)).
  rewrite <- rev_app_distr. apply rev_involutive.
Qed.

(** What the constructor renders from the JSON text of its options. *)
Lemma parameters_rendered (json : jsstring) :
  Template.render_ parameters (literal [(str "defaults", json)]) true
  = trim (str "...options, ..."
          ++ GetSubstitution (str "{defaults}") (str "...options, ...") [] json).
Proof.
  transitivity
    (trim (str "...options, ..."
           ++ GetSubstitution (str "{defaults}") (str "...options, ...") [] json
           ++ [])).
  - cbv -[GetSubstitution trim]. reflexivity.
  - now rewrite app_nil_r.
Qed.

Lemma includes_unit (c : code_unit) (s : jsstring) :
  includes [c] s = false -> ~ In c s.
Proof.
  induction s as [|x s IH]; intros H Hin; [destruct Hin|].
  cbn [includes startsWith] in H. apply orb_false_iff in H. destruct H as [H1 H2].
  destruct Hin as [->|Hin]; [|exact (IH H2 Hin)].
  rewrite N.eqb_refl in H1. destruct s; discriminate.
Qed.

Lemma concat_filter_truthy (l : list jsstring) :
  List.concat (filter truthy_string l) = List.concat l.
Proof.
  induction l as [|x l IH]; [reflexivity|].
  destruct x as [|c x]; cbn [filter truthy_string List.concat]; [exact IH|].
  now rewrite IH.
Qed.

Lemma filter_without (c : code_unit) (s : jsstring) :
  ~ In c s -> filter (fun x => negb (x =? c)%N) s = s.
Proof.
  induction s as [|x s IH]; intros H; [reflexivity|].
  cbn [filter]. destruct (x =? c)%N eqn:E.
  - apply N.eqb_eq in E. subst x. exfalso. apply H. now left.
  - cbn. rewrite IH; [reflexivity|]. intros Hin. apply H. now right.
Qed.

Lemma filter_join_unit (c : code_unit) (l : list jsstring) :
  Forall (fun piece => ~ In c piece) l ->
  filter (fun x => negb (x =? c)%N) (join [c] l) = List.concat l.
Proof.
  induction 1 as [|x l Hx Hl IH]; [reflexivity|].
  destruct l as [|y l].
  - cbn [join List.concat]. rewrite app_nil_r. now apply filter_without.
  - change (join [c] (x :: y :: l)) with (x ++ [c] ++ join [c] (y :: l)).
    unfold jsstring, code_unit in *.
    rewrite !filter_app, (filter_without c x Hx).
    cbn [filter]. rewrite N.eqb_refl. cbn [negb app List.concat].
    f_equal. exact IH.
Qed.

Section Host.
Variable Options : Type.
Variable cwd_of : Options -> option Cwd.
Variable JSON_stringify : Options -> jsstring.
Variable Deno_cwd : jsstring.
Variable Function_call : jsstring -> list jsstring -> completion jsstring Error.
Variable toLowerCase : jsstring -> jsstring.
Variable StringToNumber : jsstring -> float.
Variable ToPrimitive : json -> jsstring.
Variable Date_parse : jsstring -> float.
Variable JSON_parse : jsstring -> completion json Error.
Variable emojiCharToCode : jsstring -> jsstring.

Let new := GitCommands.new cwd_of JSON_stringify Deno_cwd.
Let commit_ := @GitCommands.commit Options Function_call toLowerCase.
Let call := @GitCommands.call Options Function_call.
Let parseFlags := Git.parseFlags toLowerCase.
Let parseFlag := Git.parseFlag toLowerCase.
Let CommitSchema_parse := CommitSchema_parse StringToNumber ToPrimitive Date_parse emojiCharToCode.
Let parseDate := parseDate StringToNumber ToPrimitive Date_parse.
Let log := log StringToNumber ToPrimitive Date_parse JSON_parse emojiCharToCode toLowerCase.
Let parseLogOutput := parseLogOutput StringToNumber ToPrimitive Date_parse JSON_parse emojiCharToCode.

(** X5.  The constructor renders the JSON text of its options into the
    template ["...options, ...{defaults}"] and [render] then looks for
    placeholders in the result.  For the empty object the text is
    [{}], which the expression does not match, and the instance is
    built; for every object with a property the text [{"..."...}] is
    itself taken for a placeholder that was not replaced, and the
    constructor throws the template's error. *)
Theorem constructor_accepts_only_empty_options (opts : Options) :
  (JSON_stringify opts = str "{}" ->
   exists g,
     new opts = Normal g /\
     body g = str "return executeCommand('git', { ...options, ...{} });") /\
  (forall rest,
     JSON_stringify opts = lbrace :: dquote :: rest ++ [rbrace] ->
     forallb (fun c => negb (isLineTerminator c)) rest = true ->
     exists cause,
       new opts = Throw (Template.mkError Template.unreplaced_message cause)).
Proof.
  split.
  - intros E. unfold new, GitCommands.new. rewrite E.
    eexists. split; [vm_compute; reflexivity|reflexivity].
  - intros rest E Hlt.
    assert (Hrest : Forall (fun c => isLineTerminator c = false) rest).
    { apply Forall_forall. intros c Hc. rewrite forallb_forall in Hlt.
      specialize (Hlt c Hc). now apply negb_true_iff in Hlt. }
    set (G := GetSubstitution (str "{defaults}") (str "...options, ...") []).
    assert (EG : G (JSON_stringify opts) = lbrace :: dquote :: G rest ++ [rbrace]).
    { rewrite E. unfold G.
      rewrite !GetSubstitution_cons_plain by reflexivity.
      rewrite (GetSubstitution_snoc _ _ _ rbrace eq_refl eq_refl eq_refl eq_refl
                 (List.length rest) rest (le_n _)).
      reflexivity. }
    assert (Er : Template.render_ parameters
                   (literal [(str "defaults", JSON_stringify opts)]) true
                 = str "...options, ..." ++ lbrace :: dquote :: G rest ++ [rbrace]).
    { rewrite parameters_rendered. fold G. rewrite EG.
      change (str "...options, ..." ++ lbrace :: dquote :: G rest ++ [rbrace])
        with (46%N :: (skipn 1 (str "...options, ...")
                       ++ lbrace :: dquote :: G rest) ++ [rbrace]).
      apply trim_between; reflexivity. }
    assert (Hp : has_placeholder
                   (str "...options, ..." ++ lbrace :: dquote :: G rest ++ [rbrace])).
    { exists (str "...options, ..."), (dquote :: G rest), [].
      repeat split; [discriminate|].
      constructor; [reflexivity|]. unfold G.
      apply (GetSubstitution_no_terminator _ _ _) with (n := List.length rest);
        trivial; repeat constructor. }
    unfold new, GitCommands.new, Template.render, Template.validate.
    rewrite Er.
    destruct (matchAll (str "...options, ..." ++ lbrace :: dquote :: G rest ++ [rbrace]))
      as [|m ms] eqn:Em.
    + exfalso. now apply (TemplateFacts.matchAll_nil_iff _) in Em.
    + cbn. eexists. reflexivity.
Qed.

(** Every argument [parseFlag] produces is non-empty and, with
    [takesValue], begins with two dashes. *)
Lemma parseFlag_valued (name : jsstring) (v : option jsstring) :
  exists a, Git.parseFlag toLowerCase name v true = [a]
            /\ startsWith (str "--") a = true.
Proof.
  unfold Git.parseFlag.
  destruct v as [[|c r]|]; eexists; (split; [reflexivity|reflexivity]).
Qed.

(** X6.  When the flags take their value after an equals sign, as for
    [log] and [commit], every flag yields exactly one argument and
    that argument begins with two dashes, whatever the flag's name and
    value; none of them is empty, so the [filter(Boolean)] of [commit]
    drops nothing and the message is always the third argument. *)
Theorem valued_flags_are_single_tokens (flags : object (option jsstring)) :
  Forall (fun a => startsWith (str "--") a = true) (parseFlags flags true) /\
  List.length (parseFlags flags true) = List.length flags /\
  (forall g message,
     commit_ g message flags
     = call g (str "commit" :: str "-m" :: message :: parseFlags flags true)).
Proof.
  assert (H : Forall (fun a => startsWith (str "--") a = true) (parseFlags flags true)
              /\ List.length (parseFlags flags true) = List.length flags).
  { unfold parseFlags, Git.parseFlags.
    induction flags as [|[k v] flags [IH1 IH2]]; [split; [constructor|reflexivity]|].
    cbn [map List.concat fst snd].
    destruct (parseFlag_valued k v) as (a & E & Ha). rewrite E.
    cbn [app List.length].
    split; [now constructor|now rewrite IH2]. }
  destruct H as [H1 H2]. repeat split; trivial.
  intros g message. unfold commit_, GitCommands.commit. fold parseFlags.
  assert (Hf : filter truthy_string (parseFlags flags true) = parseFlags flags true).
  { clear H2. induction H1 as [|a l Ha _ IH]; [reflexivity|].
    cbn [filter]. destruct a; [discriminate|]. cbn. now rewrite IH. }
  now rewrite Hf.
Qed.

(** *** camelCase flag names *)

Lemma split_capitals_from_skip :
  forall w cur s,
    split_capitals_from cur (List.length w) (w ++ s) = split_capitals_from cur 0 s.
Proof.
  induction w as [|x w IH]; intros cur s; [reflexivity|].
  cbn [List.length app split_capitals_from]. apply IH.
Qed.

Lemma isUpper_not_lower (c : code_unit) : isUpper c = true -> isLower c = false.
Proof.
  unfold isUpper, isLower. intros H. apply andb_true_iff in H.
  destruct H as [_ H]. apply N.leb_le in H.
  apply andb_false_iff. left. apply N.leb_gt. lia.
Qed.

(** The text before the capitalised words is scanned without a match. *)
Lemma split_capitals_from_plain :
  forall first cur s,
    forallb (fun c => negb (isUpper c)) first = true ->
    split_capitals_from cur 0 (first ++ s)
    = split_capitals_from (rev first ++ cur) 0 s.
Proof.
  induction first as [|c first IH]; intros cur s H; [reflexivity|].
  cbn [forallb] in H. apply andb_true_iff in H. destruct H as [Hc H].
  apply negb_true_iff in Hc.
  cbn [app split_capitals_from match_capital]. rewrite Hc.
  rewrite (IH (c :: cur) s H). cbn [rev]. now rewrite <- app_assoc.
Qed.

Lemma lower_run_word (r rest : jsstring) :
  forallb isLower r = true ->
  match rest with [] => True | c :: _ => isLower c = false end ->
  lower_run (r ++ rest) = r.
Proof.
  induction r as [|c r IH]; intros Hr Hrest.
  - destruct rest as [|c rest]; [reflexivity|]. cbn. now rewrite Hrest.
  - cbn [forallb] in Hr. apply andb_true_iff in Hr. destruct Hr as [Hc Hr].
    cbn [app lower_run]. rewrite Hc. now rewrite (IH Hr Hrest).
Qed.

Lemma capital_word_head (w : jsstring) :
  capital_word w = true ->
  exists c r, w = c :: r /\ isUpper c = true /\ r <> [] /\ forallb isLower r = true.
Proof.
  destruct w as [|c r]; [discriminate|]. cbn [capital_word]. intros H.
  apply andb_true_iff in H. destruct H as [H Hr].
  apply andb_true_iff in H. destruct H as [Hc Hne].
  exists c, r. repeat split; trivial. now destruct r.
Qed.

(** The pieces [split] yields for a run of capitalised words: an empty
    piece and the captured word, in turn, and the last piece. *)
Fixpoint capital_pieces (cur : jsstring) (caps : list jsstring) : list jsstring :=
  match caps with
  | [] => [rev cur]
  | w :: ws => rev cur :: w :: capital_pieces [] ws
  end.

Lemma concat_capitals_head (caps : list jsstring) :
  forallb capital_word caps = true ->
  match List.concat caps with [] => True | c :: _ => isLower c = false end.
Proof.
  destruct caps as [|w ws]; [intros _; exact I|].
  cbn [forallb List.concat]. intros H.
  apply andb_true_iff in H. destruct H as [Hw _].
  destruct (capital_word_head w Hw) as (c & r & -> & Hc & _).
  cbn. now apply isUpper_not_lower.
Qed.

Lemma split_capitals_from_words :
  forall caps cur,
    forallb capital_word caps = true ->
    split_capitals_from cur 0 (List.concat caps) = capital_pieces cur caps.
Proof.
  induction caps as [|w ws IH]; intros cur H; [reflexivity|].
  cbn [forallb] in H. apply andb_true_iff in H. destruct H as [Hw Hws].
  destruct (capital_word_head w Hw) as (c & r & -> & Hc & Hne & Hr).
  cbn [List.concat capital_pieces app split_capitals_from match_capital].
  rewrite Hc, (lower_run_word r (List.concat ws) Hr (concat_capitals_head ws Hws)).
  destruct r as [|c1 r1]; [congruence|].
  change (List.length (c :: c1 :: r1) - 1) with (List.length (c1 :: r1)).
  rewrite split_capitals_from_skip. now rewrite (IH [] Hws).
Qed.

(** X7.  A camelCase flag name becomes the kebab-case option: for a
    name made of a first word without upper-case letter followed by
    capitalised words, the flag is two dashes and the lower-cased words
    joined by single dashes, as [maxCount] gives [--max-count]. *)
Theorem camelCase_flag_is_kebab_case
        (first : jsstring) (caps : list jsstring) (takesValue : bool) :
  toLowerCase [] = [] ->
  truthy_string first = true ->
  forallb (fun c => negb (isUpper c)) first = true ->
  forallb capital_word caps = true ->
  forallb (fun w => truthy_string (toLowerCase w)) (first :: caps) = true ->
  parseFlag (first ++ List.concat caps) None takesValue
  = [str "--" ++ join (str "-") (map toLowerCase (first :: caps))].
Proof.
  intros H0 Hne Hfirst Hcaps Hlow.
  unfold parseFlag, Git.parseFlag, split_capitals.
  rewrite (split_capitals_from_plain first [] (List.concat caps) Hfirst).
  rewrite (split_capitals_from_words caps _ Hcaps).
  rewrite app_nil_r.
  assert (E : forall ws cur,
             forallb (fun w => truthy_string (toLowerCase w)) ws = true ->
             filter truthy_string (map toLowerCase (capital_pieces cur ws))
             = filter truthy_string [toLowerCase (rev cur)] ++ map toLowerCase ws).
  { induction ws as [|w ws IH]; intros cur Hws.
    - cbn [capital_pieces map]. now rewrite app_nil_r.
    - cbn [forallb] in Hws. apply andb_true_iff in Hws. destruct Hws as [Hw Hws].
      cbn [capital_pieces map filter]. rewrite Hw, (IH [] Hws).
      cbn [rev]. rewrite H0. cbn [filter truthy_string app].
      destruct (truthy_string (toLowerCase (rev cur))); reflexivity. }
  cbn [forallb] in Hlow. apply andb_true_iff in Hlow. destruct Hlow as [Hl1 Hl2].
  rewrite (E caps (rev first) Hl2). rewrite rev_involutive.
  cbn [filter]. rewrite Hl1. reflexivity.
Qed.

(** *** The commit schema *)

Lemma TrimmedStringSchema_normal (v : value) (s : jsstring) :
  TrimmedStringSchema v = Normal s <-> exists raw, v = Some (JString raw) /\ s = trim raw.
Proof.
  split.
  - destruct v as [[| | |raw| |]|]; cbn; intros H; try discriminate.
    injection H as <-. now exists raw.
  - intros (raw & -> & ->). reflexivity.
Qed.

Lemma CommitSchema_parse_normal (data : json) (commit : Commit) :
  CommitSchema_parse data = Normal commit <->
  exists o h i a n e s r,
    data = JObject o /\
    get o (str "hash") = Some (JString h) /\
    get o (str "id") = Some (JString i) /\
    get o (str "author") = Some (JObject a) /\
    get a (str "name") = Some (JString n) /\
    get a (str "email") = Some (JString e) /\
    get o (str "subject") = Some (JString s) /\
    get o (str "ref") = Some (JString r) /\
    is_nan (time_value (parseDate (get o (str "timestamp")))) = false /\
    commit = mkCommit (trim h) (trim i) (parseDate (get o (str "timestamp")))
                      (mkAuthor (trim n) (trim e))
                      (emojiCharToCode (trim s)) (trim r).
Proof.
  split.
  - unfold CommitSchema_parse, Git.CommitSchema_parse.
    destruct data as [| | | | |o]; try discriminate.
    destruct (TrimmedStringSchema (get o (str "hash"))) as [h'|] eqn:Eh; [|discriminate].
    destruct (TrimmedStringSchema (get o (str "id"))) as [i'|] eqn:Ei; [|discriminate].
    unfold TimestampSchema. fold parseDate.
    destruct (is_nan (time_value (parseDate (get o (str "timestamp"))))) eqn:Et;
      [discriminate|].
    unfold AuthorSchema.
    destruct (get o (str "author")) as [[| | | | |a]|] eqn:Ea; try discriminate.
    destruct (TrimmedStringSchema (get a (str "name"))) as [n'|] eqn:En; [|discriminate].
    destruct (TrimmedStringSchema (get a (str "email"))) as [e'|] eqn:Ee; [|discriminate].
    destruct (TrimmedStringSchema (get o (str "subject"))) as [s'|] eqn:Es; [|discriminate].
    destruct (TrimmedStringSchema (get o (str "ref"))) as [r'|] eqn:Er; [|discriminate].
    intros H. injection H as <-.
    apply TrimmedStringSchema_normal in Eh, Ei, En, Ee, Es, Er.
    destruct Eh as (h & Eh & ->). destruct Ei as (i & Ei & ->).
    destruct En as (n & En & ->). destruct Ee as (e & Ee & ->).
    destruct Es as (s & Es & ->). destruct Er as (r & Er & ->).
    exists o, h, i, a, n, e, s, r. repeat split; trivial.
  - intros (o & h & i & a & n & e & s & r & -> & Eh & Ei & Ea & En & Ee & Es & Er & Et & ->).
    unfold CommitSchema_parse, Git.CommitSchema_parse, TimestampSchema, AuthorSchema.
    fold parseDate. rewrite Eh, Ei, Ea, En, Ee, Es, Er, Et. reflexivity.
Qed.

(** X9.  Every commit [log] returns has its hash, id, author name,
    author email and ref free of white space at both ends, however the
    subprocess padded them. *)
Theorem log_commits_are_trimmed
        (git : list jsstring -> completion jsstring Error)
        (flags : object (option jsstring)) (revisionRange : option jsstring)
        (commits : list Commit) :
  log git flags revisionRange = Normal commits ->
  Forall trimmed_fields commits.
Proof.
  unfold log, Git.log.
  destruct (git _) as [output|]; [|discriminate]. fold parseLogOutput.
  unfold parseLogOutput, Git.parseLogOutput. intros H.
  apply GitFacts.map_throw_normal in H.
  induction H as [|raw commit raws commits Hc _ IH]; constructor; [|exact IH].
  unfold Git.parseCommit in Hc. destruct (JSON_parse raw) as [data|]; [|discriminate].
  apply CommitSchema_parse_normal in Hc.
  destruct Hc as (o & h & i & a & n & e & s & r & _ & _ & _ & _ & _ & _ & _ & _ & _ & ->).
  unfold trimmed_fields. cbn [hash Git.id author name email ref].
  repeat split; apply trim_idem.
Qed.

(** X10.  [log] runs the subprocess with the arguments [log], the
    flags, the words of the revision range and last the format.  The
    words are what the range holds between its spaces: none is empty,
    none holds a space, and together they are the range without its
    spaces.  The format begins with the text the parser later cuts the
    output at. *)
Theorem log_argument_vector
        (flags : object (option jsstring)) (revisionRange : option jsstring) :
  exists ranges,
    (forall git,
       log git flags revisionRange
       = match git (str "log" :: parseFlags flags true ++ ranges
                    ++ [str "--pretty=format:" ++ commitFormat]) with
         | Throw e => Throw e
         | Normal output => parseLogOutput output
         end) /\
    Forall (fun r => truthy_string r = true /\ ~ In space r) ranges /\
    List.concat ranges
    = filter (fun c => negb (c =? space)%N)
             (match revisionRange with Some r => r | None => [] end) /\
    startsWith delimiter commitFormat = true.
Proof.
  assert (Hsplit : forall r,
            Forall (fun w => truthy_string w = true /\ ~ In space w)
                   (filter truthy_string (split (str " ") r)) /\
            List.concat (filter truthy_string (split (str " ") r))
            = filter (fun c => negb (c =? space)%N) r).
  { intros r.
    assert (Hclean : Forall (fun piece => ~ In space piece) (split (str " ") r)).
    { eapply Forall_impl; [|apply (GitFacts.split_pieces_clean (str " ") r); discriminate].
      intros piece. apply includes_unit. }
    split.
    - apply Forall_forall. intros w Hw. apply filter_In in Hw. destruct Hw as [Hw Ht].
      split; [exact Ht|]. rewrite Forall_forall in Hclean. now apply Hclean.
    - rewrite concat_filter_truthy.
      rewrite <- (filter_join_unit space _ Hclean).
      change [space] with (str " ").
      rewrite GitFacts.split_join; [reflexivity|discriminate]. }
  destruct revisionRange as [r|].
  - destruct (truthy_string r) eqn:Er.
    + exists (filter truthy_string (split (str " ") r)).
      destruct (Hsplit r) as [H1 H2].
      split; [|split; [exact H1|split; [exact H2|reflexivity]]].
      intros git. unfold log, Git.log. rewrite Er. reflexivity.
    + exists []. destruct r; [|discriminate].
      split; [|split; [constructor|split; reflexivity]].
      intros git. reflexivity.
  - exists []. split; [|split; [constructor|split; reflexivity]].
    intros git. reflexivity.
Qed.

End Host.

Lemma constructor_accepts_only_empty_options_witness :
  (exists g,
     GitCommands.new (fun _ : jsstring => None) (fun s => s) (str "/app") (str "{}")
     = Normal g /\
     body g = str "return executeCommand('git', { ...options, ...{} });") /\
  (exists cause,
     GitCommands.new (fun _ : jsstring => None) (fun s => s) (str "/app")
                     MoreSamples.cwd_json
     = Throw (Template.mkError Template.unreplaced_message cause)).
Proof.
  split.
  - exact (proj1 (constructor_accepts_only_empty_options
                    jsstring (fun _ => None) (fun s => s) (str "/app") (str "{}"))
                 eq_refl).
  - exact (proj2 (constructor_accepts_only_empty_options
                    jsstring (fun _ => None) (fun s => s) (str "/app")
                    MoreSamples.cwd_json)
                 (str "cwd" ++ [dquote] ++ str ":" ++ Git.quoted "/tmp")
                 eq_refl eq_refl).
Defined.

Lemma camelCase_flag_is_kebab_case_witness :
  Git.parseFlag Vocabulary.ascii_toLowerCase (str "noUseMailMap") None true
  = [str "--no-use-mail-map"].
Proof.
  exact (camelCase_flag_is_kebab_case Vocabulary.ascii_toLowerCase
           (str "no") [str "Use"; str "Mail"; str "Map"] true
           eq_refl eq_refl eq_refl eq_refl eq_refl).
Defined.

Lemma log_commits_are_trimmed_witness :
  exists commits,
    Git.log Samples.numeral (fun _ => []) Samples.Date_parse Samples.JSON_parse
            (fun s => s) Vocabulary.ascii_toLowerCase
            (fun _ => Normal Samples.two_commits) [] None
    = Normal commits /\
    Forall trimmed_fields commits.
Proof.
  eexists. split; [vm_compute; reflexivity|].
  apply (log_commits_are_trimmed Vocabulary.ascii_toLowerCase Samples.numeral
           (fun _ => []) Samples.Date_parse Samples.JSON_parse (fun s => s)
           (fun _ => Normal Samples.two_commits) [] None).
  vm_compute. reflexivity.
Defined.

End GitLaws.


(** ** tools/logger.ts: origins, http records and the pretty format *)
Module LoggerLaws.
Import JS JSFacts ReplaceFacts LoggerConfig Vocabulary.

#[local] Arguments N.eqb : simpl never.

(** [lastIndexOf] of a single code unit: the position of its last
    occurrence, or the start value when there is none. *)
Lemma lastIndexOf_from_unit (c : code_unit) :
  forall s i best,
    (~ In c s /\ lastIndexOf_from [c] s i best = best)
    \/ (exists a b, s = a ++ c :: b /\ ~ In c b /\
                    lastIndexOf_from [c] s i best = (i + Z.of_nat (List.length a))%Z).
Proof.
  induction s as [|x r IH]; intros i best.
  - left. split; [intros []|reflexivity].
  - cbn [lastIndexOf_from startsWith].
    rewrite andb_true_r.
    destruct (IH (i + 1)%Z (if (c =? x)%N then i else best))
      as [[Hn E]|(a & b & -> & Hb & E)].
    + destruct (c =? x)%N eqn:Ex.
      * apply N.eqb_eq in Ex. subst x. right. exists [], r.
        repeat split; trivial. rewrite E. cbn. lia.
      * left. split; [|exact E]. intros [->|H]; [|now apply Hn].
        now rewrite N.eqb_refl in Ex.
    + right. exists (x :: a), b. repeat split; trivial.
      rewrite E. cbn [List.length]. lia.
Qed.

(** The text after the last occurrence of a code unit. *)
Lemma after_last_unit (c : code_unit) (s : jsstring) :
  exists dir,
    s = dir ++ substring (lastIndexOf [c] s + 1) s /\
    ~ In c (substring (lastIndexOf [c] s + 1) s) /\
    (dir = [] \/ exists d, dir = d ++ [c]).
Proof.
  unfold lastIndexOf, substring.
  destruct (lastIndexOf_from_unit c s 0 (-1)) as [[Hn E]|(a & b & -> & Hb & E)];
    rewrite E.
  - exists []. repeat split; [exact Hn|now left].
  - exists (a ++ [c]).
    assert (En : Z.to_nat (Z.max 0 (0 + Z.of_nat (List.length a) + 1))
                 = List.length (a ++ [c])).
    { rewrite length_app. cbn. lia. }
    rewrite En. change (a ++ c :: b) with (a ++ [c] ++ b).
    rewrite app_assoc, skipn_app, skipn_all, Nat.sub_diag. cbn [skipn app].
    repeat split; [exact Hb|]. right. now exists a.
Qed.

Lemma build_normal (h : Host) (settings : Settings) (level : LevelName.t)
      (options : LogOptions) (o : LogObject) :
  Logger.build h settings level options = Normal o ->
  exists origin file,
    fileName origin = Some file /\
    log_fields o
    = mkLog (Some level) (loggerName settings) (columnNumber origin)
            (lineNumber origin)
            (substring (lastIndexOf (str "/") file + 1) file) file /\
    base_fields o = mkBase (opt_message options) (opt_args options) None None /\
    error_fields o
    = error_fields (Logger.new_LogObject h (opt_error options) (opt_request options)
                      (opt_response options)) /\
    http_fields o
    = http_fields (Logger.new_LogObject h (opt_error options) (opt_request options)
                     (opt_response options)).
Proof.
  unfold Logger.build, Logger.setLogFields.
  destruct (Logger.callsites _ _) as [[cs|t]|]; try discriminate.
  destruct (List.last _ None) as [origin|]; [|discriminate].
  destruct (fileName origin) as [file|] eqn:Ef; [|discriminate].
  intros H. injection H as <-. exists origin, file. repeat split. exact Ef.
Qed.

(** X11.  The origin file name of a record is the part of the origin
    path after its last slash: the path ends with the name, what comes
    before is empty or ends with a slash, and the name holds no slash. *)
Theorem origin_name_is_last_path_segment
        (h : Host) (settings : Settings) (level : LevelName.t)
        (options : LogOptions) (o : LogObject) :
  Logger.build h settings level options = Normal o ->
  exists dir,
    log_origin_file_path (log_fields o) = dir ++ log_origin_file_name (log_fields o) /\
    ~ In slash (log_origin_file_name (log_fields o)) /\
    (dir = [] \/ exists d, dir = d ++ [slash]).
Proof.
  intros H. destruct (build_normal h settings level options o H)
    as (origin & file & _ & -> & _).
  cbn [log_origin_file_path log_origin_file_name].
  exact (after_last_unit slash file).
Qed.

Lemma origin_name_is_last_path_segment_witness :
  exists o,
    Logger.build Samples.host Samples.warning_settings LevelName.Debug
      (mkLogOptions (str "hello") (Some []) U_undefined None None)
    = Normal o /\
    log_origin_file_name (log_fields o) = str "main.ts" /\
    exists dir,
      log_origin_file_path (log_fields o) = dir ++ log_origin_file_name (log_fields o) /\
      ~ In slash (log_origin_file_name (log_fields o)) /\
      (dir = [] \/ exists d, dir = d ++ [slash]).
Proof.
  eexists. split; [vm_compute; reflexivity|]. split; [reflexivity|].
  apply (origin_name_is_last_path_segment
           Samples.host Samples.warning_settings LevelName.Debug
           (mkLogOptions (str "hello") (Some []) U_undefined None None)).
  vm_compute. reflexivity.
Defined.

(** *** The stack lines of the earlier revision *)

Lemma split_head (sep s : jsstring) :
  sep <> [] ->
  exists p0 rest,
    split sep s = p0 :: rest /\
    (s = p0 \/ exists r, s = p0 ++ sep ++ r).
Proof.
  intros Hsep. pose proof (GitFacts.split_join sep s Hsep) as Hj.
  destruct (split sep s) as [|p0 rest] eqn:E.
  - exfalso. destruct sep as [|c sep']; [congruence|].
    unfold split in E. exact (GitFacts.split_from_nonempty _ _ _ _ E).
  - exists p0, rest. split; [reflexivity|].
    destruct rest as [|p1 rest'].
    + left. now rewrite <- Hj.
    + right. exists (join sep (p1 :: rest')). now rewrite <- Hj.
Qed.

Lemma join_last (sep : jsstring) (l : list jsstring) :
  l <> [] ->
  exists pre,
    join sep l = pre ++ List.last l [] /\
    (pre = [] \/ exists d, pre = d ++ sep).
Proof.
  induction l as [|x l IH]; intros Hl; [congruence|].
  destruct l as [|y l'].
  - exists []. split; [reflexivity|now left].
  - destruct IH as (pre & E & Hpre); [discriminate|].
    exists (x ++ sep ++ pre). split.
    + change (join sep (x :: y :: l')) with (x ++ sep ++ join sep (y :: l')).
      rewrite E. change (List.last (x :: y :: l') []) with (List.last (y :: l') []).
      now rewrite <- !app_assoc.
    + right. destruct Hpre as [->|(d & ->)].
      * exists x. now rewrite app_nil_r.
      * exists (x ++ sep ++ d). now rewrite <- !app_assoc.
Qed.

Lemma last_in (A : Type) (l : list A) (d : A) : l <> [] -> In (List.last l d) l.
Proof.
  induction l as [|x l IH]; intros H; [congruence|].
  destruct l as [|y l']; [now left|].
  right. apply IH. discriminate.
Qed.

(** X12.  In the earlier revision the origin of a record is read off a
    stack line by cutting: the path is the line up to its first colon,
    and the file name is the part of the path after its last slash.
    So the path holds no colon and the name no slash, whatever the
    line. *)
Theorem stack_details_are_cut_at_colon_and_slash (h : Host) (stack : jsstring) :
  (~ In colon (LoggerEarlier.path (LoggerEarlier.getStackDetails h stack)) /\
   (stack = LoggerEarlier.path (LoggerEarlier.getStackDetails h stack)
    \/ exists rest,
         stack = LoggerEarlier.path (LoggerEarlier.getStackDetails h stack)
                 ++ colon :: rest)) /\
  (~ In slash (LoggerEarlier.filename (LoggerEarlier.getStackDetails h stack)) /\
   exists dir,
     LoggerEarlier.path (LoggerEarlier.getStackDetails h stack)
     = dir ++ LoggerEarlier.filename (LoggerEarlier.getStackDetails h stack) /\
     (dir = [] \/ exists d, dir = d ++ [slash])).
Proof.
  unfold LoggerEarlier.getStackDetails.
  cbn [LoggerEarlier.path LoggerEarlier.filename].
  destruct (split_head (str ":") stack) as (p0 & rest & E & Hs); [discriminate|].
  pose proof (GitFacts.split_pieces_clean (str ":") stack) as Hc.
  rewrite E in *. cbn [nth]. split.
  - split.
    + apply (GitLaws.includes_unit colon).
      assert (H : str ":" <> []) by discriminate.
      specialize (Hc H). now inversion Hc.
    + destruct Hs as [Hs|(r & Hs)]; [now left|right; now exists r].
  - assert (Hne : split (str "/") p0 <> []).
    { destruct (split_head (str "/") p0) as (q & qs & Eq & _); [discriminate|].
      rewrite Eq. discriminate. }
    split.
    + apply (GitLaws.includes_unit slash).
      pose proof (GitFacts.split_pieces_clean (str "/") p0) as Hc'.
      assert (H : str "/" <> []) by discriminate. specialize (Hc' H).
      rewrite Forall_forall in Hc'. apply Hc'. now apply last_in.
    + destruct (join_last (str "/") (split (str "/") p0) Hne) as (pre & Ej & Hpre).
      rewrite GitFacts.split_join in Ej by discriminate.
      exists pre. split; [exact Ej|exact Hpre].
Qed.

(** *** [formatStackLine] *)

Lemma indexOf_from_head (pat s : jsstring) (i : Z) :
  startsWith pat s = true -> indexOf_from pat s i = i.
Proof. intros H. destruct s; cbn [indexOf_from]; now rewrite H. Qed.

Lemma indexOf_from_found (pat : jsstring) :
  forall pre i post,
    (forall a b, pre = a ++ b -> b <> [] -> startsWith pat (b ++ pat ++ post) = false) ->
    indexOf_from pat (pre ++ pat ++ post) i = (i + Z.of_nat (List.length pre))%Z.
Proof.
  induction pre as [|c pre IH]; intros i post H.
  - cbn [app List.length]. rewrite indexOf_from_head; [cbn; lia|].
    apply startsWith_true. now exists post.
  - cbn [app]. cbn [indexOf_from].
    assert (H0 : startsWith pat ((c :: pre) ++ pat ++ post) = false)
      by (apply (H [] (c :: pre) eq_refl); discriminate).
    cbn [app] in H0. rewrite H0.
    rewrite IH.
    + cbn [List.length]. lia.
    + intros a b -> Hb. exact (H (c :: a) b eq_refl Hb).
Qed.

Lemma indexOf_from_absent (pat : jsstring) :
  forall s i, includes pat s = false -> indexOf_from pat s i = (-1)%Z.
Proof.
  induction s as [|c r IH]; intros i H.
  - cbn [includes] in H. apply orb_false_iff in H. destruct H as [H _].
    cbn [indexOf_from]. now rewrite H.
  - cbn [includes] in H. apply orb_false_iff in H. destruct H as [H1 H2].
    cbn [indexOf_from]. rewrite H1. now apply IH.
Qed.

Lemma replace_from_absent (pat repl : jsstring) :
  forall s before, includes pat s = false -> replace_from pat repl before s = s.
Proof.
  induction s as [|c r IH]; intros before H.
  - cbn [includes] in H. apply orb_false_iff in H. destruct H as [H _].
    cbn [replace_from]. now rewrite H.
  - cbn [includes] in H. apply orb_false_iff in H. destruct H as [H1 H2].
    cbn [replace_from]. rewrite H1. now rewrite IH.
Qed.

Lemma replace_head (pat post : jsstring) :
  replace pat [] (pat ++ post) = post.
Proof.
  unfold replace.
  assert (E : startsWith pat (pat ++ post) = true)
    by (apply startsWith_true; now exists post).
  destruct (pat ++ post) as [|c r] eqn:Es.
  - cbn [replace_from]. rewrite E. cbn.
    destruct pat; [|discriminate]. cbn in Es. subst post. reflexivity.
  - cbn [replace_from]. rewrite E. cbn [GetSubstitution app].
    rewrite <- Es. rewrite skipn_app, skipn_all, Nat.sub_diag. reflexivity.
Qed.

(** Removing a code unit by [replaceAll]. *)
Lemma replaceAll_unit_empty (c : code_unit) (s : jsstring) :
  replaceAll [c] [] s = without c s.
Proof.
  rewrite (replaceAll_join_split [c] [] [] s); [|discriminate|reflexivity].
  assert (Hc : Forall (fun piece => ~ In c piece) (split [c] s)).
  { eapply Forall_impl; [|apply (GitFacts.split_pieces_clean [c] s); discriminate].
    intros piece. apply GitLaws.includes_unit. }
  assert (Ej : forall l : list jsstring, join [] l = List.concat l).
  { induction l as [|x l IH]; [reflexivity|].
    destruct l as [|y l'].
    - cbn. now rewrite app_nil_r.
    - change (join [] (x :: y :: l')) with (x ++ [] ++ join [] (y :: l')).
      rewrite IH. reflexivity. }
  rewrite Ej. unfold without.
  rewrite <- (GitLaws.filter_join_unit c _ Hc).
  rewrite GitFacts.split_join; [reflexivity|discriminate].
Qed.

(** X13.  [formatStackLine] of the earlier revision drops every closing
    parenthesis, and when the working directory followed by a slash
    occurs in the line it also drops everything up to and including
    its first occurrence; a line without it is kept from its start. *)
Theorem formatStackLine_strips_directory_and_parentheses
        (h : Host) (line : jsstring) :
  ~ In rparen (LoggerEarlier.formatStackLine h line) /\
  (includes (Deno_cwd h ++ str "/") line = false ->
   LoggerEarlier.formatStackLine h line = without rparen line) /\
  (forall pre post,
     line = pre ++ (Deno_cwd h ++ str "/") ++ post ->
     includes (Deno_cwd h ++ str "/")
              (pre ++ removelast (Deno_cwd h ++ str "/")) = false ->
     LoggerEarlier.formatStackLine h line = without rparen post).
Proof.
  unfold LoggerEarlier.formatStackLine.
  change (str ")") with [rparen].
  rewrite replaceAll_unit_empty.
  set (cwd := Deno_cwd h ++ str "/").
  assert (Hcwd : cwd <> []).
  { unfold cwd. destruct (Deno_cwd h); discriminate. }
  split; [|split].
  - unfold without. intros H. apply filter_In in H. destruct H as [_ H].
    now rewrite N.eqb_refl in H.
  - intros H. unfold indexOf. rewrite (indexOf_from_absent cwd line 0 H).
    unfold substring. change (Z.to_nat (Z.max 0 (-1))) with 0. cbn [skipn].
    unfold replace. now rewrite (replace_from_absent cwd [] line [] H).
  - intros pre post -> H.
    unfold indexOf. rewrite indexOf_from_found.
    + unfold substring.
      assert (En : Z.to_nat (Z.max 0 (0 + Z.of_nat (List.length pre)))
                   = List.length pre) by lia.
      rewrite En, skipn_app, skipn_all, Nat.sub_diag. cbn [skipn app].
      now rewrite replace_head.
    + intros a b -> Hb.
      destruct (startsWith cwd (b ++ cwd ++ post)) eqn:E; [|reflexivity].
      exfalso.
      assert (Hinc : includes cwd ((a ++ b) ++ removelast cwd) = true).
      { apply startsWith_true in E. destruct E as [rest E].
        assert (Hl : List.length cwd <= List.length (b ++ removelast cwd)).
        { rewrite length_app.
          assert (Hr : List.length (removelast cwd) = List.length cwd - 1).
          { clear -Hcwd. induction cwd as [|x l IH]; [congruence|].
            destruct l as [|y l']; [reflexivity|].
            change (removelast (x :: y :: l')) with (x :: removelast (y :: l')).
            cbn [List.length]. rewrite IH by discriminate. cbn. lia. }
          destruct b; [congruence|]. cbn [List.length]. lia. }
        assert (Ep : firstn (List.length cwd) (b ++ removelast cwd) = cwd).
        { assert (Ec : cwd = removelast cwd ++ [List.last cwd 0%N])
            by now apply app_removelast_last.
          assert (E1 : b ++ cwd ++ post
                       = (b ++ removelast cwd) ++ (List.last cwd 0%N :: post)).
          { rewrite Ec at 1. now rewrite <- !app_assoc. }
          rewrite E1 in E.
          apply (f_equal (firstn (List.length cwd))) in E.
          rewrite firstn_app in E.
          replace (List.length cwd - List.length (b ++ removelast cwd)) with 0 in E by lia.
          cbn [firstn] in E. rewrite app_nil_r in E. rewrite E.
          rewrite firstn_app, firstn_all, Nat.sub_diag. cbn. now rewrite app_nil_r. }
        rewrite <- app_assoc.
        assert (Hgen : forall x y, startsWith cwd y = true -> includes cwd (x ++ y) = true).
        { induction x as [|c x IHx]; intros y Hy.
          - destruct y; cbn [app includes]; now rewrite Hy.
          - cbn [app includes]. now rewrite (IHx y Hy), orb_true_r. }
        apply Hgen. apply startsWith_true.
        exists (skipn (List.length cwd) (b ++ removelast cwd)).
        transitivity (firstn (List.length cwd) (b ++ removelast cwd)
                      ++ skipn (List.length cwd) (b ++ removelast cwd));
          [symmetry; apply firstn_skipn|now rewrite Ep]. }
      rewrite Hinc in H. discriminate.
Qed.

Lemma formatStackLine_strips_directory_and_parentheses_witness :
  LoggerEarlier.formatStackLine Samples.host
    (str "at main (file:///app/src/main.ts:10:5)")
  = str "src/main.ts:10:5".
Proof.
  exact (proj2 (proj2 (formatStackLine_strips_directory_and_parentheses
                         Samples.host (str "at main (file:///app/src/main.ts:10:5)")))
               (str "at main (file://") (str "src/main.ts:10:5)") eq_refl eq_refl).
Defined.

(** *** Records of http calls *)

(** X14.  The record of an [http] call carries the request and the
    response: version, id, method, content type, referrer and URL of
    the request, content type and status of the response.  Its
    duration is the response's, or 0.1 when that is missing, zero or
    NaN, so it is never falsy.  The record has an empty message, no
    arguments and no error fields, and its level is HTTP. *)
Theorem http_record_carries_request_and_response
        (format : LogObject -> completion jsstring Exception)
        (h : Host) (settings : Settings)
        (request : Request) (response : Response)
        (r : LogObject) (calls : list TransportCall) :
  Logger.http format h settings request response = Normal (r, calls) ->
  (exists d,
     http_fields r
     = mkHttp (Some d) (httpVersion request) (request_id request) (method request)
              (request_get request (str "content-type"))
              (request_get request (str "referrer"))
              (originalUrl request)
              (response_get response (str "content-type"))
              (statusCode response) /\
     truthy_number d = true /\
     (forall d0, duration response = Some d0 -> truthy_number d0 = true -> d = d0) /\
     ((duration response = None
       \/ exists d0, duration response = Some d0 /\ truthy_number d0 = false) ->
      d = one_tenth)) /\
  base_fields r = mkBase [] None None None /\
  error_fields r = mkError None None None None None /\
  log_level (log_fields r) = Some LevelName.Http.
Proof.
  unfold Logger.http, Logger.log. intros H.
  destruct (Logger.build h settings LevelName.Http _) as [o|] eqn:Eb; [|discriminate].
  assert (Er : r = o).
  { destruct (isSilentMode settings _); [now injection H as <- _|].
    destruct (format o); [|discriminate].
    destruct (SeverityNameByLevel _); [|discriminate]. now injection H as <- _. }
  subst r. clear H.
  destruct (build_normal h settings LevelName.Http _ o Eb)
    as (origin & file & _ & El & Ebase & Ee & Eh).
  cbn [opt_message opt_args opt_error opt_request opt_response] in *.
  rewrite El, Ebase, Ee, Eh. cbn [log_level].
  split; [|repeat split].
  unfold Logger.new_LogObject, setResponseFields, setRequestFields.
  cbn [truthy http_fields initial event_duration http_version http_request_id
       http_request_method http_request_mime_type http_request_referrer
       http_request_url_original http_response_mime_type http_response_status_code].
  eexists. split; [reflexivity|].
  destruct (duration response) as [d0|] eqn:Ed.
  - destruct (truthy_number d0) eqn:Et.
    + split; [exact Et|]. split.
      * intros d1 E _. now injection E as <-.
      * intros [E|(d1 & E & Hf)]; [discriminate|].
        injection E as <-. congruence.
    + split; [vm_compute; reflexivity|]. split.
      * intros d1 E Hd1. injection E as <-. congruence.
      * reflexivity.
  - split; [vm_compute; reflexivity|]. split.
    + intros d1 E. discriminate.
    + reflexivity.
Qed.

Lemma http_record_carries_request_and_response_witness :
  exists r,
    Logger.http
      (PrettyLogger.Logger_format Samples.plain_libs Samples.warning_settings)
      Samples.host Samples.warning_settings MoreSamples.request MoreSamples.response
    = Normal (r, []) /\
    event_duration (http_fields r) = Some one_tenth /\
    http_request_method (http_fields r) = Some (str "GET") /\
    base_fields r = mkBase [] None None None.
Proof.
  eexists. split; [vm_compute; reflexivity|].
  split; [reflexivity|]. split; [reflexivity|].
  apply (http_record_carries_request_and_response
           (PrettyLogger.Logger_format Samples.plain_libs Samples.warning_settings)
           Samples.host Samples.warning_settings
           MoreSamples.request MoreSamples.response _ []).
  vm_compute. reflexivity.
Defined.

(** *** The pretty format and the padding *)

Lemma LevelName_length (level : LevelName.t) :
  (Z.of_nat (List.length (LevelName.text level)) <= 5)%Z.
Proof. destruct level; cbn; lia. Qed.

Lemma build_level (h : Host) (settings : Settings) (level : LevelName.t)
      (options : LogOptions) (o : LogObject) :
  Logger.build h settings level options = Normal o ->
  log_level (log_fields o) = Some level.
Proof.
  intros H. destruct (build_normal h settings level options o H)
    as (origin & file & _ & El & _).
  now rewrite El.
Qed.

Lemma repeat_unit_length (A : Type) (x : A) (n : nat) :
  List.length (List.concat (List.repeat [x] n)) = n.
Proof.
  induction n as [|n IH]; [reflexivity|].
  change (List.concat (List.repeat [x] (S n)))
    with (x :: List.concat (List.repeat [x] n)).
  cbn [List.length]. now rewrite IH.
Qed.

Lemma repeat_unit_all (x : code_unit) (n : nat) :
  forallb (N.eqb x) (List.concat (List.repeat [x] n)) = true.
Proof.
  induction n as [|n IH]; [reflexivity|].
  change (List.concat (List.repeat [x] (S n)))
    with (x :: List.concat (List.repeat [x] n)).
  cbn [forallb]. now rewrite N.eqb_refl, IH.
Qed.

(** X15.  The pretty format puts [padding] minus the length of the
    level name spaces after the name.  For a record a log call has
    built it throws a RangeError when the padding is smaller than the
    length of the level name, and when the padding exceeds that length
    by more than the longest string of the engine.  When it returns,
    the padding lies in between and the level name and the spaces
    after it fill exactly the padding. *)
Theorem pretty_format_needs_room_for_the_level
        (libs : PrettyLogger.Libs) (h : Host) (settings : Settings)
        (level : LevelName.t) (options : LogOptions) (o : LogObject) :
  Logger.build h settings level options = Normal o ->
  ((padding settings < Z.of_nat (List.length (LevelName.text level)))%Z \/
   (Z.of_nat (List.length (LevelName.text level))
    + Z.of_N (PrettyLogger.max_string_length libs) < padding settings)%Z ->
   PrettyLogger.format libs settings o = Throw RangeError) /\
  (forall out,
     PrettyLogger.format libs settings o = Normal out ->
     (Z.of_nat (List.length (LevelName.text level)) <= padding settings
      <= Z.of_nat (List.length (LevelName.text level))
         + Z.of_N (PrettyLogger.max_string_length libs))%Z /\
     exists spaces,
       repeat (PrettyLogger.max_string_length libs) (str " ")
              (padding settings - Z.of_nat (List.length (LevelName.text level)))
       = Some spaces /\
       forallb (N.eqb space) spaces = true /\
       Z.of_nat (List.length (LevelName.text level ++ spaces)) = padding settings).
Proof.
  intros H. pose proof (build_level h settings level options o H) as El.
  set (len := Z.of_nat (List.length (LevelName.text level))).
  set (room := (padding settings - len)%Z).
  assert (Hr : repeat (PrettyLogger.max_string_length libs) (str " ") room
               = if ((room <? 0)%Z
                     || (Z.of_N (PrettyLogger.max_string_length libs) <? room)%Z)%bool
                 then None
                 else Some (List.concat (List.repeat [space] (Z.to_nat room)))).
  { unfold repeat. change (str " ") with [space]. cbn [List.length].
    rewrite Z.mul_1_l. now destruct (room <? 0)%Z. }
  split.
  - intros Hp. unfold PrettyLogger.format, PrettyLogger.getPrettyTemplate.
    rewrite El. fold len. fold room. rewrite Hr.
    assert (E : ((room <? 0)%Z
                 || (Z.of_N (PrettyLogger.max_string_length libs) <? room)%Z)%bool
                = true).
    { apply orb_true_iff. destruct Hp as [Hp|Hp]; [left|right];
        apply Z.ltb_lt; unfold room; lia. }
    now rewrite E.
  - intros out Hf. unfold PrettyLogger.format, PrettyLogger.getPrettyTemplate in Hf.
    rewrite El in Hf. fold len in Hf. fold room in Hf. rewrite Hr in Hf.
    fold room. rewrite Hr.
    destruct ((room <? 0)%Z
              || (Z.of_N (PrettyLogger.max_string_length libs) <? room)%Z)%bool
      eqn:E; [discriminate|].
    apply orb_false_iff in E as [E1 E2].
    apply Z.ltb_ge in E1. apply Z.ltb_ge in E2.
    split; [unfold room in *; lia|].
    eexists. split; [reflexivity|]. split; [apply repeat_unit_all|].
    rewrite length_app, repeat_unit_length. fold len. unfold room in *. lia.
Qed.

Lemma pretty_format_needs_room_for_the_level_witness :
  exists o,
    Logger.build Samples.host Samples.narrow_settings LevelName.Debug
      (mkLogOptions (str "hello") (Some []) U_undefined None None)
    = Normal o /\
    PrettyLogger.format Samples.plain_libs Samples.narrow_settings o
    = Throw RangeError.
Proof.
  eexists. split; [vm_compute; reflexivity|].
  refine (proj1 (pretty_format_needs_room_for_the_level
                   Samples.plain_libs Samples.host Samples.narrow_settings
                   LevelName.Debug
                   (mkLogOptions (str "hello") (Some []) U_undefined None None)
                   _ _) _).
  - vm_compute. reflexivity.
  - left. vm_compute. reflexivity.
Defined.

(** *** The origin of a record *)



(** X24.  A log call needs an origin.  In the current revision the
    record is built before the severity is looked at, so a call whose
    stack gives no call site, or a last call site without file name,
    throws a TypeError even when the severity suppresses it.  In the
    earlier revision a call that is not suppressed throws a TypeError
    when no line of the stack text is a file line. *)
Theorem log_call_needs_an_origin
        (format : LogObject -> completion jsstring Exception)
        (h : Host) (settings : Settings) (sev : N)
        (level : LevelName.t) (options : LogOptions) :
  ((forall cs,
      Logger.callsites h
        (if is_Error (opt_error options)
         then Some (as_Error (opt_error options)) else None)
      = Some (Sites cs) ->
      List.last (map fileName cs) None = None) ->
   Logger.log format h settings sev level options = Throw TypeError) /\
  (isSilentMode settings sev = false ->
   is_Error (opt_error options) = false ->
   filter LoggerEarlier.isFileLine (split newline (new_Error_stack h)) = [] ->
   LoggerEarlier.log format h settings sev level options = Throw TypeError).
Proof.
  split.
  - intros H. unfold Logger.log, Logger.build, Logger.setLogFields.
    cbn [setBaseFields priv_error].
    destruct (LoggerFacts.new_LogObject_fixed h (opt_error options)
                (opt_request options) (opt_response options)) as (Hp & _).
    rewrite Hp.
    destruct (Logger.callsites h _) as [[cs|t]|]; try reflexivity.
    specialize (H cs eq_refl).
    assert (Hl : forall l : list ExpandedCallSite,
               List.last (map fileName l) None
               = match List.last (map Some l) None with
                 | Some origin => fileName origin
                 | None => None
                 end).
    { induction l as [|x l IH]; [reflexivity|].
      destruct l as [|y l']; [reflexivity|].
      change (List.last (map fileName (x :: y :: l')) None)
        with (List.last (map fileName (y :: l')) None).
      change (List.last (map Some (x :: y :: l')) None)
        with (List.last (map Some (y :: l')) None).
      exact IH. }
    rewrite Hl in H.
    destruct (List.last (map Some cs) None) as [origin|]; [|reflexivity].
    destruct (fileName origin); [discriminate|reflexivity].
  - intros Hs He Hf. unfold LoggerEarlier.log. rewrite Hs.
    unfold LoggerEarlier.new_LogObject, LoggerEarlier.setErrorFields.
    rewrite He.
    assert (Hlast : forall o,
               priv_error o = opt_error options ->
               LoggerEarlier.setLogFields h level (loggerName settings) o
               = Throw TypeError).
    { intros o Ho. unfold LoggerEarlier.setLogFields, LoggerEarlier.getLastFileStack.
      rewrite Ho, He. cbn [LoggerEarlier.stack_of]. now rewrite Hf. }
    destruct (truthy (opt_error options)).
    + unfold LoggerEarlier.getStackTrace. cbn [LoggerEarlier.stack_of].
      rewrite Hlast; [reflexivity|].
      destruct (opt_request options), (opt_response options); reflexivity.
    + rewrite Hlast; [reflexivity|].
      destruct (opt_request options), (opt_response options); reflexivity.
Qed.

Lemma log_call_needs_an_origin_witness :
  Logger.debug
    (PrettyLogger.Logger_format Samples.plain_libs Samples.warning_settings)
    MoreSamples.no_frames Samples.warning_settings (str "hello") []
  = Throw TypeError /\
  LoggerEarlier.warn
    (PrettyLogger.Logger_format_earlier Samples.plain_libs Samples.warning_settings)
    MoreSamples.no_frames Samples.warning_settings (str "hello") []
  = Throw TypeError.
Proof.
  split.
  - apply (proj1 (log_call_needs_an_origin
                    (PrettyLogger.Logger_format Samples.plain_libs
                       Samples.warning_settings)
                    MoreSamples.no_frames Samples.warning_settings
                    (SeverityLevel SeverityName.Debug) LevelName.Debug
                    (mkLogOptions (str "hello") (Some []) U_undefined None None))).
    intros cs E. injection E as <-. reflexivity.
  - exact (proj2 (log_call_needs_an_origin
                    (PrettyLogger.Logger_format_earlier Samples.plain_libs
                       Samples.warning_settings)
                    MoreSamples.no_frames Samples.warning_settings
                    (SeverityLevel SeverityName.Warning) LevelName.Warn
                    (mkLogOptions (str "hello") (Some []) U_undefined None None))
                 eq_refl eq_refl eq_refl).
Defined.

End LoggerLaws.

(** ** The [run] entry point: imports and the order of the commands *)
Module RunLaws.
Import JS Command.

Lemma map_throw_app (A B E : Type) (f : A -> completion B E) (l1 l2 : list A) :
  map_throw f (l1 ++ l2)
  = match map_throw f l1 with
    | Throw e => Throw e
    | Normal ys1 =>
        match map_throw f l2 with
        | Throw e => Throw e
        | Normal ys2 => Normal (ys1 ++ ys2)
        end
    end.
Proof.
  induction l1 as [|x l1 IH]; cbn [app map_throw].
  - now destruct (map_throw f l2).
  - destruct (f x) as [y|e]; [|reflexivity]. rewrite IH.
    destruct (map_throw f l1) as [ys1|e]; [|reflexivity].
    now destruct (map_throw f l2).
Qed.

Lemma discover_aborts (h : Host) (paths : list jsstring) :
  (exists p, In p paths /\ import_ h p = Throw tt) ->
  finish h (discover h paths) = Aborted.
Proof.
  unfold finish, discover. intros (p & Hin & Hp).
  destruct (proj2 (GitFacts.map_throw_throw _ _ _ (getAllModuleImports h) paths))
    as [e E]; [exists p; split; [exact Hin|now exists tt]|].
  now rewrite E.
Qed.

(** X16.  The guard of the entry point covers the directory listing
    only: when a module, a local script or a default one, fails to be
    imported, the run is aborted, whatever the other modules export:
    no command is registered and no argument is parsed.  In the entry
    point of bin/run.ts, once the listing has succeeded, the same
    holds for the listed scripts. *)
Theorem failed_import_aborts_the_run (h : Host) :
  ((exists p, In p (Run.localPaths h ++ Run.defaultPaths)
              /\ import_ h p = Throw tt) ->
   Run.main h = Aborted) /\
  ((exists p, In p Run.defaultPaths /\ import_ h p = Throw tt) ->
   Run.main h = Aborted) /\
  (forall paths,
     getLocalPaths h (RunEarlier.BIN_DIR h) [] = Normal paths ->
     (exists p, In p paths /\ import_ h p = Throw tt) ->
     RunEarlier.main h = Aborted).
Proof.
  split; [|split].
  - unfold Run.main, Run.subcommands. apply discover_aborts.
  - intros (p & Hin & Hp). unfold Run.main, Run.subcommands.
    apply discover_aborts. exists p. split; [|exact Hp].
    apply in_or_app. now right.
  - intros paths H. unfold RunEarlier.main, RunEarlier.subcommands. rewrite H.
    apply discover_aborts.
Qed.

Lemma failed_import_aborts_the_run_witness :
  Run.localPaths MoreSamples.broken_script = [str "bin/ok.ts"; str "bin/broken.ts"] /\
  Run.main MoreSamples.broken_script = Aborted.
Proof.
  split; [reflexivity|].
  apply (proj1 (failed_import_aborts_the_run MoreSamples.broken_script)).
  exists (str "bin/broken.ts"). split; [right; now left|reflexivity].
Defined.

(** X17.  Discovery keeps the order of the paths: the commands found
    under two lists of paths, one after the other, are the commands of
    the first list followed by those of the second.  The guarded entry
    point therefore registers the commands of the local scripts, in
    listing order, before the commands of the default modules. *)
Theorem discovery_keeps_the_order_of_paths
        (h : Host) (first second : list jsstring) (c1 c2 : list Cliffy) :
  discover h first = Normal c1 ->
  discover h second = Normal c2 ->
  discover h (first ++ second) = Normal (c1 ++ c2) /\
  (first = Run.localPaths h -> second = Run.defaultPaths ->
   Run.main h
   = Ready (registerSubcommands c1 ++ registerSubcommands c2)
           (if import_meta_main h then Some (Deno_args h) else None)).
Proof.
  unfold discover. intros H1 H2.
  assert (E : discover h (first ++ second) = Normal (c1 ++ c2)).
  { unfold discover. rewrite map_throw_app.
    destruct (map_throw (getAllModuleImports h) first) as [m1|]; [|discriminate].
    destruct (map_throw (getAllModuleImports h) second) as [m2|]; [|discriminate].
    injection H1 as <-. injection H2 as <-.
    now rewrite concat_app, filter_app, map_app. }
  split; [exact E|].
  intros -> ->. unfold Run.main, Run.subcommands, finish. rewrite E.
  unfold registerSubcommands. now rewrite map_app.
Qed.

Lemma discovery_keeps_the_order_of_paths_witness :
  discover Samples.no_bin_directory ([str "a.ts"] ++ [str "b.ts"])
  = Normal (map (fun v => toCliffy (as_options v)) [Samples.init_deno]
            ++ map (fun v => toCliffy (as_options v)) [Samples.init_deno]).
Proof.
  exact (proj1 (discovery_keeps_the_order_of_paths
                  Samples.no_bin_directory [str "a.ts"] [str "b.ts"]
                  _ _ eq_refl eq_refl)).
Defined.

End RunLaws.

(** ** The emoji module *)
Module EmojiLaws.
Import JS JSFacts ReplaceFacts Emoji Vocabulary.

#[local] Arguments N.eqb : simpl never.
#[local] Arguments N.leb : simpl never.
#[local] Arguments N.ltb : simpl never.
#[local] Arguments N.mul : simpl never.
#[local] Arguments N.add : simpl never.
#[local] Arguments N.sub : simpl never.
#[local] Arguments N.div : simpl never.
#[local] Arguments N.modulo : simpl never.

(** *** Emoji codes *)

Lemma colon_not_word : isWord Emoji.colon = false.
Proof. reflexivity. Qed.

Lemma word_run_prefix (s : jsstring) :
  s = word_run s ++ skipn (List.length (word_run s)) s /\
  forallb isWord (word_run s) = true.
Proof.
  induction s as [|c r [IH1 IH2]]; [now split|].
  cbn [word_run]. destruct (isWord c) eqn:Ec; [|now split].
  cbn [List.length skipn app forallb]. rewrite Ec, IH2. split; [|reflexivity].
  now rewrite <- IH1.
Qed.

Lemma word_run_app (name rest : jsstring) :
  forallb isWord name = true ->
  match rest with [] => True | c :: _ => isWord c = false end ->
  word_run (name ++ rest) = name.
Proof.
  induction name as [|c name IH]; intros Hn Hr.
  - destruct rest as [|c rest]; [reflexivity|]. cbn. now rewrite Hr.
  - cbn [forallb] in Hn. apply andb_true_iff in Hn. destruct Hn as [Hc Hn].
    cbn [app word_run]. rewrite Hc. now rewrite (IH Hn Hr).
Qed.

Lemma match_code_sound (s m : jsstring) :
  match_code s = Some m ->
  exists name post,
    s = m ++ post /\ m = Emoji.colon :: name ++ [Emoji.colon] /\
    name <> [] /\ forallb isWord name = true.
Proof.
  destruct s as [|c r]; [discriminate|]. cbn [match_code].
  destruct (c =? Emoji.colon)%N eqn:Ec; [|discriminate].
  apply N.eqb_eq in Ec. subst c.
  destruct (word_run_prefix r) as [Er Hw].
  destruct (word_run r) as [|w run] eqn:Erun; [discriminate|].
  destruct (skipn (List.length (w :: run)) r) as [|d post] eqn:Es; [discriminate|].
  destruct (d =? Emoji.colon)%N eqn:Ed; [|discriminate].
  apply N.eqb_eq in Ed. subst d. intros H. injection H as <-.
  exists (w :: run), post. repeat split; [|discriminate|exact Hw].
  rewrite Er at 1. cbn [app]. now rewrite <- app_assoc.
Qed.

Lemma match_code_complete (name post : jsstring) :
  name <> [] -> forallb isWord name = true ->
  match_code (Emoji.colon :: name ++ Emoji.colon :: post)
  = Some (Emoji.colon :: name ++ [Emoji.colon]).
Proof.
  intros Hne Hw. cbn [match_code]. rewrite N.eqb_refl.
  rewrite (word_run_app name (Emoji.colon :: post) Hw colon_not_word).
  destruct name as [|w run]; [congruence|].
  rewrite skipn_app, skipn_all, Nat.sub_diag. cbn [skipn app].
  now rewrite N.eqb_refl.
Qed.

Lemma substring2_name (name : jsstring) :
  name <> [] ->
  substring2 1 (Z.of_nat (List.length (Emoji.colon :: name ++ [Emoji.colon])) - 1)
             (Emoji.colon :: name ++ [Emoji.colon])
  = name.
Proof.
  intros Hne. unfold substring2.
  assert (Hl : List.length (Emoji.colon :: name ++ [Emoji.colon])
               = S (S (List.length name))).
  { cbn [List.length]. rewrite length_app. cbn. lia. }
  assert (Hn : 0 < List.length name) by (destruct name; [congruence|cbn; lia]).
  rewrite Hl.
  replace (Z.to_nat (Z.min (Z.min (Z.max 0 1) (Z.of_nat (S (S (List.length name)))))
                           (Z.min (Z.max 0 (Z.of_nat (S (S (List.length name))) - 1))
                                  (Z.of_nat (S (S (List.length name)))))))
    with 1 by lia.
  replace (Z.to_nat
             (Z.max (Z.min (Z.max 0 1) (Z.of_nat (S (S (List.length name)))))
                    (Z.min (Z.max 0 (Z.of_nat (S (S (List.length name))) - 1))
                           (Z.of_nat (S (S (List.length name)))))
              - Z.min (Z.min (Z.max 0 1) (Z.of_nat (S (S (List.length name)))))
                      (Z.min (Z.max 0 (Z.of_nat (S (S (List.length name))) - 1))
                             (Z.of_nat (S (S (List.length name)))))))
    with (List.length name) by lia.
  cbn [skipn]. rewrite firstn_app, firstn_all, Nat.sub_diag. cbn.
  now rewrite app_nil_r.
Qed.

Lemma match_codes_from_elements (whole : jsstring) :
  forall s skip pre, whole = pre ++ s ->
    Forall (fun c =>
              occurs c whole /\
              exists name,
                c = Emoji.colon :: name ++ [Emoji.colon] /\
                name <> [] /\ forallb isWord name = true)
           (match_codes_from skip s).
Proof.
  induction s as [|c r IH]; intros skip pre E; [constructor|].
  assert (Er : whole = (pre ++ [c]) ++ r) by now rewrite <- app_assoc.
  destruct skip as [|n]; [|exact (IH n _ Er)].
  cbn [match_codes_from].
  destruct (match_code (c :: r)) as [m|] eqn:Em; [|exact (IH 0 _ Er)].
  constructor; [|exact (IH _ _ Er)].
  destruct (match_code_sound _ m Em) as (name & post & Es & Hm & Hne & Hw).
  split.
  - exists pre, post. now rewrite E, Es.
  - now exists name.
Qed.

Lemma match_codes_from_no_colon :
  forall s skip, ~ In Emoji.colon s -> match_codes_from skip s = [].
Proof.
  induction s as [|c r IH]; intros skip H; [reflexivity|].
  assert (Hr : ~ In Emoji.colon r) by (intros Hin; apply H; now right).
  destruct skip as [|n]; cbn [match_codes_from match_code]; [|now apply IH].
  destruct (c =? Emoji.colon)%N eqn:Ec.
  - apply N.eqb_eq in Ec. subst c. exfalso. apply H. now left.
  - now apply IH.
Qed.

Lemma replaceAll_from_all (pat v : jsstring) :
  forall rest before, replaceAll_from pat v before (List.length rest) rest = [].
Proof.
  induction rest as [|x rest IH]; intros before; [reflexivity|].
  cbn [List.length replaceAll_from]. apply IH.
Qed.

(** Replacing a text that is the whole string. *)
Lemma replaceAll_whole (pat v : jsstring) :
  pat <> [] -> replaceAll pat v pat = GetSubstitution pat [] [] v.
Proof.
  intros Hp. destruct pat as [|p pat']; [congruence|].
  unfold replaceAll. cbn [replaceAll_from].
  assert (E : startsWith (p :: pat') (p :: pat') = true)
    by (apply startsWith_true; exists []; now rewrite app_nil_r).
  rewrite E.
  replace (List.length (p :: pat') - 1) with (List.length pat') by (cbn; lia).
  now rewrite replaceAll_from_all, app_nil_r, skipn_all.
Qed.

Section Host.
Variable githubEmojis : list EmojiEntry.
Variable getEmoji : jsstring -> option jsstring.
Variable match_emojis : jsstring -> list jsstring.

(** X18.  Every emoji code the conversion finds in a text is a colon,
    a non-empty run of word characters and a colon; it occurs in the
    text, [isEmojiCode] accepts it, and the name looked up in the
    library is the run between the colons.  A text without a colon is
    returned unchanged. *)
Theorem emoji_codes_are_names_between_colons (text : jsstring) :
  Forall (fun c =>
            occurs c text /\ isEmojiCode c = true /\
            exists name,
              c = Emoji.colon :: name ++ [Emoji.colon] /\
              name <> [] /\ forallb isWord name = true /\
              substring2 1 (Z.of_nat (List.length c) - 1) c = name)
         (match_codes text) /\
  (~ In Emoji.colon text -> emojiCodeToChar getEmoji text = text).
Proof.
  split.
  - eapply Forall_impl; [|exact (match_codes_from_elements text text 0 [] eq_refl)].
    intros c (Hocc & name & -> & Hne & Hw). split; [exact Hocc|]. split.
    + unfold isEmojiCode.
      pose proof (match_code_complete name [] Hne Hw) as Hm.
      rewrite Hm. apply Nat.eqb_refl.
    + exists name. repeat split; trivial. now apply substring2_name.
  - intros H. unfold emojiCodeToChar, match_codes.
    now rewrite (match_codes_from_no_colon text 0 H).
Qed.

(** X19.  A text that is one emoji code, a name of word characters
    between colons, is converted to what the library gives for the
    name when that holds no [$]; when the library does not know the
    name the result is the text [undefined]. *)
Theorem single_emoji_code_conversion (name : jsstring) :
  truthy_string name = true -> forallb isWord name = true ->
  (forall emoji,
     getEmoji name = Some emoji ->
     forallb (fun c => negb (c =? dollar)%N) emoji = true ->
     emojiCodeToChar getEmoji (Emoji.colon :: name ++ [Emoji.colon]) = emoji) /\
  (getEmoji name = None ->
   emojiCodeToChar getEmoji (Emoji.colon :: name ++ [Emoji.colon])
   = str "undefined").
Proof.
  intros Hne Hw.
  assert (Hn : name <> []) by (destruct name; [discriminate|discriminate]).
  assert (Hc : match_codes (Emoji.colon :: name ++ [Emoji.colon])
               = [Emoji.colon :: name ++ [Emoji.colon]]).
  { unfold match_codes. cbn [match_codes_from].
    rewrite (match_code_complete name [] Hn Hw).
    f_equal.
    change (List.length (Emoji.colon :: name ++ [Emoji.colon]) - 1)
      with (List.length (name ++ [Emoji.colon]) - 0).
    rewrite Nat.sub_0_r.
    assert (Hs : forall (s : jsstring), match_codes_from (List.length s) s = []).
    { induction s as [|x s IH]; [reflexivity|]. cbn [List.length match_codes_from].
      exact IH. }
    apply Hs. }
  assert (Hmain : forall v,
             ToString (getEmoji name) = v ->
             forallb (fun c => negb (c =? dollar)%N) v = true ->
             emojiCodeToChar getEmoji (Emoji.colon :: name ++ [Emoji.colon]) = v).
  { intros v Ev Hv. unfold emojiCodeToChar. rewrite Hc. cbn [fold_left].
    rewrite (substring2_name name Hn), Ev.
    rewrite replaceAll_whole by discriminate.
    apply GetSubstitution_plain. intros Hin.
    rewrite forallb_forall in Hv. specialize (Hv _ Hin).
    now rewrite N.eqb_refl in Hv. }
  split.
  - intros emoji E Hd. apply Hmain; [now rewrite E|exact Hd].
  - intros E. apply Hmain; [now rewrite E|reflexivity].
Qed.

(** *** Code points *)

Lemma split_from_unit_absent (c : code_unit) :
  forall s cur, ~ In c s -> split_from [c] cur 0 s = [rev cur ++ s].
Proof.
  induction s as [|x s IH]; intros cur H.
  - cbn. now rewrite app_nil_r.
  - cbn [split_from startsWith].
    assert (Hx : (c =? x)%N = false).
    { apply N.eqb_neq. intros ->. apply H. now left. }
    rewrite Hx. cbn [andb]. rewrite IH.
    + cbn [rev]. now rewrite <- app_assoc.
    + intros Hin. apply H. now right.
Qed.

Lemma split_from_unit_present (c : code_unit) :
  forall s cur, In c s -> 1 < List.length (split_from [c] cur 0 s).
Proof.
  induction s as [|x s IH]; intros cur H; [destruct H|].
  cbn [split_from startsWith]. rewrite andb_true_r.
  destruct (c =? x)%N eqn:Ex.
  - cbn [List.length Nat.sub].
    pose proof (GitFacts.split_from_nonempty [c] s [] 0) as Hn.
    destruct (split_from [c] [] 0 s); [congruence|cbn; lia].
  - apply IH. destruct H as [->|H]; [|exact H].
    now rewrite N.eqb_refl in Ex.
Qed.

Lemma scalar_cases (cp : N) :
  scalar cp = true ->
  ((cp < 55296)%N \/ (57344 <= cp < 65536)%N \/ (65536 <= cp <= 1114111)%N).
Proof.
  unfold scalar. intros H. apply orb_true_iff in H. destruct H as [H|H].
  - apply N.ltb_lt in H. now left.
  - apply andb_true_iff in H. destruct H as [H1 H2].
    apply N.leb_le in H1. apply N.leb_le in H2. lia.
Qed.

Lemma in_range_false (lo hi n : N) :
  (n < lo \/ hi < n)%N -> truthy_code n && (lo <=? n)%N && (n <=? hi)%N = false.
Proof.
  intros [H|H].
  - assert (E : (lo <=? n)%N = false) by (apply N.leb_gt; lia).
    rewrite E. now rewrite andb_false_r.
  - assert (E : (n <=? hi)%N = false) by (apply N.leb_gt; lia).
    rewrite E. now rewrite andb_false_r.
Qed.

(** The surrogates of a supplementary code point. *)
Lemma utf16_pair (cp : N) :
  (65536 <= cp <= 1114111)%N ->
  exists hi lo,
    utf16 cp = [hi; lo] /\
    (55296 <= hi <= 56319)%N /\ (56320 <= lo <= 57343)%N /\
    ((hi - 55296) * 1024 + (lo - 56320) + 65536 = cp)%N.
Proof.
  intros [H1 H2]. unfold utf16.
  assert (E : (cp <? 65536)%N = false) by (apply N.ltb_ge; lia). rewrite E.
  assert (Hdm : (cp - 65536 = 1024 * ((cp - 65536) / 1024) + (cp - 65536) mod 1024)%N)
    by (apply N.div_mod; lia).
  assert (Hm : ((cp - 65536) mod 1024 < 1024)%N) by (apply N.mod_lt; lia).
  assert (Hq : ((cp - 65536) / 1024 <= 1023)%N).
  { assert (Hlt : ((cp - 65536) / 1024 < 1024)%N).
    { apply N.Div0.div_lt_upper_bound; lia. }
    lia. }
  exists (55296 + (cp - 65536) / 1024)%N, (56320 + (cp - 65536) mod 1024)%N.
  split; [reflexivity|].
  set (q := ((cp - 65536) / 1024)%N) in *.
  set (m := ((cp - 65536) mod 1024)%N) in *.
  clearbody q m. lia.
Qed.

Lemma codePointAt_utf16 (cp : N) (rest : jsstring) :
  scalar cp = true -> codePointAt (utf16 cp ++ rest) = Some cp.
Proof.
  intros H. destruct (scalar_cases cp H) as [Hc|[Hc|Hc]].
  - unfold utf16. assert (E : (cp <? 65536)%N = true) by (apply N.ltb_lt; lia).
    rewrite E. cbn [app codePointAt]. unfold isLeadSurrogate.
    assert (E1 : (55296 <=? cp)%N = false) by (apply N.leb_gt; lia).
    now rewrite E1.
  - unfold utf16. assert (E : (cp <? 65536)%N = true) by (apply N.ltb_lt; lia).
    rewrite E. cbn [app codePointAt]. unfold isLeadSurrogate.
    assert (E1 : (cp <=? 56319)%N = false) by (apply N.leb_gt; lia).
    rewrite E1. now rewrite andb_false_r.
  - destruct (utf16_pair cp Hc) as (hi & lo & -> & Hhi & Hlo & Ecp).
    cbn [app codePointAt]. unfold isLeadSurrogate, isTrailSurrogate.
    assert (E1 : (55296 <=? hi)%N = true) by (apply N.leb_le; lia).
    assert (E2 : (hi <=? 56319)%N = true) by (apply N.leb_le; lia).
    assert (E3 : (56320 <=? lo)%N = true) by (apply N.leb_le; lia).
    assert (E4 : (lo <=? 57343)%N = true) by (apply N.leb_le; lia).
    rewrite E1, E2, E3, E4. cbn [andb]. now rewrite Ecp.
Qed.

(** What the loop sees after a trail surrogate: the next code point is
    no trail surrogate, so nothing is pushed. *)
Lemma codePointAt_next (cps : list N) :
  forallb scalar cps = true ->
  match codePointAt (List.concat (map utf16 cps)) with
  | Some nextCode =>
      truthy_code nextCode && (56320 <=? nextCode)%N && (nextCode <=? 57343)%N = false
  | None => True
  end.
Proof.
  destruct cps as [|cp cps]; [intros _; exact I|].
  cbn [forallb map List.concat]. intros H. apply andb_true_iff in H.
  destruct H as [Hcp _]. rewrite (codePointAt_utf16 cp _ Hcp).
  apply in_range_false. destruct (scalar_cases cp Hcp) as [Hc|[Hc|Hc]]; lia.
Qed.

Lemma codePoints_utf16 (cps : list N) :
  forallb scalar cps = true ->
  codePoints_from 0 (List.concat (map utf16 cps)) = cps.
Proof.
  induction cps as [|cp cps IH]; [reflexivity|].
  cbn [forallb map List.concat]. intros H. apply andb_true_iff in H.
  destruct H as [Hcp Hcps]. specialize (IH Hcps).
  pose proof (codePointAt_utf16 cp (List.concat (map utf16 cps)) Hcp) as Hat.
  assert (Hout : truthy_code cp && (55296 <=? cp)%N && (cp <=? 57343)%N = false).
  { apply in_range_false. destruct (scalar_cases cp Hcp) as [Hc|[Hc|Hc]]; lia. }
  assert (Hpush : (if truthy_code cp then cp else 0%N) = cp).
  { unfold truthy_code. destruct (cp =? 0)%N eqn:E; [|reflexivity].
    apply N.eqb_eq in E. now subst cp. }
  destruct (scalar_cases cp Hcp) as [Hc|[Hc|Hc]].
  - assert (E : utf16 cp = [cp]).
    { unfold utf16. assert (E : (cp <? 65536)%N = true) by (apply N.ltb_lt; lia).
      now rewrite E. }
    rewrite E in *. cbn [app] in *. cbn [codePoints_from].
    rewrite Hat, Hout, Hpush. now rewrite IH.
  - assert (E : utf16 cp = [cp]).
    { unfold utf16. assert (E : (cp <? 65536)%N = true) by (apply N.ltb_lt; lia).
      now rewrite E. }
    rewrite E in *. cbn [app] in *. cbn [codePoints_from].
    rewrite Hat, Hout, Hpush. now rewrite IH.
  - destruct (utf16_pair cp Hc) as (hi & lo & E & Hhi & Hlo & Ecp).
    rewrite E in *. cbn [app] in *.
    change (codePoints_from 0 (hi :: lo :: List.concat (map utf16 cps)))
      with (match codePointAt (hi :: lo :: List.concat (map utf16 cps)) with
            | None => 0%N :: codePoints_from 0 (lo :: List.concat (map utf16 cps))
            | Some currentCode =>
                if truthy_code currentCode && (55296 <=? currentCode)%N
                   && (currentCode <=? 57343)%N
                then
                  match codePointAt (lo :: List.concat (map utf16 cps)) with
                  | Some nextCode =>
                      if truthy_code nextCode && (56320 <=? nextCode)%N
                         && (nextCode <=? 57343)%N
                      then ((currentCode - 55296) * 1024 + (nextCode - 56320) + 65536)%N
                           :: codePoints_from 1 (lo :: List.concat (map utf16 cps))
                      else codePoints_from 0 (lo :: List.concat (map utf16 cps))
                  | None => codePoints_from 0 (lo :: List.concat (map utf16 cps))
                  end
                else (if truthy_code currentCode then currentCode else 0%N)
                     :: codePoints_from 0 (lo :: List.concat (map utf16 cps))
            end).
    rewrite Hat, Hout, Hpush. f_equal.
    change (codePoints_from 0 (lo :: List.concat (map utf16 cps)))
      with (match codePointAt (lo :: List.concat (map utf16 cps)) with
            | None => 0%N :: codePoints_from 0 (List.concat (map utf16 cps))
            | Some currentCode =>
                if truthy_code currentCode && (55296 <=? currentCode)%N
                   && (currentCode <=? 57343)%N
                then
                  match codePointAt (List.concat (map utf16 cps)) with
                  | Some nextCode =>
                      if truthy_code nextCode && (56320 <=? nextCode)%N
                         && (nextCode <=? 57343)%N
                      then ((currentCode - 55296) * 1024 + (nextCode - 56320) + 65536)%N
                           :: codePoints_from 1 (List.concat (map utf16 cps))
                      else codePoints_from 0 (List.concat (map utf16 cps))
                  | None => codePoints_from 0 (List.concat (map utf16 cps))
                  end
                else (if truthy_code currentCode then currentCode else 0%N)
                     :: codePoints_from 0 (List.concat (map utf16 cps))
            end).
    assert (Hlo_at : codePointAt (lo :: List.concat (map utf16 cps)) = Some lo).
    { cbn [codePointAt]. unfold isLeadSurrogate.
      assert (E2 : (lo <=? 56319)%N = false) by (apply N.leb_gt; lia).
      rewrite E2. now rewrite andb_false_r. }
    assert (Hlo_in : truthy_code lo && (55296 <=? lo)%N && (lo <=? 57343)%N = true).
    { unfold truthy_code.
      assert (E1 : (lo =? 0)%N = false) by (apply N.eqb_neq; lia).
      assert (E2 : (55296 <=? lo)%N = true) by (apply N.leb_le; lia).
      assert (E3 : (lo <=? 57343)%N = true) by (apply N.leb_le; lia).
      now rewrite E1, E2, E3. }
    rewrite Hlo_at, Hlo_in.
    pose proof (codePointAt_next cps Hcps) as Hnext.
    destruct (codePointAt (List.concat (map utf16 cps))) as [nextCode|];
      [rewrite Hnext|]; exact IH.
Qed.

Lemma utf16_no_space (cps : list N) :
  forallb scalar cps = true ->
  forallb (fun cp => negb (cp =? space)%N) cps = true ->
  ~ In space (List.concat (map utf16 cps)).
Proof.
  induction cps as [|cp cps IH]; [intros _ _ []|].
  cbn [forallb map List.concat]. intros H1 H2.
  apply andb_true_iff in H1. destruct H1 as [Hcp Hcps].
  apply andb_true_iff in H2. destruct H2 as [Hs Hss].
  apply negb_true_iff, N.eqb_neq in Hs.
  intros Hin. apply in_app_or in Hin. destruct Hin as [Hin|Hin]; [|now apply IH].
  destruct (scalar_cases cp Hcp) as [Hc|[Hc|Hc]].
  - unfold utf16 in Hin.
    assert (E : (cp <? 65536)%N = true) by (apply N.ltb_lt; lia).
    rewrite E in Hin. destruct Hin as [Hin|[]]. congruence.
  - unfold utf16 in Hin.
    assert (E : (cp <? 65536)%N = true) by (apply N.ltb_lt; lia).
    rewrite E in Hin. destruct Hin as [Hin|[]]. congruence.
  - destruct (utf16_pair cp Hc) as (hi & lo & E & Hhi & Hlo & _).
    rewrite E in Hin. unfold space in Hin.
    destruct Hin as [Hin|[Hin|[]]]; lia.
Qed.

(** X20.  [getEmojiUnicode] gives, for a well-formed text without
    space (the UTF-16 form of Unicode scalar values), the code points
    in lower-case hexadecimal joined by dashes, a surrogate pair
    counting as the one code point it encodes.  A text that holds a
    space is returned as it is, and neither it nor the empty text is an
    emoji for [isEmojiChar], whatever the table holds. *)
Theorem getEmojiUnicode_of_well_formed_text (cps : list N) :
  (forallb scalar cps = true ->
   forallb (fun cp => negb (cp =? space)%N) cps = true ->
   getEmojiUnicode (List.concat (map utf16 cps))
   = join (str "-") (map toString16 cps)) /\
  (forall text,
     In space text ->
     getEmojiUnicode text = text /\ isEmojiChar githubEmojis text = false) /\
  isEmojiChar githubEmojis [] = false.
Proof.
  split; [|split].
  - intros Hs Hn. unfold getEmojiUnicode.
    change (str " ") with [space]. unfold split.
    rewrite (split_from_unit_absent space _ [] (utf16_no_space cps Hs Hn)).
    cbn [List.length Nat.ltb Nat.leb]. now rewrite (codePoints_utf16 cps Hs).
  - intros text Hin.
    assert (E : getEmojiUnicode text = text).
    { unfold getEmojiUnicode. change (str " ") with [space]. unfold split.
      pose proof (split_from_unit_present space text [] Hin) as Hl.
      apply Nat.ltb_lt in Hl. now rewrite Hl. }
    split; [exact E|]. unfold isEmojiChar. rewrite E. now rewrite eqb_refl.
  - reflexivity.
Qed.

(** *** The table lookup *)

Lemma split_from_unit_piece (c : code_unit) :
  forall x cur s,
    ~ In c x ->
    split_from [c] cur 0 (x ++ c :: s) = (rev cur ++ x) :: split_from [c] [] 0 s.
Proof.
  induction x as [|y x IH]; intros cur s H.
  - cbn [app split_from startsWith]. rewrite N.eqb_refl. cbn [andb].
    now rewrite app_nil_r.
  - cbn [app split_from startsWith].
    assert (Hy : (c =? y)%N = false).
    { apply N.eqb_neq. intros ->. apply H. now left. }
    rewrite Hy. cbn [andb]. rewrite IH.
    + cbn [rev]. now rewrite <- app_assoc.
    + intros Hin. apply H. now right.
Qed.

Lemma split_join_unit (c : code_unit) (l : list jsstring) :
  l <> [] -> Forall (fun piece => ~ In c piece) l ->
  split [c] (join [c] l) = l.
Proof.
  intros Hne H. revert Hne.
  induction H as [|x l Hx Hl IH]; intros Hne; [now exfalso; apply Hne|].
  destruct l as [|y l'].
  - cbn [join]. unfold split. rewrite (split_from_unit_absent c x [] Hx).
    reflexivity.
  - change (join [c] (x :: y :: l')) with (x ++ c :: join [c] (y :: l')).
    unfold split. rewrite (split_from_unit_piece c x [] _ Hx).
    cbn [rev app]. f_equal. apply IH. discriminate.
Qed.

Lemma hex_digit_not_dash (d : N) : hex_digit d <> dash.
Proof.
  unfold hex_digit, dash. destruct (d <? 10)%N eqn:E.
  - apply N.ltb_lt in E. lia.
  - lia.
Qed.

Lemma hex_from_no_dash :
  forall fuel n acc, ~ In dash acc -> ~ In dash (hex_from fuel n acc).
Proof.
  induction fuel as [|fuel IH]; intros n acc H; [exact H|].
  cbn [hex_from].
  assert (H' : ~ In dash (hex_digit (n mod 16) :: acc)).
  { intros [E|Hin]; [exact (hex_digit_not_dash _ E)|exact (H Hin)]. }
  destruct (n / 16 =? 0)%N; [exact H'|now apply IH].
Qed.

Lemma toString16_no_dash (n : N) : ~ In dash (toString16 n).
Proof. unfold toString16. apply hex_from_no_dash. intros []. Qed.

(** X26.  For a well-formed emoji without space the table is searched
    first for the whole sequence of its code points and then, when
    that is not listed, for its first code point alone: a sequence the
    table does not know is described by the entry of the emoji it
    begins with. *)
Theorem getEmojiMetadata_falls_back_to_first_code_point
        (cp : N) (more : list N) :
  forallb scalar (cp :: more) = true ->
  forallb (fun c => negb (c =? space)%N) (cp :: more) = true ->
  getEmojiMetadata githubEmojis (List.concat (map utf16 (cp :: more)))
  = match find (findEmojiMetadata
                  (join (str "-") (map toString16 (cp :: more)))) githubEmojis with
    | Some metadata => Some metadata
    | None => find (findEmojiMetadata (toString16 cp)) githubEmojis
    end.
Proof.
  intros Hs Hn. unfold getEmojiMetadata.
  assert (Eu : getEmojiUnicode (List.concat (map utf16 (cp :: more)))
               = join (str "-") (map toString16 (cp :: more))).
  { unfold getEmojiUnicode. change (str " ") with [space]. unfold split.
    rewrite (split_from_unit_absent space _ [] (utf16_no_space _ Hs Hn)).
    cbn [List.length Nat.ltb Nat.leb]. now rewrite (codePoints_utf16 _ Hs). }
  rewrite Eu. cbv zeta.
  destruct (find _ githubEmojis) as [m|]; [reflexivity|].
  change (str "-") with [dash].
  rewrite split_join_unit.
  - reflexivity.
  - discriminate.
  - apply Forall_forall. intros piece Hin. apply in_map_iff in Hin.
    destruct Hin as (n & <- & _). apply toString16_no_dash.
Qed.

(** X27.  When the emoji expression finds a text to be one emoji,
    [emojiCharToCode] returns the code of the emoji's table entry, if
    the code holds no [$], and the text itself when the table has no
    entry for it. *)
Theorem single_emoji_char_conversion (text : jsstring) :
  match_emojis text = [text] -> truthy_string text = true ->
  (forall metadata,
     getEmojiMetadata githubEmojis text = Some metadata ->
     forallb (fun c => negb (c =? dollar)%N) (code metadata) = true ->
     emojiCharToCode githubEmojis match_emojis text = code metadata) /\
  (getEmojiMetadata githubEmojis text = None ->
   emojiCharToCode githubEmojis match_emojis text = text).
Proof.
  intros Hm Hne. unfold emojiCharToCode. rewrite Hm. cbn [fold_left]. split.
  - intros metadata E Hd. rewrite E.
    rewrite replaceAll_whole by (destruct text; discriminate).
    apply GetSubstitution_plain. intros Hin.
    rewrite forallb_forall in Hd. specialize (Hd _ Hin).
    now rewrite N.eqb_refl in Hd.
  - intros E. now rewrite E.
Qed.

End Host.

Lemma single_emoji_char_conversion_witness :
  emojiCharToCode MoreSamples.githubEmojis MoreSamples.match_emojis
                  [55357; 56397; 55356; 57341]%N
  = str ":+1:".
Proof.
  exact (proj1 (single_emoji_char_conversion
                  MoreSamples.githubEmojis MoreSamples.match_emojis
                  [55357; 56397; 55356; 57341]%N eq_refl eq_refl)
               (mkEmojiEntry (str "1f44d") (str ":+1:")) eq_refl eq_refl).
Defined.

Lemma getEmojiMetadata_falls_back_to_first_code_point_witness :
  getEmojiMetadata MoreSamples.githubEmojis [55357; 56397; 55356; 57341]%N
  = Some (mkEmojiEntry (str "1f44d") (str ":+1:")).
Proof.
  exact (getEmojiMetadata_falls_back_to_first_code_point
           MoreSamples.githubEmojis 128077%N [127997%N] eq_refl eq_refl).
Defined.

Lemma single_emoji_code_conversion_witness :
  emojiCodeToChar MoreSamples.getEmoji (str ":unicorn:") = [55358; 56708]%N /\
  emojiCodeToChar MoreSamples.getEmoji (str ":nope:") = str "undefined".
Proof.
  split.
  - exact (proj1 (single_emoji_code_conversion MoreSamples.getEmoji (str "unicorn")
                    eq_refl eq_refl)
                 [55358; 56708]%N eq_refl eq_refl).
  - exact (proj2 (single_emoji_code_conversion MoreSamples.getEmoji (str "nope")
                    eq_refl eq_refl)
                 eq_refl).
Defined.

Lemma getEmojiUnicode_of_well_formed_text_witness :
  getEmojiUnicode [55358; 56785; 8205; 55357; 56507]%N = str "1f9d1-200d-1f4bb".
Proof.
  exact (proj1 (getEmojiUnicode_of_well_formed_text [] [129489; 8205; 128187]%N)
               eq_refl eq_refl).
Defined.

End EmojiLaws.

(** ** The versioning module *)
Module VersioningLaws.
Import JS JSFacts Versioning Vocabulary.

Section Host.
Variable SemVer : Type.
Variable parse : jsstring -> completion SemVer Exception.
Variable format : SemVer -> jsstring.
Variable increment : SemVer -> Release -> option jsstring -> completion SemVer Exception.

Let getNextVersion := Versioning.getNextVersion format increment.
Let getNextPatch := Versioning.getNextPatch format increment.
Let getNextMinor := Versioning.getNextMinor format increment.
Let getNextMajor := Versioning.getNextMajor format increment.

(** X21.  [getNextVersion] dispatches on the release type: for [patch],
    [minor] and [major], the types [isValidReleaseType] accepts, it is
    [getNextPatch], [getNextMinor] and [getNextMajor]; for every other
    string it throws a TypeError.  When it returns, the new version is
    the increment of the old one by the type, or by its [pre] form when
    a non-empty prerelease identifier is given, its text is the
    formatted version and its tag that text after a [v]. *)
Theorem getNextVersion_dispatch
        (v : VersionObject SemVer) (type : jsstring) (prelease : option jsstring) :
  (isValidReleaseType type = false ->
   getNextVersion v type prelease = Throw TypeError) /\
  getNextVersion v (str "patch") prelease = getNextPatch v prelease /\
  getNextVersion v (str "minor") prelease = getNextMinor v prelease /\
  getNextVersion v (str "major") prelease = getNextMajor v prelease /\
  (forall v',
     getNextVersion v type prelease = Normal v' ->
     isValidReleaseType type = true /\
     increment (semver v) (release_for type prelease) prelease = Normal (semver v') /\
     version v' = format (semver v') /\
     tag v' = str "v" ++ version v').
Proof.
  assert (Hget : forall t,
            getMethodNameByReleaseType t
            = if eqb t (str "patch") then Some getNextPatch_
              else if eqb t (str "minor") then Some getNextMinor_
              else if eqb t (str "major") then Some getNextMajor_
              else None).
  { intros t. unfold getMethodNameByReleaseType.
    change NEXT_VERSION_METHOD_BY_RELEASE_TYPE
      with [ (str "patch", getNextPatch_); (str "minor", getNextMinor_);
             (str "major", getNextMajor_) ].
    reflexivity. }
  assert (Hvalid : isValidReleaseType type
                   = eqb type (str "major") || (eqb type (str "minor")
                     || (eqb type (str "patch") || false))) by reflexivity.
  split; [|split; [|split; [|split]]]; try reflexivity.
  - intros H. unfold getNextVersion, Versioning.getNextVersion.
    rewrite Hget. rewrite Hvalid in H.
    destruct (eqb type (str "patch")); [now rewrite !orb_true_r in H|].
    destruct (eqb type (str "minor")); [now rewrite !orb_true_r in H|].
    destruct (eqb type (str "major")); [discriminate|reflexivity].
  - intros v'. unfold getNextVersion, Versioning.getNextVersion.
    rewrite Hget, Hvalid. unfold release_for.
    destruct (eqb type (str "patch")) eqn:Ep.
    + unfold call_method, Versioning.getNextPatch, next.
      destruct (increment _ _ _) as [sv|]; [|discriminate].
      intros H. injection H as <-. rewrite !orb_true_r. repeat split.
    + destruct (eqb type (str "minor")) eqn:Em.
      * unfold call_method, Versioning.getNextMinor, next.
        destruct (increment _ _ _) as [sv|]; [|discriminate].
        intros H. injection H as <-. rewrite !orb_true_r. repeat split.
      * destruct (eqb type (str "major")) eqn:EM; [|discriminate].
        unfold call_method, Versioning.getNextMajor, next.
        destruct (increment _ _ _) as [sv|]; [|discriminate].
        intros H. injection H as <-. repeat split.
Qed.

End Host.

Lemma getNextVersion_dispatch_witness :
  Versioning.getNextVersion MoreSamples.format MoreSamples.increment
    (of_semver MoreSamples.format (1, 2, 3)%N) (str "release") None
  = Throw TypeError /\
  Versioning.getNextVersion MoreSamples.format MoreSamples.increment
    (of_semver MoreSamples.format (1, 2, 3)%N) (str "minor") (Some [])
  = Normal (of_semver MoreSamples.format (1, 3, 0)%N) /\
  tag (of_semver MoreSamples.format (1, 3, 0)%N)
  = str "v" ++ version (of_semver MoreSamples.format (1, 3, 0)%N).
Proof.
  split.
  - exact (proj1 (getNextVersion_dispatch _ MoreSamples.format MoreSamples.increment
                    (of_semver MoreSamples.format (1, 2, 3)%N) (str "release") None)
                 eq_refl).
  - split; [reflexivity|].
    destruct (proj2 (proj2 (proj2 (proj2
                (getNextVersion_dispatch _ MoreSamples.format MoreSamples.increment
                   (of_semver MoreSamples.format (1, 2, 3)%N) (str "minor")
                   (Some [])))))
                (of_semver MoreSamples.format (1, 3, 0)%N) eq_refl)
      as (_ & _ & _ & Ht).
    exact Ht.
Defined.

End VersioningLaws.

(** ** tools/callsites.ts *)
Module CallsitesLaws.
Import JS JSFacts Callsites Vocabulary.

(** The method name without its first [get] begins with an ASCII code
    unit. *)
Definition ascii_head (method : jsstring) : bool :=
  match replace (str "get") [] method with
  | c :: _ => (c <? 128)%N
  | [] => false
  end.

Section Host.
Variable toLowerCase : jsstring -> jsstring.
Variable V : Type.

Hypothesis toLowerCase_ascii :
  forall c : code_unit,
    (c <? 128)%N = true -> toLowerCase [c] = ascii_toLowerCase [c].

Lemma parseCallsite_from_ascii (cs : jsstring -> V) :
  forall methods result,
    forallb ascii_head methods = true ->
    parseCallsite_from toLowerCase cs methods result
    = parseCallsite_from ascii_toLowerCase cs methods result.
Proof.
  induction methods as [|m methods IH]; intros result H; [reflexivity|].
  cbn [forallb] in H. apply andb_true_iff in H. destruct H as [Hm H].
  cbn [parseCallsite_from]. unfold property_of. cbv zeta. unfold ascii_head in Hm.
  destruct (replace (str "get") [] m) as [|c r]; [discriminate|].
  cbv beta iota. rewrite (toLowerCase_ascii c Hm). now rewrite IH.
Qed.

(** X22.  [parseCallsite] stores the result of each of the thirteen
    call-site methods under the method's name without its first [get]
    and with a lower-case first letter, in the order of the methods.
    The top-level flag is therefore stored under [isToplevel], the
    method's own spelling; no property [isTopLevel] is ever written. *)
Theorem parseCallsite_property_names (cs : jsstring -> V) :
  parseCallsite toLowerCase cs
  = Normal
      [ (str "this", cs (str "getThis"));
        (str "typeName", cs (str "getTypeName"));
        (str "function", cs (str "getFunction"));
        (str "functionName", cs (str "getFunctionName"));
        (str "methodName", cs (str "getMethodName"));
        (str "fileName", cs (str "getFileName"));
        (str "lineNumber", cs (str "getLineNumber"));
        (str "columnNumber", cs (str "getColumnNumber"));
        (str "evalOrigin", cs (str "getEvalOrigin"));
        (str "isToplevel", cs (str "isToplevel"));
        (str "isEval", cs (str "isEval"));
        (str "isNative", cs (str "isNative"));
        (str "isConstructor", cs (str "isConstructor")) ] /\
  (forall o,
     parseCallsite toLowerCase cs = Normal o ->
     get o (str "isTopLevel") = None /\
     get o (str "isToplevel") = Some (cs (str "isToplevel"))).
Proof.
  assert (E : parseCallsite toLowerCase cs
              = parseCallsite ascii_toLowerCase cs).
  { unfold parseCallsite. apply parseCallsite_from_ascii. reflexivity. }
  rewrite E. split; [vm_compute; reflexivity|].
  intros o H. vm_compute in H. injection H as <-. split; reflexivity.
Qed.

End Host.

Lemma parseCallsite_property_names_witness :
  exists o,
    parseCallsite ascii_toLowerCase (fun method => method) = Normal o /\
    get o (str "isTopLevel") = None /\
    get o (str "isToplevel") = Some (str "isToplevel").
Proof.
  eexists. split; [vm_compute; reflexivity|].
  apply (proj2 (parseCallsite_property_names ascii_toLowerCase jsstring
                  (fun c _ => eq_refl) (fun method => method))).
  vm_compute. reflexivity.
Defined.

End CallsitesLaws.
